(** * Todo-Beads synchronization: a shallow embedding

    The module under study maps OpenCode todos to beads issues.  Its
    entry points are [syncTodosToBeads] (the reconcile pass) and
    [readTodosFromBeads] (the recovery reader).  Everything the module
    does to the outside goes through three doors: the [bd] command line
    (through the Bun shell), the clock, and one JSON file on disk.

    Modelling choices, in one place:
    - strings are Rocq strings, sequences of bytes, read as the UTF-8
      form of JavaScript strings, which is how they come out of files
      and commands: [Js.trim] removes white space in its UTF-8 form;
      [Js.slice0] counts bytes, which are the UTF-16 units of the
      source for ASCII text such as the session ids OpenCode issues;
    - a JavaScript object used as a dictionary is the list of its own
      properties in the order [Object.entries] reports them.  A read
      [o[k]] finds the members of [Object.prototype] as well:
      [Obj.read] is that read, and the priority table, keyed by a
      string the caller chooses, is read with it.  The tables of the
      mapping are read with [Obj.get], the own property, which is
      [o[k]] for every session id and todo id that names no member of
      [Object.prototype] ([Obj.inherited]); statements that need this
      of their ids say so;
    - promises are run to completion one after the other, so an async
      function is a state-passing function that either returns or throws;
    - what [JSON.parse] returns for the mapping file, when it does not
      throw, and what the shell returns for a [bd] command have the
      shapes the module's interfaces declare; [bd show] alone is given
      the two shapes its two call sites test for.  A mapping file
      holding JSON of another shape is outside the model; [ownStore]
      names the stores that cannot hold such text, and statements
      about every store that depend on the shape are made of those;
    - the text produced by [JSON.stringify] is kept symbolic, and writing
      a file always succeeds. *)

From Stdlib Require Import Ascii String DecimalString ZArith.
From stdpp Require Import base decidable option list strings gmap.

Set Warnings "-clear-no-such-hyp".

Local Open Scope string_scope.
Local Open Scope list_scope.
Local Open Scope Z_scope.

(** ** JavaScript strings *)

Module Js.

(** [a === b] on strings. *)
Definition seq (a b : string) : bool := String.eqb a b.

(** Truthiness of a string: every string but the empty one. *)
Definition truthy (s : string) : bool := negb (seq s "").

(** A property read used as a condition and then as a value:
    [undefined] and the empty string both count as absent. *)
Definition present (v : option string) : option string :=
  match v with
  | Some s => if truthy s then Some s else None
  | None => None
  end.

(** [hay.includes(needle)]. *)
Fixpoint includes (hay needle : string) : bool :=
  String.prefix needle hay ||
  match hay with
  | EmptyString => false
  | String _ rest => includes rest needle
  end.

(** [s.endsWith(suffix)]. *)
Fixpoint endsWith (s suffix : string) : bool :=
  seq s suffix ||
  match s with
  | EmptyString => false
  | String _ rest => endsWith rest suffix
  end.

(** [s.slice(0, n)], counting bytes: for a string whose first [n]
    characters are ASCII, the first [n] UTF-16 units. *)
Definition slice0 (n : nat) (s : string) : string := String.substring 0 n s.

(** [s.split(c)[0]] for a one-character separator. *)
Fixpoint before (c : ascii) (s : string) : string :=
  match s with
  | EmptyString => EmptyString
  | String a rest => if Ascii.eqb a c then EmptyString else String a (before c rest)
  end.

(** [s.split("\n")]. *)
Fixpoint lines_from (cur : string) (s : string) : list string :=
  match s with
  | EmptyString => [String.rev cur]
  | String a rest =>
      if Ascii.eqb a "010"%char then String.rev cur :: lines_from EmptyString rest
      else lines_from (String a cur) rest
  end.
Definition lines (s : string) : list string := lines_from EmptyString s.

(** White space removed by [trim]: the code points of ECMAScript's
    WhiteSpace and LineTerminator, as they appear in UTF-8.  In one
    byte: U+0009 to U+000D and U+0020. *)
Definition is_space (a : ascii) : bool :=
  let n := N_of_ascii a in
  (N.eqb n 32 || (N.leb 9 n && N.leb n 13))%N.

Definition byte (a : ascii) (n : N) : bool := N.eqb (N_of_ascii a) n.

(** In two bytes: U+00A0. *)
Definition is_space2 (a b : ascii) : bool := byte a 194 && byte b 160.

(** In three bytes: U+1680, U+2000 to U+200A, U+2028, U+2029, U+202F,
    U+205F, U+3000 and U+FEFF. *)
Definition is_space3 (a b c : ascii) : bool :=
  (byte a 225 && byte b 154 && byte c 128)
  || (byte a 226 && byte b 128 &&
      ((N.leb 128 (N_of_ascii c) && N.leb (N_of_ascii c) 138)
       || byte c 168 || byte c 169 || byte c 175))
  || (byte a 226 && byte b 129 && byte c 159)
  || (byte a 227 && byte b 128 && byte c 128)
  || (byte a 239 && byte b 187 && byte c 191).

Fixpoint trimStart (s : string) : string :=
  match s with
  | String a rest =>
      if is_space a then trimStart rest
      else
        match rest with
        | String b rest2 =>
            if is_space2 a b then trimStart rest2
            else
              match rest2 with
              | String c rest3 => if is_space3 a b c then trimStart rest3 else s
              | EmptyString => s
              end
        | EmptyString => s
        end
  | EmptyString => EmptyString
  end.

(** The same from the end: [s] is a string read backwards, so the last
    byte of a code point comes first. *)
Fixpoint trimReversed (s : string) : string :=
  match s with
  | String c rest =>
      if is_space c then trimReversed rest
      else
        match rest with
        | String b rest2 =>
            if is_space2 b c then trimReversed rest2
            else
              match rest2 with
              | String a rest3 => if is_space3 a b c then trimReversed rest3 else s
              | EmptyString => s
              end
        | EmptyString => s
        end
  | EmptyString => EmptyString
  end.

Definition trim (s : string) : string :=
  String.rev (trimReversed (String.rev (trimStart s))).

(** Template interpolation of a non-negative count. *)
Definition ofNat (n : nat) : string := NilEmpty.string_of_uint (Nat.to_uint n).

(** An error value: what [String(error)] shows of it. *)
Record Error := { name : string; message : string }.

Definition newError (msg : string) : Error := {| name := "Error"; message := msg |}.

(** [Error.prototype.toString]. *)
Definition toString (e : Error) : string :=
  if seq (name e) "" then message e
  else if seq (message e) "" then name e
  else name e +:+ ": " +:+ message e.

End Js.

(** ** JavaScript objects used as dictionaries *)

Module Obj.

Definition t (V : Type) : Type := list (string * V).

Section Ops.
Context {V : Type}.

Definition empty : t V := [].

(** The own property [k] of [o], if any (what [o[k]] is for a key that
    names no member of [Object.prototype]; see [read] below). *)
Fixpoint get (k : string) (o : t V) : option V :=
  match o with
  | [] => None
  | (k', v) :: rest => if Js.seq k k' then Some v else get k rest
  end.

Definition has (k : string) (o : t V) : bool :=
  match get k o with Some _ => true | None => false end.

Definition digit (a : ascii) : option N :=
  let n := N_of_ascii a in
  if (N.leb 48 n && N.leb n 57)%N then Some (n - 48)%N else None.

Fixpoint digits (s : string) (acc : N) : option N :=
  match s with
  | EmptyString => Some acc
  | String a rest =>
      match digit a with
      | Some d => digits rest (10 * acc + d)%N
      | None => None
      end
  end.

(** A property key is an array index when it is the canonical decimal
    form of an integer below 2^32 - 1; such keys are enumerated first,
    in ascending order, and the others follow in insertion order. *)
Definition arrayIndex (k : string) : option N :=
  match k with
  | EmptyString => None
  | String a rest =>
      if Ascii.eqb a "0"%char && negb (Js.seq rest "") then None
      else match digits k 0 with
           | Some n => if (n <=? 4294967294)%N then Some n else None
           | None => None
           end
  end.

Fixpoint replace (k : string) (v : V) (o : t V) : t V :=
  match o with
  | [] => []
  | (k', v') :: rest =>
      if Js.seq k k' then (k, v) :: rest else (k', v') :: replace k v rest
  end.

Fixpoint insertIndex (n : N) (k : string) (v : V) (o : t V) : t V :=
  match o with
  | [] => [(k, v)]
  | (k', v') :: rest =>
      match arrayIndex k' with
      | Some n' => if (n <? n')%N then (k, v) :: o else (k', v') :: insertIndex n k v rest
      | None => (k, v) :: o
      end
  end.

(** [o[k] = v]. *)
Definition set (k : string) (v : V) (o : t V) : t V :=
  if has k o then replace k v o
  else match arrayIndex k with
       | Some n => insertIndex n k v o
       | None => o ++ [(k, v)]
       end.

(** [delete o[k]]. *)
Definition delete (k : string) (o : t V) : t V :=
  List.filter (fun kv => negb (Js.seq k kv.1)) o.

(** [Object.entries(o)]: a snapshot, taken before the loop runs. *)
Definition entries (o : t V) : list (string * V) := o.

End Ops.

(** The property names a plain object inherits from [Object.prototype]. *)
Definition prototypeNames : list string :=
  ["constructor"; "hasOwnProperty"; "isPrototypeOf"; "propertyIsEnumerable";
   "toLocaleString"; "toString"; "valueOf"; "__proto__";
   "__defineGetter__"; "__defineSetter__"; "__lookupGetter__"; "__lookupSetter__"].

(** [k] names a member of [Object.prototype]. *)
Definition inherited (k : string) : bool := existsb (Js.seq k) prototypeNames.

(** What [o[k]] evaluates to on a plain object: the own property when
    there is one, else the member of [Object.prototype] of that name,
    else [undefined].  Every such member is an object, so it is truthy
    and not nullish. *)
Inductive Read (V : Type) : Type :=
| Own (v : V)
| Member (name : string)
| Undefined.
Arguments Own {V} _.
Arguments Member {V} _.
Arguments Undefined {V}.

Definition read {V} (k : string) (o : t V) : Read V :=
  match get k o with
  | Some v => Own v
  | None => if inherited k then Member k else Undefined
  end.

End Obj.

(** ** Types *)

Inductive TodoStatus := pending | in_progress | completed | cancelled.

Global Instance TodoStatus_eq_dec : EqDecision TodoStatus.
Proof. solve_decision. Defined.

(** OpenCode todo item.  The priority is kept as the string it is at run
    time: the translation table is keyed by strings and has a fallback. *)
Module TodoItem.
Record t := mk { id : string; content : string; status : TodoStatus; priority : string }.
End TodoItem.

(** Beads issue, as read from [bd --json] output. *)
Module BeadsIssue.
Record t := mk {
  id : string;
  title : string;
  description : option string;
  status : string;
  priority : Z;
  issue_type : string;
  notes : option string;
}.
End BeadsIssue.

(** Mapping between OpenCode todos and beads issues. *)
Record TodoBeadsMapping := {
  sessions : Obj.t string;
  todos : Obj.t (Obj.t string);
  lastSync : Z;
}.

(** ** Constants *)

Definition MAPPING_FILE : string := ".beads/opencode-todo-mapping.json".

Definition PRIORITY_TO_BEADS : Obj.t Z :=
  [("high", 1); ("medium", 2); ("low", 3)].

Definition PRIORITY_FROM_BEADS (p : Z) : option string :=
  if p =? 0 then Some "high"
  else if p =? 1 then Some "high"
  else if p =? 2 then Some "medium"
  else if p =? 3 then Some "low"
  else if p =? 4 then Some "low"
  else None.

Definition STATUS_TO_BEADS (s : TodoStatus) : string :=
  match s with
  | pending => "open"
  | in_progress => "in_progress"
  | completed => "closed"
  | cancelled => "closed"
  end.

(** The value [createBeadsIssue] passes after [-p]: a number, or the
    member of [Object.prototype] that the lookup of the priority found. *)
Inductive PriorityArg :=
| Number (n : Z)
| Prototype (name : string).
Coercion Number : Z >-> PriorityArg.

(** [PRIORITY_TO_BEADS[p] ?? 2], as [createBeadsIssue] computes it: the
    default is taken only when the lookup yields [undefined]. *)
Definition priorityToBeads (p : string) : PriorityArg :=
  match Obj.read p PRIORITY_TO_BEADS with
  | Obj.Own n => Number n
  | Obj.Member name => Prototype name
  | Obj.Undefined => Number 2
  end.

(** [PRIORITY_FROM_BEADS[p] ?? "medium"], as [beadsIssueToTodo] computes it. *)
Definition priorityFromBeads (p : Z) : string :=
  default "medium" (PRIORITY_FROM_BEADS p).

(** The close reason both [createBeadsIssue] and [updateBeadsIssue] pass:
    [todo.status === "cancelled" ? "Cancelled in OpenCode" : "Completed"]. *)
Definition closeReason (s : TodoStatus) : string :=
  if decide (s = cancelled) then "Cancelled in OpenCode" else "Completed".

(** Convert a beads issue back to a todo item. *)
Definition beadsIssueToTodo (todoID : string) (issue : BeadsIssue.t) : TodoItem.t :=
  let status :=
    if Js.seq (BeadsIssue.status issue) "in_progress" then in_progress
    else if Js.seq (BeadsIssue.status issue) "closed" then
      match BeadsIssue.notes issue with
      | Some n => if Js.includes n "Cancelled" then cancelled else completed
      | None => completed
      end
    else pending in
  TodoItem.mk todoID (BeadsIssue.title issue) status
    (priorityFromBeads (BeadsIssue.priority issue)).

(** ** The outside world *)

(** What [bd show <id> --json] prints, once parsed: the two call sites
    disagree on the shape they expect, so both shapes are kept. *)
Inductive Json :=
| JObject (issue : BeadsIssue.t)
| JArray (issues : list BeadsIssue.t).

(** [bd create <title> -t <type> -p <priority> [--parent <id>] -d <text> --json] *)
Record CreateArgs := {
  c_title : string;
  c_type : string;
  c_priority : PriorityArg;
  c_parent : option string;
  c_description : string;
}.

(** The commands run with [.quiet()], whose output is not read. *)
Inductive Mutation :=
| UpdateStatus (id status : string)   (* bd update <id> --status <status> --json *)
| UpdateNotes (id notes : string)     (* bd update <id> --notes <notes> --json *)
| Close (id reason : string).         (* bd close <id> --reason <reason> --json *)

(** One shell call together with what came back: [inl] is the error the
    shell promise rejects with. *)
Inductive Call :=
| Show (id : string) (reply : Js.Error + Json)
| Create (args : CreateArgs) (reply : Js.Error + BeadsIssue.t)
| Mutate (m : Mutation) (reply : Js.Error + unit).

(** What the mapping file holds: text put there by someone else, or the
    text [JSON.stringify(mapping, null, 2)] wrote, which [JSON.parse]
    reads back as the same mapping.  Foreign text is either rejected by
    [JSON.parse] or parses to a value with the fields of a mapping; JSON
    of another shape, which the module would return unchecked, has no
    counterpart here (see [ownStore]). *)
Inductive Content :=
| Foreign (text : string)
| Stringified (mapping : TodoBeadsMapping).

(** The tracker and the clock behind the engine.  [E] is their state;
    nothing is assumed about how they answer. *)
Class Platform (E : Type) := {
  bd_show : string -> E -> (Js.Error + Json) * E;
  bd_create : CreateArgs -> E -> (Js.Error + BeadsIssue.t) * E;
  bd_quiet : Mutation -> E -> (Js.Error + unit) * E;
  Date_now : E -> Z;
  Date_toISOString : E -> string;
  (** [JSON.parse] on text this module did not write: [None] when it
      throws. *)
  JSON_parse_text : string -> option TodoBeadsMapping;
}.

(** The tracker environment and the two files the module touches:
    [MAPPING_FILE] and the [.gitignore] next to it. *)
Record World (E : Type) := {
  env : E;
  mappingFile : option Content;
  gitignore : option string;
}.
Arguments env {E} _.
Arguments mappingFile {E} _.
Arguments gitignore {E} _.

(** ** Async functions: state, exceptions, and the calls made *)

(** A computation returns or throws, leaves a world behind, and reports
    the shell calls it made, oldest first. *)
Definition Async (E A : Type) : Type :=
  World E -> (Js.Error + A) * World E * list Call.

Section Monad.
Context {E : Type}.
Local Abbreviation M := (Async E).

Definition ret {A} (a : A) : M A := fun w => (inr a, w, []).

Definition throw {A} (e : Js.Error) : M A := fun w => (inl e, w, []).

Definition bind {A B} (m : M A) (f : A -> M B) : M B := fun w =>
  match m w with
  | (inl e, w1, t1) => (inl e, w1, t1)
  | (inr a, w1, t1) =>
      match f a w1 with
      | (r, w2, t2) => (r, w2, t1 ++ t2)
      end
  end.

(** [try { body } catch (error) { handler }]: effects of the body stay. *)
Definition tryCatch {A} (body : M A) (handler : Js.Error -> M A) : M A := fun w =>
  match body w with
  | (inr a, w1, t1) => (inr a, w1, t1)
  | (inl e, w1, t1) =>
      match handler e w1 with
      | (r, w2, t2) => (r, w2, t1 ++ t2)
      end
  end.

(** [for (const x of xs) { ... }] with the loop's variables as [s]. *)
Fixpoint forOf {A S} (body : A -> S -> M S) (xs : list A) (s : S) : M S :=
  match xs with
  | [] => ret s
  | x :: rest => bind (body x s) (forOf body rest)
  end.

End Monad.

Notation "'let*' x ':=' m 'in' k" := (bind m (fun x => k))
  (at level 10, x pattern, m at level 100, k at level 200).

(** Projections of an outcome. *)
Definition result {E A} (o : (Js.Error + A) * World E * list Call) : Js.Error + A := o.1.1.
Definition world {E A} (o : (Js.Error + A) * World E * list Call) : World E := o.1.2.
Definition calls {E A} (o : (Js.Error + A) * World E * list Call) : list Call := o.2.

Section Engine.
Context {E : Type} {platform : Platform E}.
Local Abbreviation M := (Async E).

(** *** Shell and file primitives *)

Definition withEnv (e : E) (w : World E) : World E :=
  {| env := e; mappingFile := mappingFile w; gitignore := gitignore w |}.

(** [await $`bd show ${id} --json`.json()] *)
Definition sh_show (id : string) : M Json := fun w =>
  let r := bd_show id (env w) in (r.1, withEnv r.2 w, [Show id r.1]).

(** [await $`bd create ... --json`.json()] *)
Definition sh_create (args : CreateArgs) : M BeadsIssue.t := fun w =>
  let r := bd_create args (env w) in (r.1, withEnv r.2 w, [Create args r.1]).

(** [await $`bd ... --json`.quiet()] *)
Definition sh_quiet (m : Mutation) : M unit := fun w =>
  let r := bd_quiet m (env w) in (r.1, withEnv r.2 w, [Mutate m r.1]).

Definition ENOENT : Js.Error :=
  {| Js.name := "Error"; Js.message := "ENOENT: no such file or directory" |}.

Definition SyntaxError : Js.Error :=
  {| Js.name := "SyntaxError"; Js.message := "JSON Parse error" |}.

(** [await fs.readFile(MAPPING_FILE, "utf-8")] *)
Definition readMappingFile : M Content := fun w =>
  match mappingFile w with
  | Some c => (inr c, w, [])
  | None => (inl ENOENT, w, [])
  end.

(** [await fs.writeFile(MAPPING_FILE, JSON.stringify(mapping, null, 2))] *)
Definition writeMappingFile (mapping : TodoBeadsMapping) : M unit := fun w =>
  (inr tt,
   {| env := env w; mappingFile := Some (Stringified mapping); gitignore := gitignore w |},
   []).

(** [await fs.access(MAPPING_FILE).then(() => true).catch(() => false)] *)
Definition accessMappingFile : M bool := fun w =>
  (inr (match mappingFile w with Some _ => true | None => false end), w, []).

Definition readGitignore : M string := fun w =>
  match gitignore w with
  | Some c => (inr c, w, [])
  | None => (inl ENOENT, w, [])
  end.

Definition writeGitignore (content : string) : M unit := fun w =>
  (inr tt, {| env := env w; mappingFile := mappingFile w; gitignore := Some content |}, []).

Definition JSON_parse (content : Content) : M TodoBeadsMapping :=
  match content with
  | Stringified m => ret m
  | Foreign text =>
      match JSON_parse_text text with
      | Some m => ret m
      | None => throw SyntaxError
      end
  end.

Definition now : M Z := fun w => (inr (Date_now (env w)), w, []).

Definition isoNow : M string := fun w => (inr (Date_toISOString (env w)), w, []).

(** *** Mapping file management *)

Definition emptyMapping : TodoBeadsMapping :=
  {| sessions := Obj.empty; todos := Obj.empty; lastSync := 0 |}.

(** [mapping.lastSync = t] *)
Definition withLastSync (t : Z) (mapping : TodoBeadsMapping) : TodoBeadsMapping :=
  {| sessions := sessions mapping; todos := todos mapping; lastSync := t |}.

(** Load the todo-beads mapping from disk. *)
Definition loadMapping : M TodoBeadsMapping :=
  tryCatch
    (let* content := readMappingFile in
     JSON_parse content)
    (fun _ => ret emptyMapping).

Definition newline : string := String "010"%char EmptyString.

(** Ensure a file is in the [.gitignore] of the mapping file's directory
    (the only directory it is ever called with). *)
Definition ensureGitignoreEntry (filename : string) : M unit :=
  tryCatch
    (let* content := readGitignore in
     if existsb (fun line => Js.seq (Js.trim line) filename) (Js.lines content)
     then ret tt
     else
       writeGitignore
         (if Js.endsWith content newline
          then content +:+ filename +:+ newline
          else content +:+ newline +:+ filename +:+ newline))
    (fun _ => writeGitignore (filename +:+ newline)).

(** Save the todo-beads mapping to disk.  The caller's object gets its
    [lastSync] field overwritten, so the updated mapping is returned.
    Creating the directory has no effect on the two files modelled. *)
Definition saveMapping (mapping : TodoBeadsMapping) : M TodoBeadsMapping :=
  let* t := now in
  let mapping := withLastSync t mapping in
  let* fileExists := accessMappingFile in
  let* _ :=
    if negb fileExists then ensureGitignoreEntry "opencode-todo-mapping.json"
    else ret tt in
  let* _ := writeMappingFile mapping in
  ret mapping.

(** *** Session issue management *)

(** [Array.isArray(result) && result[0]?.id] *)
Definition firstHasId (result : Json) : bool :=
  match result with
  | JArray (issue :: _) => Js.truthy (BeadsIssue.id issue)
  | _ => false
  end.

(** The first half of [getOrCreateSessionIssue]: the recorded session
    issue, when there is one and [bd show] still finds it.  The record
    is the own property of [mapping.sessions]. *)
Definition lookupSessionIssue (sessionID : string) (mapping : TodoBeadsMapping)
  : M (option string) :=
  match Js.present (Obj.get sessionID (sessions mapping)) with
  | Some recorded =>
      tryCatch
        (let* result := sh_show recorded in
         ret (if firstHasId result then Some recorded else None))
        (fun _ => ret None)
  | None => ret None
  end.

Definition sessionTitle (sessionID timestamp : string) : string :=
  "OpenCode Session " +:+ Js.slice0 8 sessionID +:+ " (" +:+ timestamp +:+ ")".

Definition sessionArgs (sessionID timestamp : string) : CreateArgs :=
  {| c_title := sessionTitle sessionID timestamp;
     c_type := "epic";
     c_priority := 2;
     c_parent := None;
     c_description := "Tracks todos for OpenCode session " +:+ sessionID |}.

(** Get or create a beads session issue for tracking this session's
    todos.  Returns the issue id and the mapping as the call leaves it. *)
Definition getOrCreateSessionIssue (sessionID : string) (mapping : TodoBeadsMapping)
  : M (string * TodoBeadsMapping) :=
  let* existing := lookupSessionIssue sessionID mapping in
  match existing with
  | Some recorded => ret (recorded, mapping)
  | None =>
      let* iso := isoNow in
      let timestamp := Js.before "T"%char iso in
      tryCatch
        (let* result := sh_create (sessionArgs sessionID timestamp) in
         let issueID := BeadsIssue.id result in
         let mapping :=
           {| sessions := Obj.set sessionID issueID (sessions mapping);
              todos := Obj.set sessionID Obj.empty (todos mapping);
              lastSync := lastSync mapping |} in
         let* mapping := saveMapping mapping in
         ret (issueID, mapping))
        (fun error =>
           throw (Js.newError ("Failed to create session issue: " +:+ Js.toString error)))
  end.

(** *** Todo synchronization *)

Definition todoArgs (sessionIssueID : string) (todo : TodoItem.t) : CreateArgs :=
  {| c_title := TodoItem.content todo;
     c_type := "task";
     c_priority := priorityToBeads (TodoItem.priority todo);
     c_parent := Some sessionIssueID;
     c_description := "OpenCode todo ID: " +:+ TodoItem.id todo |}.

(** Create a new beads issue for a todo. *)
Definition createBeadsIssue (sessionIssueID : string) (todo : TodoItem.t) : M string :=
  tryCatch
    (let* result := sh_create (todoArgs sessionIssueID todo) in
     let* _ :=
       match TodoItem.status todo with
       | in_progress => sh_quiet (UpdateStatus (BeadsIssue.id result) "in_progress")
       | completed | cancelled =>
           sh_quiet (Close (BeadsIssue.id result) (closeReason (TodoItem.status todo)))
       | pending => ret tt
       end in
     ret (BeadsIssue.id result))
    (fun error =>
       throw (Js.newError ("Failed to create beads issue for todo "
                           +:+ TodoItem.id todo +:+ ": " +:+ Js.toString error))).

(** Update an existing beads issue to match todo state. *)
Definition updateBeadsIssue (beadsID : string) (todo : TodoItem.t) : M unit :=
  let beadsStatus := STATUS_TO_BEADS (TodoItem.status todo) in
  tryCatch
    (if Js.seq beadsStatus "closed"
     then sh_quiet (Close beadsID (closeReason (TodoItem.status todo)))
     else sh_quiet (UpdateStatus beadsID beadsStatus))
    (fun _ => ret tt).

Definition countStatus (s : TodoStatus) (todos : list TodoItem.t) : nat :=
  length (List.filter (fun t => bool_decide (TodoItem.status t = s)) todos).

Definition sessionSummary (todos : list TodoItem.t) : string :=
  "Session complete: " +:+ Js.ofNat (countStatus completed todos) +:+ " completed, "
  +:+ Js.ofNat (countStatus cancelled todos) +:+ " cancelled".

(** Close the session issue with a summary. *)
Definition closeSessionIssue (sessionIssueID : string) (todos : list TodoItem.t) : M unit :=
  let summary := sessionSummary todos in
  tryCatch
    (let* _ := sh_quiet (UpdateNotes sessionIssueID summary) in
     sh_quiet (Close sessionIssueID summary))
    (fun _ => ret tt).

(** [todoMap] in the source is a reference to [mapping.todos[sessionID]]:
    reading it reads the mapping, writing it writes the mapping.  It is
    the own property of [mapping.todos]. *)
Definition todoMapOf (sessionID : string) (mapping : TodoBeadsMapping) : Obj.t string :=
  default Obj.empty (Obj.get sessionID (todos mapping)).

Definition withTodoMap (sessionID : string) (todoMap : Obj.t string)
    (mapping : TodoBeadsMapping) : TodoBeadsMapping :=
  {| sessions := sessions mapping;
     todos := Obj.set sessionID todoMap (todos mapping);
     lastSync := lastSync mapping |}.

(** [if (!mapping.todos[sessionID]) mapping.todos[sessionID] = {}] *)
Definition ensureTodoMap (sessionID : string) (mapping : TodoBeadsMapping)
  : TodoBeadsMapping :=
  match Obj.get sessionID (todos mapping) with
  | Some _ => mapping
  | None => withTodoMap sessionID Obj.empty mapping
  end.

(** Body of the first loop: update the issue recorded for the todo, or
    create one and record it.  [todoMap[todo.id]] is the own property:
    a todo whose id names a member of [Object.prototype] is, in the
    source, taken for a recorded one on its first pass. *)
Definition syncTodo (sessionID sessionIssueID : string) (todo : TodoItem.t)
    (st : TodoBeadsMapping * gset string) : M (TodoBeadsMapping * gset string) :=
  let '(mapping, seenTodoIDs) := st in
  let seenTodoIDs := {[ TodoItem.id todo ]} ∪ seenTodoIDs in
  match Js.present (Obj.get (TodoItem.id todo) (todoMapOf sessionID mapping)) with
  | Some existingBeadsID =>
      let* _ := updateBeadsIssue existingBeadsID todo in
      ret (mapping, seenTodoIDs)
  | None =>
      let* newBeadsID := createBeadsIssue sessionIssueID todo in
      ret (withTodoMap sessionID
             (Obj.set (TodoItem.id todo) newBeadsID (todoMapOf sessionID mapping))
             mapping,
           seenTodoIDs)
  end.

Definition REMOVED_REASON : string := "Todo removed from OpenCode".

(** Body of the second loop: close and forget the issue of a todo that
    is no longer in the list. *)
Definition dropRemoved (sessionID : string) (seenTodoIDs : gset string)
    (entry : string * string) (mapping : TodoBeadsMapping) : M TodoBeadsMapping :=
  let '(todoID, beadsID) := entry in
  if bool_decide (todoID ∈ seenTodoIDs) then ret mapping
  else
    let* _ := tryCatch (sh_quiet (Close beadsID REMOVED_REASON)) (fun _ => ret tt) in
    ret (withTodoMap sessionID (Obj.delete todoID (todoMapOf sessionID mapping)) mapping).

Definition isTerminal (t : TodoItem.t) : bool :=
  bool_decide (TodoItem.status t = completed) || bool_decide (TodoItem.status t = cancelled).

(** Sync todos to beads issues: creates, updates and closes beads issues
    to match the current todo list. *)
Definition syncTodosToBeads (sessionID : string) (todos : list TodoItem.t) : M unit :=
  let* mapping := loadMapping in
  let* (sessionIssueID, mapping) := getOrCreateSessionIssue sessionID mapping in
  let mapping := ensureTodoMap sessionID mapping in
  let* (mapping, seenTodoIDs) :=
    forOf (syncTodo sessionID sessionIssueID) todos (mapping, ∅) in
  let* mapping :=
    forOf (dropRemoved sessionID seenTodoIDs)
          (Obj.entries (todoMapOf sessionID mapping)) mapping in
  let allComplete := forallb isTerminal todos in
  let* _ :=
    if allComplete && bool_decide (0 < length todos)%nat
    then closeSessionIssue sessionIssueID todos
    else ret tt in
  let* _ := saveMapping mapping in
  ret tt.

(** *** Read todos from beads *)

(** Body of the recovery loop: [result && result.id] holds of an issue
    object with a non-empty id, and of nothing else. *)
Definition readEntry (entry : string * string) (todos : list TodoItem.t)
  : M (list TodoItem.t) :=
  let '(todoID, beadsID) := entry in
  tryCatch
    (let* result := sh_show beadsID in
     match result with
     | JObject issue =>
         if Js.truthy (BeadsIssue.id issue)
         then ret (todos ++ [beadsIssueToTodo todoID issue])
         else ret todos
     | JArray _ => ret todos
     end)
    (fun _ => ret todos).

(** Read todos from beads for a session. *)
Definition readTodosFromBeads (sessionID : string) : M (list TodoItem.t) :=
  let* mapping := loadMapping in
  match Js.present (Obj.get sessionID (sessions mapping)) with
  | Some sessionIssueID =>
      forOf readEntry (Obj.entries (todoMapOf sessionID mapping)) []
  | None => ret []
  end.

End Engine.

(** ** A small tracker to run the engine on

    An in-memory tracker: ids are handed out in sequence, an empty title
    and a priority that is not a number are rejected, unknown ids are
    errors, closing twice is an error, and the close reason is kept in
    the notes.  [showsArray] selects the shape [bd show] answers with. *)

Module Demo.

Record Tracker := {
  nextId : nat;
  issues : list BeadsIssue.t;
  showsArray : bool;
  clock : Z;
}.

Definition tick (issues' : list BeadsIssue.t) (next : nat) (t : Tracker) : Tracker :=
  {| nextId := next; issues := issues'; showsArray := showsArray t; clock := clock t + 1 |}.

Definition find (id : string) (t : Tracker) : option BeadsIssue.t :=
  List.find (fun i => Js.seq (BeadsIssue.id i) id) (issues t).

Definition amend (id : string) (f : BeadsIssue.t -> BeadsIssue.t) (t : Tracker)
  : list BeadsIssue.t :=
  map (fun i => if Js.seq (BeadsIssue.id i) id then f i else i) (issues t).

Definition failure (msg : string) : Js.Error :=
  {| Js.name := "ShellError"; Js.message := msg |}.

Definition show (id : string) (t : Tracker) : (Js.Error + Json) * Tracker :=
  match find id t with
  | Some i => (inr (if showsArray t then JArray [i] else JObject i), tick (issues t) (nextId t) t)
  | None => (inl (failure "no issue found"), tick (issues t) (nextId t) t)
  end.

Definition create (a : CreateArgs) (t : Tracker) : (Js.Error + BeadsIssue.t) * Tracker :=
  if Js.seq (c_title a) "" then (inl (failure "title required"), tick (issues t) (nextId t) t)
  else
    match c_priority a with
    | Number p =>
        let i := BeadsIssue.mk ("bd-" +:+ Js.ofNat (nextId t)) (c_title a)
                   (Some (c_description a)) "open" p (c_type a) None in
        (inr i, tick (issues t ++ [i]) (S (nextId t)) t)
    | Prototype _ => (inl (failure "invalid priority"), tick (issues t) (nextId t) t)
    end.

Definition setStatus (s : string) (i : BeadsIssue.t) : BeadsIssue.t :=
  BeadsIssue.mk (BeadsIssue.id i) (BeadsIssue.title i) (BeadsIssue.description i) s
    (BeadsIssue.priority i) (BeadsIssue.issue_type i) (BeadsIssue.notes i).

Definition setNotes (n : string) (i : BeadsIssue.t) : BeadsIssue.t :=
  BeadsIssue.mk (BeadsIssue.id i) (BeadsIssue.title i) (BeadsIssue.description i)
    (BeadsIssue.status i) (BeadsIssue.priority i) (BeadsIssue.issue_type i) (Some n).

Definition quiet (m : Mutation) (t : Tracker) : (Js.Error + unit) * Tracker :=
  match m with
  | UpdateStatus id s =>
      match find id t with
      | Some _ => (inr tt, tick (amend id (setStatus s) t) (nextId t) t)
      | None => (inl (failure "no issue found"), tick (issues t) (nextId t) t)
      end
  | UpdateNotes id n =>
      match find id t with
      | Some _ => (inr tt, tick (amend id (setNotes n) t) (nextId t) t)
      | None => (inl (failure "no issue found"), tick (issues t) (nextId t) t)
      end
  | Close id reason =>
      match find id t with
      | Some i =>
          if Js.seq (BeadsIssue.status i) "closed"
          then (inl (failure "already closed"), tick (issues t) (nextId t) t)
          else (inr tt,
                tick (amend id (fun i => setNotes reason (setStatus "closed" i)) t) (nextId t) t)
      | None => (inl (failure "no issue found"), tick (issues t) (nextId t) t)
      end
  end.

#[global] Instance platform : Platform Tracker := {|
  bd_show := show;
  bd_create := create;
  bd_quiet := quiet;
  Date_now := clock;
  Date_toISOString := fun _ => "2025-06-01T12:00:00.000Z";
  JSON_parse_text := fun _ => None;
|}.

(** A fresh project: no issue, no mapping file, no ignore file. *)
Definition start (array : bool) : World Tracker :=
  {| env := {| nextId := 1; issues := []; showsArray := array; clock := 1000 |};
     mappingFile := None;
     gitignore := None |}.

Definition todoA (s : TodoStatus) : TodoItem.t := TodoItem.mk "A" "write the parser" s "high".
Definition todoB (s : TodoStatus) : TodoItem.t := TodoItem.mk "B" "write the tests" s "low".

(** A todo the tracker refuses to create. *)
Definition untitled : TodoItem.t := TodoItem.mk "B" "" pending "low".

(** A project whose session issue [bd-1] was deleted in the tracker
    while the mapping still records it, with one todo synced before. *)
Definition orphaned : World Tracker :=
  {| env :=
       {| nextId := 3;
          issues := [BeadsIssue.mk "bd-2" "write the parser" (Some "OpenCode todo ID: A")
                       "open" 1 "task" None];
          showsArray := true;
          clock := 2000 |};
     mappingFile :=
       Some (Stringified {| sessions := [("ses_1", "bd-1")];
                            todos := [("ses_1", [("A", "bd-2")])];
                            lastSync := 1500 |});
     gitignore := None |}.

End Demo.

(** ** Vocabulary for the statements *)

Section Vocabulary.
Context {E : Type} {platform : Platform E}.

(** The mapping a load yields in a given world. *)
Definition loaded (w : World E) : TodoBeadsMapping :=
  match result (loadMapping w) with
  | inr m => m
  | inl _ => emptyMapping
  end.

(** The mapping found in the file when the engine itself wrote it. *)
Definition persisted (w : World E) : option TodoBeadsMapping :=
  match mappingFile w with
  | Some (Stringified m) => Some m
  | _ => None
  end.

(** The mapping file is missing, is not JSON, or is as [saveMapping]
    wrote it: the stores whose load is the empty mapping or the module's
    own mapping. *)
Definition ownStore (w : World E) : Prop :=
  match mappingFile w with
  | Some (Foreign text) => JSON_parse_text text = None
  | _ => True
  end.

(** The lookup of the recorded session issue succeeds: an issue is
    recorded, [bd show] returns, and [result[0].id] is there. *)
Definition lookupFinds (sessionID : string) (mapping : TodoBeadsMapping) (w : World E)
  : bool :=
  match Js.present (Obj.get sessionID (sessions mapping)) with
  | Some recorded =>
      match (bd_show recorded (env w)).1 with
      | inr j => firstHasId j
      | inl _ => false
      end
  | None => false
  end.

(** The steps of a reconcile pass, to name the states between them. *)
Definition sessionStep (sessionID : string) (w : World E) :=
  getOrCreateSessionIssue sessionID (loaded w) w.

Definition todoStep (sessionID epic : string) (todos : list TodoItem.t)
    (mapping : TodoBeadsMapping) (w : World E) :=
  forOf (syncTodo sessionID epic) todos (ensureTodoMap sessionID mapping, ∅) w.

Definition removalStep (sessionID : string) (seen : gset string)
    (mapping : TodoBeadsMapping) (w : World E) :=
  forOf (dropRemoved sessionID seen) (Obj.entries (todoMapOf sessionID mapping)) mapping w.

Definition closingStep (epic : string) (todos : list TodoItem.t) (w : World E) :=
  (if forallb isTerminal todos && bool_decide (0 < length todos)%nat
   then closeSessionIssue epic todos
   else ret tt) w.

End Vocabulary.

(** The computation leaves both files as they are. *)
Definition keepsFiles {E A} (m : Async E A) : Prop :=
  forall w, mappingFile (world (m w)) = mappingFile w /\
            gitignore (world (m w)) = gitignore w.

(** The computation always returns. *)
Definition neverThrows {E A} (m : Async E A) : Prop :=
  forall w, exists a, result (m w) = inr a.

(** Every call the computation makes satisfies [P]. *)
Definition callsAll {E A} (P : Call -> Prop) (m : Async E A) : Prop :=
  forall w, Forall P (calls (m w)).

(** Whatever the computation throws satisfies [P]. *)
Definition throwsOnly {E A} (P : Js.Error -> Prop) (m : Async E A) : Prop :=
  forall w e, result (m w) = inl e -> P e.

(** The two errors the module raises itself. *)
Definition creationFailure (e : Js.Error) : Prop :=
  exists why, e = Js.newError ("Failed to create " +:+ why).

Definition isCreate (c : Call) : bool :=
  match c with Create _ _ => true | _ => false end.

Definition isClose (c : Call) : bool :=
  match c with Mutate (Close _ _) _ => true | _ => false end.

(** The shell promise of the call was rejected. *)
Definition threw (c : Call) : bool :=
  match c with
  | Show _ (inl _) | Create _ (inl _) | Mutate _ (inl _) => true
  | _ => false
  end.

(** The call did not throw and, where the engine reads [id] off the
    reply, a non-empty id is there. *)
Definition answered (c : Call) : bool :=
  match c with
  | Show _ (inr j) => firstHasId j
  | Create _ (inr issue) => Js.truthy (BeadsIssue.id issue)
  | Mutate _ (inr _) => true
  | _ => false
  end.

(** What the recovery loop makes of one recorded pair and the reply to
    the fetch of its issue. *)
Definition recovered (todoID : string) (reply : Js.Error + Json) : option TodoItem.t :=
  match reply with
  | inr (JObject issue) =>
      if Js.truthy (BeadsIssue.id issue) then Some (beadsIssueToTodo todoID issue) else None
  | _ => None
  end.

Definition ids (todos : list TodoItem.t) : list string := map TodoItem.id todos.

(** *** The ignore file *)

(** The string holds no line break. *)
Definition singleLine (s : string) : bool :=
  forallb (fun a => negb (Ascii.eqb a "010"%char)) (list_ascii_of_string s).

(** Some line of the ignore file is the file name, up to white space:
    the test [ensureGitignoreEntry] makes. *)
Definition listed (filename content : string) : bool :=
  existsb (fun line => Js.seq (Js.trim line) filename) (Js.lines content).

(** The ignore file with the entry added on a line of its own. *)
Definition appended (filename before : string) : string :=
  if Js.endsWith before newline
  then before +:+ filename +:+ newline
  else before +:+ newline +:+ filename +:+ newline.

(** *** The commands of a pass *)

(** The command [updateBeadsIssue] runs on an issue for a todo. *)
Definition updateCommand (beadsID : string) (todo : TodoItem.t) : Mutation :=
  if isTerminal todo then Close beadsID (closeReason (TodoItem.status todo))
  else UpdateStatus beadsID (STATUS_TO_BEADS (TodoItem.status todo)).

Definition isShow (c : Call) : bool :=
  match c with Show _ _ => true | _ => false end.

(** ** A project without a tracker

    Every [bd] command fails, as when [bd] is not installed. *)

Module Offline.

Definition down : Js.Error :=
  {| Js.name := "ShellError"; Js.message := "bd: command not found" |}.

#[global] Instance platform : Platform unit := {|
  bd_show := fun _ e => (inl down, e);
  bd_create := fun _ e => (inl down, e);
  bd_quiet := fun _ e => (inl down, e);
  Date_now := fun _ => 1000;
  Date_toISOString := fun _ => "2025-06-01T12:00:00.000Z";
  JSON_parse_text := fun _ => None;
|}.

Definition start : World unit :=
  {| env := tt; mappingFile := None; gitignore := None |}.

End Offline.

(** ** The plugin

    [src/plugin.ts]: the hooks OpenCode calls.  The client and the shell
    are a [Host]; the set of sessions already injected is the plugin's
    own state.  The vendored guidance text and the command and agent
    tables come from modules outside this file and are parameters. *)

Module Plugin.

Record Model := { providerID : string; modelID : string }.

(** A message part as the hooks read it: [type] and, when there, [text]. *)
Record Part := { part_type : string; part_text : option string }.

(** [msg.info]: the role, and on user messages the model and agent. *)
Record Info := {
  role : string;
  model : option Model;
  agent : option string;
  info_parts : option (list Part);
}.

Record Message := { info : Info; parts : option (list Part) }.

(** [{ model?, agent? }] *)
Record Context := { ctx_model : option Model; ctx_agent : option string }.

Record TextPartInput := { type : string; text : string; synthetic : bool }.

(** The body of [client.session.prompt]. *)
Record PromptBody := {
  noReply : bool;
  body_model : option Model;
  body_agent : option string;
  body_parts : list TextPartInput;
}.

(** [output.message] of the [chat.message] hook, as far as it is read. *)
Record UserMessage := {
  sessionID : string;
  message_model : option Model;
  message_agent : option string;
}.

(** An event: its [type] and [properties.sessionID]. *)
Record Event := { event_type : string; event_sessionID : string }.

(** A parsed JSON text. *)
#[warnings="-register-all"] Inductive Value :=
| VNull
| VBool (b : bool)
| VNumber (literal : string)
| VString (s : string)
| VArray (items : list Value)
| VObject (props : list (string * Value)).

(** The [output] object of the [tool.execute.after] hook. *)
Record ToolOutput := { title : string; output : string; metadata : Value }.

(** [config.command] and [config.agent]; the other fields are not touched. *)
Record Config (C A : Type) := {
  command : option (Obj.t C);
  agent_table : option (Obj.t A);
}.
Arguments command {C A} _.
Arguments agent_table {C A} _.

(** One call to the client or the shell, with what came back. *)
Inductive HostCall :=
| Messages (id : string) (limit : option Z) (reply : Js.Error + option (list Message))
| Prime (reply : Js.Error + string)
| Prompt (id : string) (body : PromptBody) (reply : Js.Error + unit).

(** The OpenCode client, the shell and [JSON.parse]; [H] is the state
    behind them.  [session_messages] returns [response.data]. *)
Class Host (H : Type) := {
  session_messages : string -> option Z -> H -> (Js.Error + option (list Message)) * H;
  session_prompt : string -> PromptBody -> H -> (Js.Error + unit) * H;
  bd_prime : H -> (Js.Error + string) * H;
  JSON_parse : string -> option Value;
  BEADS_GUIDANCE : string;
}.

(** The host and the closure variable [injectedSessions]. *)
Record State (H : Type) := {
  host : H;
  injectedSessions : gset string;
}.
Arguments host {H} _.
Arguments injectedSessions {H} _.

Definition Hook (H A : Type) : Type :=
  State H -> (Js.Error + A) * State H * list HostCall.

Section Monad.
Context {H : Type}.

Definition ret {A} (a : A) : Hook H A := fun st => (inr a, st, []).

Definition bind {A B} (m : Hook H A) (f : A -> Hook H B) : Hook H B := fun st =>
  match m st with
  | (inl e, st1, t1) => (inl e, st1, t1)
  | (inr a, st1, t1) =>
      match f a st1 with
      | (r, st2, t2) => (r, st2, t1 ++ t2)
      end
  end.

Definition tryCatch {A} (body : Hook H A) (handler : Js.Error -> Hook H A) : Hook H A :=
  fun st =>
    match body st with
    | (inr a, st1, t1) => (inr a, st1, t1)
    | (inl e, st1, t1) =>
        match handler e st1 with
        | (r, st2, t2) => (r, st2, t1 ++ t2)
        end
    end.

End Monad.

Declare Scope hook_scope.
Notation "'let*' x ':=' m 'in' k" := (bind m (fun x => k))
  (at level 10, x pattern, m at level 100, k at level 200) : hook_scope.
Local Open Scope hook_scope.

Definition result {H A} (o : (Js.Error + A) * State H * list HostCall) : Js.Error + A := o.1.1.
Definition state {H A} (o : (Js.Error + A) * State H * list HostCall) : State H := o.1.2.
Definition calls {H A} (o : (Js.Error + A) * State H * list HostCall) : list HostCall := o.2.

Section Hooks.
Context {H : Type} {client : Host H}.

Definition withHost (h : H) (st : State H) : State H :=
  {| host := h; injectedSessions := injectedSessions st |}.

(** [await client.session.messages({ path: { id }, query: { limit } })] *)
Definition client_session_messages (id : string) (limit : option Z)
  : Hook H (option (list Message)) := fun st =>
  let r := session_messages id limit (host st) in
  (r.1, withHost r.2 st, [Messages id limit r.1]).

(** [await client.session.prompt({ path: { id }, body })] *)
Definition client_session_prompt (id : string) (body : PromptBody) : Hook H unit := fun st =>
  let r := session_prompt id body (host st) in
  (r.1, withHost r.2 st, [Prompt id body r.1]).

(** [await $`bd prime`.text()] *)
Definition sh_prime : Hook H string := fun st =>
  let r := bd_prime (host st) in (r.1, withHost r.2 st, [Prime r.1]).

(** [injectedSessions.add(sessionID)] *)
Definition addInjected (id : string) : Hook H unit := fun st =>
  (inr tt, {| host := host st; injectedSessions := {[ id ]} ∪ injectedSessions st |}, []).

(** [injectedSessions.has(sessionID)] *)
Definition hasInjected (id : string) : Hook H bool := fun st =>
  (inr (bool_decide (id ∈ injectedSessions st)), st, []).

(** The loop of [getSessionContext]: the first message that is a user
    message with a model decides. *)
Fixpoint firstUserContext (data : list Message) : option Context :=
  match data with
  | [] => None
  | msg :: rest =>
      if Js.seq (role (info msg)) "user" && bool_decide (model (info msg) <> None)
      then Some {| ctx_model := model (info msg); ctx_agent := agent (info msg) |}
      else firstUserContext rest
  end.

(** Get the current model/agent context for a session by querying messages. *)
Definition getSessionContext (id : string) : Hook H (option Context) :=
  tryCatch
    (let* response := client_session_messages id (Some 50) in
     match response with
     | Some data => ret (firstUserContext data)
     | None => ret None
     end)
    (fun _ => ret None).

Definition newline : string := String "010"%char EmptyString.

(** The text [injectBeadsContext] sends for a given output of [bd prime]. *)
Definition beadsContext (primeOutput : string) : string :=
  "<beads-context>" +:+ newline +:+ Js.trim primeOutput +:+ newline
  +:+ "</beads-context>" +:+ newline +:+ newline +:+ BEADS_GUIDANCE.

(** Inject beads context into a session. *)
Definition injectBeadsContext (id : string) (context : option Context) : Hook H unit :=
  tryCatch
    (let* primeOutput := sh_prime in
     if negb (Js.truthy primeOutput) || Js.seq (Js.trim primeOutput) ""
     then ret tt
     else
       client_session_prompt id
         {| noReply := true;
            body_model := match context with Some c => ctx_model c | None => None end;
            body_agent := match context with Some c => ctx_agent c | None => None end;
            body_parts :=
              [{| type := "text"; text := beadsContext primeOutput; synthetic := true |}] |})
    (fun _ => ret tt).

(** [part.type === 'text' && part.text?.includes('<beads-context>')] *)
Definition isBeadsContextPart (part : Part) : bool :=
  Js.seq (part_type part) "text" &&
  match part_text part with
  | Some t => Js.includes t "<beads-context>"
  | None => false
  end.

(** The callback of [existing.data.some]: [msg.parts || msg.info.parts]. *)
Definition hasBeadsContextParts (msg : Message) : bool :=
  match (match parts msg with Some ps => Some ps | None => info_parts (info msg) end) with
  | Some ps => existsb isBeadsContextPart ps
  | None => false
  end.

(** The [chat.message] hook. *)
Definition chat_message (message : UserMessage) : Hook H unit :=
  let id := sessionID message in
  let* already := hasInjected id in
  if already then ret tt
  else
    let* hasBeadsContext :=
      tryCatch
        (let* existing := client_session_messages id None in
         match existing with
         | Some data => ret (existsb hasBeadsContextParts data)
         | None => ret false
         end)
        (fun _ => ret false) in
    if hasBeadsContext then addInjected id
    else
      let* _ := addInjected id in
      injectBeadsContext id
        (Some {| ctx_model := message_model message; ctx_agent := message_agent message |}).

(** The [event] hook. *)
Definition event (e : Event) : Hook H unit :=
  if Js.seq (event_type e) "session.compacted"
  then
    let* context := getSessionContext (event_sessionID e) in
    injectBeadsContext (event_sessionID e) context
  else ret tt.

(** [t.status], for an element of the parsed array: reading a property
    of [null] throws, of any other non-object yields [undefined]. *)
Definition statusOf (t : Value) : option (option Value) :=
  match t with
  | VNull => None
  | VObject props => Some (Obj.get "status" props)
  | _ => Some None
  end.

(** [status !== "completed"] *)
Definition notCompleted (status : option Value) : bool :=
  match status with
  | Some (VString s) => negb (Js.seq s "completed")
  | _ => true
  end.

(** [todos.filter(t => t.status !== "completed")]; [None] when the
    callback throws. *)
Fixpoint filterOpen (todos : list Value) : option (list Value) :=
  match todos with
  | [] => Some []
  | t :: rest =>
      match statusOf t with
      | None => None
      | Some status =>
          match filterOpen rest with
          | None => None
          | Some kept => Some (if notCompleted status then t :: kept else kept)
          end
      end
  end.

(** The [tool.execute.after] hook: what it makes of the [output] object. *)
Definition tool_execute_after (tool : string) (out : ToolOutput) : ToolOutput :=
  if Js.seq tool "todowrite" || Js.seq tool "todoread" then
    match JSON_parse (output out) with
    | Some (VArray todos) =>
        let out := {| title := title out; output := output out;
                      metadata := VObject [("todos", VArray todos)] |} in
        match filterOpen todos with
        | Some open =>
            {| title := Js.ofNat (length open) +:+ " todos"; output := output out;
               metadata := metadata out |}
        | None => out
        end
    | _ => out
    end
  else out.

End Hooks.

(** [Object.assign(target, source)], the copy an object spread makes. *)
Definition assign {V} (target source : Obj.t V) : Obj.t V :=
  fold_left (fun o kv => Obj.set kv.1 kv.2 o) (Obj.entries source) target.

(** [{ ...a, ...b }] where [a] may be [undefined]. *)
Definition spread {V} (a : option (Obj.t V)) (b : Obj.t V) : Obj.t V :=
  assign (assign Obj.empty (default Obj.empty a)) b.

(** The [config] hook, for the tables [loadCommands] and [loadAgent] gave. *)
Definition config {C A} (commands : Obj.t C) (agents : Obj.t A) (c : Config C A)
  : Config C A :=
  {| command := Some (spread (command c) commands);
     agent_table := Some (spread (agent_table c) agents) |}.

(** The element counts as completed in the title's filter. *)
Definition isCompleted (t : Value) : bool :=
  match t with
  | VObject props =>
      match Obj.get "status" props with
      | Some (VString s) => Js.seq s "completed"
      | _ => false
      end
  | _ => false
  end.

Definition isPrompt (c : HostCall) : bool :=
  match c with Prompt _ _ _ => true | _ => false end.

(** The state a fresh plugin instance starts in. *)
Definition BeadsPlugin {H} (h : H) : State H :=
  {| host := h; injectedSessions := ∅ |}.

End Plugin.

(** ** A small host to run the hooks on

    A chat that keeps the messages prompted so far and shows them for
    every session; [bd prime] prints a fixed text or fails; [JSON.parse]
    knows one todo list. *)

Module DemoHost.
Import Plugin.

Record Chat := {
  history : list Message;
  primeOutput : Js.Error + string;
}.

Definition messages (id : string) (limit : option Z) (c : Chat)
  : (Js.Error + option (list Message)) * Chat :=
  (inr (Some (history c)), c).

Definition asMessage (body : PromptBody) : Message :=
  {| info := {| role := "user"; model := body_model body; agent := body_agent body;
                info_parts := None |};
     parts := Some (map (fun p => {| part_type := type p; part_text := Some (text p) |})
                        (body_parts body)) |}.

Definition prompt (id : string) (body : PromptBody) (c : Chat) : (Js.Error + unit) * Chat :=
  (inr tt, {| history := history c ++ [asMessage body]; primeOutput := primeOutput c |}).

Definition prime (c : Chat) : (Js.Error + string) * Chat := (primeOutput c, c).

Definition quoted (s : string) : string :=
  String "034"%char EmptyString +:+ s +:+ String "034"%char EmptyString.

(** The output of a todo tool: one completed, one pending, one cancelled. *)
Definition todosText : string :=
  "[{" +:+ quoted "status" +:+ ":" +:+ quoted "completed" +:+ "},{"
  +:+ quoted "status" +:+ ":" +:+ quoted "pending" +:+ "},{"
  +:+ quoted "status" +:+ ":" +:+ quoted "cancelled" +:+ "}]".

Definition parse (s : string) : option Value :=
  if Js.seq s todosText
  then Some (VArray [VObject [("status", VString "completed")];
                     VObject [("status", VString "pending")];
                     VObject [("status", VString "cancelled")]])
  else if Js.seq s "null" then Some VNull
  else if Js.seq s "[null]" then Some (VArray [VNull])
  else None.

#[global] Instance host : Host Chat := {|
  session_messages := messages;
  session_prompt := prompt;
  bd_prime := prime;
  JSON_parse := parse;
  BEADS_GUIDANCE := "Use the bd command line tool for all task tracking.";
|}.

Definition sonnet : Model := {| providerID := "anthropic"; modelID := "sonnet" |}.

Definition hello : Message :=
  {| info := {| role := "user"; model := Some sonnet; agent := Some "build";
                info_parts := None |};
     parts := Some [{| part_type := "text"; part_text := Some "hello" |}] |}.

(** A session with one user message, in a project where [bd prime] works. *)
Definition start : Chat :=
  {| history := [hello]; primeOutput := inr "  3 open issues  " |}.

Definition firstMessage : UserMessage :=
  {| sessionID := "ses_1"; message_model := Some sonnet; message_agent := Some "build" |}.

End DemoHost.

(** ** The vendoring script

    [scripts/sync-beads.sh] is shell automation around [git] and [gh];
    two of its steps are text processing and are modelled here: cutting
    the version out of the first line [git ls-remote] prints, and the
    [sed] edit of [CHANGELOG.md].  The changelog is its list of lines;
    the version is a tag name, one line without a backslash, which the
    [sed] script takes literally.

    The script runs under [set -o pipefail], and its test for a
    [### Changed] heading is a pipeline into [grep -q], which exits at
    the first match.  When [sed] still has selected lines to write by
    then, it may be killed by SIGPIPE; the pipeline then fails although
    the heading is there, and the script takes its other branch.
    Whether that happens depends on how much [sed] has left to write, on
    buffer sizes and on scheduling, so it is a parameter of the run,
    [cut]. *)

Module Script.

(** [sed 's/.*\///']: drop everything up to the last slash. *)
Fixpoint afterLastSlash (line : string) : string :=
  match line with
  | EmptyString => EmptyString
  | String a rest =>
      if Js.includes rest "/" then afterLastSlash rest
      else if Ascii.eqb a "/"%char then rest
      else line
  end.

(** [/^## \[Unreleased\]$/] *)
Definition isUnreleased (line : string) : bool := Js.seq line "## [Unreleased]".

(** [/^## \[/] *)
Definition isRelease (line : string) : bool := String.prefix "## [" line.

(** [/^### Changed$/] *)
Definition isChanged (line : string) : bool := Js.seq line "### Changed".

(** The range address [/^## \[Unreleased\]$/,/^## \[/]: each line with
    whether the range selects it.  A range opens on a line matching the
    first address, and closes on the first later line matching the
    second, which it still selects. *)
Fixpoint selected (open : bool) (lines : list string) : list (string * bool) :=
  match lines with
  | [] => []
  | line :: rest =>
      if open then (line, true) :: selected (negb (isRelease line)) rest
      else if isUnreleased line then (line, true) :: selected true rest
      else (line, false) :: selected false rest
  end.

(** [sed -n '/^## \[Unreleased\]$/,/^## \[/p' | grep -q "^### Changed$"]
    as the condition of an [if] under [pipefail]: it holds when [grep]
    finds the heading and [sed] was not cut off.  Without a match
    [grep] reads to the end, and [sed] is never cut off. *)
Definition hasChangedSection (cut : bool) (lines : list string) : bool :=
  existsb (fun l => l.2 && isChanged l.1) (selected false lines) && negb cut.

Definition entry (version : string) : string :=
  "- Synced vendored beads files to " +:+ version.

(** [sed -i "/^## \[Unreleased\]$/,/^## \[/ { /^### Changed$/a\ <entry> }"] *)
Definition appendToChanged (version : string) (lines : list string) : list string :=
  flat_map (fun l => if l.2 && isChanged l.1 then [l.1; entry version] else [l.1])
           (selected false lines).

(** [sed -i "/^## \[Unreleased\]$/a\ <blank> ### Changed <blank> <entry>"] *)
Definition createChanged (version : string) (lines : list string) : list string :=
  flat_map (fun line => if isUnreleased line
                        then [line; ""; "### Changed"; ""; entry version]
                        else [line])
           lines.

(** Step 5 of the script: update the changelog. *)
Definition updateChangelog (cut : bool) (version : string) (lines : list string)
    : list string :=
  if hasChangedSection cut lines then appendToChanged version lines
  else createChanged version lines.

End Script.

(** ** Facts about strings and objects *)

Lemma seq_true (a b : string) : Js.seq a b = true <-> a = b.
Proof. apply String.eqb_eq. Qed.

Lemma seq_false (a b : string) : Js.seq a b = false <-> a <> b.
Proof. apply String.eqb_neq. Qed.

Lemma seq_refl (a : string) : Js.seq a a = true.
Proof. apply String.eqb_refl. Qed.

Lemma prefix_refl (s : string) : String.prefix s s = true.
Proof. induction s as [|a s IH]; simpl; [done|]. by destruct (ascii_dec a a). Qed.

Lemma prefix_app (s r : string) : String.prefix s (s +:+ r) = true.
Proof.
  induction s as [|a s IH]; simpl; [by destruct r|].
  by destruct (ascii_dec a a).
Qed.

Lemma includes_prefix (hay needle : string) :
  String.prefix needle hay = true -> Js.includes hay needle = true.
Proof. intros Hp. destruct hay; cbn [Js.includes]; by rewrite Hp. Qed.

Lemma includes_suffix (pre s : string) : Js.includes (pre +:+ s) s = true.
Proof.
  induction pre as [|a pre IH].
  - apply includes_prefix, prefix_refl.
  - change (String a pre +:+ s) with (String a (pre +:+ s)).
    cbn [Js.includes]. rewrite IH. apply orb_true_r.
Qed.

Lemma present_Some (v : option string) (s : string) :
  Js.present v = Some s <-> v = Some s /\ s <> "".
Proof.
  unfold Js.present, Js.truthy. destruct v as [x|]; [|split; [done|by intros [? ?]]].
  destruct (Js.seq x "") eqn:Hx; simpl.
  - apply seq_true in Hx. split; [done|]. intros [[= ->] ?]. done.
  - apply seq_false in Hx. split; [by intros [= ->]|]. by intros [[= ->] ?].
Qed.

Lemma present_None (v : option string) :
  Js.present v = None <-> v = None \/ v = Some "".
Proof.
  unfold Js.present, Js.truthy. destruct v as [x|]; [|split; [by left|done]].
  destruct (Js.seq x "") eqn:Hx; simpl.
  - apply seq_true in Hx. subst. split; [by right|done].
  - apply seq_false in Hx. split; [done|]. intros [?|[= ->]]; done.
Qed.

Section ObjFacts.
Context {V : Type}.
Implicit Types (o : Obj.t V) (k : string) (v : V).

Lemma get_replace_eq k v o : Obj.has k o = true -> Obj.get k (Obj.replace k v o) = Some v.
Proof.
  unfold Obj.has. induction o as [|[k' v'] o IH]; simpl; [done|].
  destruct (Js.seq k k') eqn:Hk; simpl.
  - by rewrite seq_refl.
  - rewrite Hk. apply IH.
Qed.

Lemma get_replace_ne k k' v o : k <> k' -> Obj.get k' (Obj.replace k v o) = Obj.get k' o.
Proof.
  intros Hne. induction o as [|[k1 v1] o IH]; simpl; [done|].
  destruct (Js.seq k k1) eqn:Hk; simpl.
  - apply seq_true in Hk; subst k1.
    assert (Js.seq k' k = false) as -> by (apply seq_false; congruence). done.
  - by rewrite IH.
Qed.

Lemma replace_same k v o : Obj.get k o = Some v -> Obj.replace k v o = o.
Proof.
  induction o as [|[k1 v1] o IH]; simpl; [done|].
  destruct (Js.seq k k1) eqn:Hk.
  - apply seq_true in Hk; subst k1. by intros [= ->].
  - intros Hg. by rewrite IH.
Qed.

Lemma get_insertIndex k k' n v o :
  Obj.has k o = false ->
  Obj.get k' (Obj.insertIndex n k v o) = if Js.seq k' k then Some v else Obj.get k' o.
Proof.
  unfold Obj.has. induction o as [|[k1 v1] o IH]; simpl; [done|].
  destruct (Js.seq k k1) eqn:Hk; [done|]. intros Ho.
  destruct (Obj.arrayIndex k1) as [n'|]; simpl; [|done].
  destruct (n <? n')%N; simpl; [done|].
  rewrite IH by done.
  destruct (Js.seq k' k1) eqn:H1, (Js.seq k' k) eqn:H2; try done.
  apply seq_true in H1, H2. subst. by rewrite seq_refl in Hk.
Qed.

Lemma get_app k o1 o2 :
  Obj.get k (o1 ++ o2) = match Obj.get k o1 with Some v => Some v | None => Obj.get k o2 end.
Proof.
  induction o1 as [|[k1 v1] o1 IH]; simpl; [done|]. by destruct (Js.seq k k1).
Qed.

Lemma get_set_eq k v o : Obj.get k (Obj.set k v o) = Some v.
Proof.
  unfold Obj.set. destruct (Obj.has k o) eqn:Hh.
  - by apply get_replace_eq.
  - destruct (Obj.arrayIndex k).
    + rewrite get_insertIndex by done. by rewrite seq_refl.
    + rewrite get_app. unfold Obj.has in Hh.
      destruct (Obj.get k o); [done|]. simpl. by rewrite seq_refl.
Qed.

Lemma get_set_ne k k' v o : k <> k' -> Obj.get k' (Obj.set k v o) = Obj.get k' o.
Proof.
  intros Hne. assert (Js.seq k' k = false) as Hs by (apply seq_false; congruence).
  unfold Obj.set. destruct (Obj.has k o) eqn:Hh.
  - by apply get_replace_ne.
  - destruct (Obj.arrayIndex k).
    + rewrite get_insertIndex by done. by rewrite Hs.
    + rewrite get_app. destruct (Obj.get k' o); [done|]. simpl. by rewrite Hs.
Qed.

Lemma set_same k v o : Obj.get k o = Some v -> Obj.set k v o = o.
Proof.
  intros Hg. unfold Obj.set, Obj.has. rewrite Hg. by apply replace_same.
Qed.

Lemma get_delete_eq k o : Obj.get k (Obj.delete k o) = None.
Proof.
  unfold Obj.delete. induction o as [|[k1 v1] o IH]; simpl; [done|].
  destruct (Js.seq k k1) eqn:Hk; simpl; [done|]. by rewrite Hk.
Qed.

Lemma get_delete_ne k k' o : k <> k' -> Obj.get k' (Obj.delete k o) = Obj.get k' o.
Proof.
  intros Hne. unfold Obj.delete. induction o as [|[k1 v1] o IH]; simpl; [done|].
  destruct (Js.seq k k1) eqn:Hk; simpl.
  - apply seq_true in Hk; subst k1.
    assert (Js.seq k' k = false) as -> by (apply seq_false; congruence). done.
  - by rewrite IH.
Qed.

Lemma entries_get k v o : In (k, v) (Obj.entries o) -> exists v', Obj.get k o = Some v'.
Proof.
  unfold Obj.entries. induction o as [|[k1 v1] o IH]; simpl; [done|].
  intros [[= -> ->]|Hin].
  - rewrite seq_refl. eauto.
  - destruct (Js.seq k k1); eauto.
Qed.

Lemma get_entries k v o : Obj.get k o = Some v -> In (k, v) (Obj.entries o).
Proof.
  unfold Obj.entries. induction o as [|[k1 v1] o IH]; simpl; [done|].
  destruct (Js.seq k k1) eqn:Hk.
  - apply seq_true in Hk; subst k1. intros [= ->]. by left.
  - intros Hg. right. by apply IH.
Qed.

Lemma get_keys k v o : Obj.get k o = Some v -> In k (map fst (Obj.entries o)).
Proof. intros Hg. apply get_entries in Hg. by apply (in_map fst) in Hg. Qed.

Lemma get_None_keys k o : Obj.get k o = None -> ~ In k (map fst (Obj.entries o)).
Proof.
  intros Hg Hin. apply in_map_iff in Hin as ([k' v] & Hk & Hin). simpl in Hk; subst k'.
  apply entries_get in Hin as [v' Hv']. congruence.
Qed.

Lemma all_None_empty o : (forall k, Obj.get k o = None) -> o = Obj.empty.
Proof.
  destruct o as [|[k v] o]; [done|]. intros Hall. specialize (Hall k).
  simpl in Hall. by rewrite seq_refl in Hall.
Qed.

Lemma In_replace_ne k k' v v' o :
  k <> k' -> In (k', v') o -> In (k', v') (Obj.replace k v o).
Proof.
  intros Hne. induction o as [|[k1 v1] o IH]; simpl; [done|].
  destruct (Js.seq k k1) eqn:Hk.
  - apply seq_true in Hk; subst k1. intros [[= <- <-]|Hin]; [done|by right].
  - intros [Heq|Hin]; [by left|right; by apply IH].
Qed.

Lemma In_insertIndex n k k' v v' o :
  In (k', v') o -> In (k', v') (Obj.insertIndex n k v o).
Proof.
  induction o as [|[k1 v1] o IH]; simpl; [done|].
  destruct (Obj.arrayIndex k1) as [n'|].
  - destruct (n <? n')%N; simpl.
    + intros Hin. by right.
    + intros [Heq|Hin]; [by left|right; by apply IH].
  - intros Hin. by right.
Qed.

Lemma In_set_ne k k' v v' o :
  k <> k' -> In (k', v') (Obj.entries o) -> In (k', v') (Obj.entries (Obj.set k v o)).
Proof.
  unfold Obj.entries, Obj.set. intros Hne Hin. destruct (Obj.has k o).
  - by apply In_replace_ne.
  - destruct (Obj.arrayIndex k).
    + by apply In_insertIndex.
    + apply in_or_app. by left.
Qed.

End ObjFacts.

(** ** The translators *)

(** C3. Status round trip: [pending] and [in_progress] come back
    unchanged from their tracker status, whatever the notes say; a
    [completed] or [cancelled] todo maps to [closed], the engine closes
    it with reason "Completed" resp. "Cancelled in OpenCode", and an
    issue that is closed with exactly that reason in its notes reads
    back as the original status. *)
Theorem status_round_trip :
  forall (todoID id title ty : string) (d n : option string) (p : Z),
    TodoItem.status
      (beadsIssueToTodo todoID
         (BeadsIssue.mk id title d (STATUS_TO_BEADS pending) p ty n)) = pending /\
    TodoItem.status
      (beadsIssueToTodo todoID
         (BeadsIssue.mk id title d (STATUS_TO_BEADS in_progress) p ty n)) = in_progress /\
    STATUS_TO_BEADS completed = "closed" /\
    STATUS_TO_BEADS cancelled = "closed" /\
    closeReason completed = "Completed" /\
    closeReason cancelled = "Cancelled in OpenCode" /\
    TodoItem.status
      (beadsIssueToTodo todoID
         (BeadsIssue.mk id title d (STATUS_TO_BEADS completed) p ty
            (Some (closeReason completed)))) = completed /\
    TodoItem.status
      (beadsIssueToTodo todoID
         (BeadsIssue.mk id title d (STATUS_TO_BEADS cancelled) p ty
            (Some (closeReason cancelled)))) = cancelled /\
    (forall notes,
       TodoItem.status
         (beadsIssueToTodo todoID (BeadsIssue.mk id title d "closed" p ty (Some notes)))
       = if Js.includes notes "Cancelled" then cancelled else completed).
Proof.
  intros. repeat split; reflexivity.
Qed.


Lemma read_own {V} (k : string) (o : Obj.t V) v : Obj.get k o = Some v -> Obj.read k o = Obj.Own v.
Proof. unfold Obj.read. by intros ->. Qed.








(** ** How computations compose *)

Section MonadFacts.
Context {E : Type}.
Local Abbreviation M := (Async E).

Lemma bind_run {A B} (m : M A) (f : A -> M B) w :
  bind m f w =
  match result (m w) with
  | inl e => (inl e, world (m w), calls (m w))
  | inr a => (result (f a (world (m w))), world (f a (world (m w))),
              calls (m w) ++ calls (f a (world (m w))))
  end.
Proof.
  unfold bind, result, world, calls. destruct (m w) as [[[e|a] w1] t1]; simpl; [done|].
  by destruct (f a w1) as [[r w2] t2].
Qed.

Lemma tryCatch_run {A} (m : M A) (h : Js.Error -> M A) w :
  tryCatch m h w =
  match result (m w) with
  | inr a => (inr a, world (m w), calls (m w))
  | inl e => (result (h e (world (m w))), world (h e (world (m w))),
              calls (m w) ++ calls (h e (world (m w))))
  end.
Proof.
  unfold tryCatch, result, world, calls. destruct (m w) as [[[e|a] w1] t1]; simpl; [|done].
  by destruct (h e w1) as [[r w2] t2].
Qed.

Lemma outcome_eta {A} (o : (Js.Error + A) * World E * list Call) :
  o = (result o, world o, calls o).
Proof. by destruct o as [[r w] t]. Qed.

Lemma keepsFiles_ret {A} (a : A) : keepsFiles (ret a : M A).
Proof. by intros w. Qed.

Lemma keepsFiles_throw {A} e : keepsFiles (throw e : M A).
Proof. by intros w. Qed.

Lemma keepsFiles_bind {A B} (m : M A) (f : A -> M B) :
  keepsFiles m -> (forall a, keepsFiles (f a)) -> keepsFiles (bind m f).
Proof.
  intros Hm Hf w. rewrite bind_run. destruct (Hm w) as [Hm1 Hm2].
  destruct (result (m w)) as [e|a]; simpl; [done|].
  destruct (Hf a (world (m w))) as [Hf1 Hf2].
  unfold world in *. simpl. split; congruence.
Qed.

Lemma keepsFiles_tryCatch {A} (m : M A) (h : Js.Error -> M A) :
  keepsFiles m -> (forall e, keepsFiles (h e)) -> keepsFiles (tryCatch m h).
Proof.
  intros Hm Hh w. rewrite tryCatch_run. destruct (Hm w) as [Hm1 Hm2].
  destruct (result (m w)) as [e|a]; simpl; [|done].
  destruct (Hh e (world (m w))) as [Hh1 Hh2].
  unfold world in *. simpl. split; congruence.
Qed.

Lemma keepsFiles_forOf {A S} (body : A -> S -> M S) xs :
  (forall x s, keepsFiles (body x s)) -> forall s, keepsFiles (forOf body xs s).
Proof.
  intros Hb. induction xs as [|x xs IH]; intros s; simpl.
  - apply keepsFiles_ret.
  - apply keepsFiles_bind; [apply Hb|apply IH].
Qed.

Lemma neverThrows_ret {A} (a : A) : neverThrows (ret a : M A).
Proof. intros w. by exists a. Qed.

Lemma neverThrows_bind {A B} (m : M A) (f : A -> M B) :
  neverThrows m -> (forall a, neverThrows (f a)) -> neverThrows (bind m f).
Proof.
  intros Hm Hf w. rewrite bind_run. destruct (Hm w) as [a Ha]. rewrite Ha.
  destruct (Hf a (world (m w))) as [b Hb]. by exists b.
Qed.

Lemma neverThrows_tryCatch {A} (m : M A) (h : Js.Error -> M A) :
  (forall e, neverThrows (h e)) -> neverThrows (tryCatch m h).
Proof.
  intros Hh w. rewrite tryCatch_run. destruct (result (m w)) as [e|a].
  - destruct (Hh e (world (m w))) as [b Hb]. by exists b.
  - by exists a.
Qed.

Lemma neverThrows_forOf {A S} (body : A -> S -> M S) xs :
  (forall x s, neverThrows (body x s)) -> forall s, neverThrows (forOf body xs s).
Proof.
  intros Hb. induction xs as [|x xs IH]; intros s; simpl.
  - apply neverThrows_ret.
  - apply neverThrows_bind; [apply Hb|apply IH].
Qed.

Lemma callsAll_ret {A} P (a : A) : callsAll P (ret a : M A).
Proof. intros w. constructor. Qed.

Lemma callsAll_throw {A} P e : callsAll P (throw e : M A).
Proof. intros w. constructor. Qed.

Lemma callsAll_bind {A B} P (m : M A) (f : A -> M B) :
  callsAll P m -> (forall a, callsAll P (f a)) -> callsAll P (bind m f).
Proof.
  intros Hm Hf w. rewrite bind_run. specialize (Hm w).
  destruct (result (m w)) as [e|a]; simpl; [done|].
  unfold calls at 1. simpl. apply Forall_app. split; [done|apply Hf].
Qed.

Lemma callsAll_tryCatch {A} P (m : M A) (h : Js.Error -> M A) :
  callsAll P m -> (forall e, callsAll P (h e)) -> callsAll P (tryCatch m h).
Proof.
  intros Hm Hh w. rewrite tryCatch_run. specialize (Hm w).
  destruct (result (m w)) as [e|a]; simpl; [|done].
  unfold calls at 1. simpl. apply Forall_app. split; [done|apply Hh].
Qed.

Lemma callsAll_forOf {A S} P (body : A -> S -> M S) xs :
  (forall x s, callsAll P (body x s)) -> forall s, callsAll P (forOf body xs s).
Proof.
  intros Hb. induction xs as [|x xs IH]; intros s; simpl.
  - apply callsAll_ret.
  - apply callsAll_bind; [apply Hb|apply IH].
Qed.

Lemma throwsOnly_never {A} P (m : M A) : neverThrows m -> throwsOnly P m.
Proof. intros Hm w e He. destruct (Hm w) as [a Ha]. congruence. Qed.

Lemma throwsOnly_throw {A} (P : Js.Error -> Prop) e : P e -> throwsOnly P (throw e : M A).
Proof. intros HP w e' [= <-]. done. Qed.

Lemma throwsOnly_bind {A B} P (m : M A) (f : A -> M B) :
  throwsOnly P m -> (forall a, throwsOnly P (f a)) -> throwsOnly P (bind m f).
Proof.
  intros Hm Hf w e. rewrite bind_run. destruct (result (m w)) as [e'|a] eqn:Hr; simpl.
  - intros [= <-]. by eapply Hm.
  - apply Hf.
Qed.

Lemma throwsOnly_tryCatch {A} P (m : M A) (h : Js.Error -> M A) :
  (forall e, throwsOnly P (h e)) -> throwsOnly P (tryCatch m h).
Proof.
  intros Hh w e. rewrite tryCatch_run. destruct (result (m w)) as [e'|a]; simpl; [|done].
  apply Hh.
Qed.

Lemma throwsOnly_forOf {A S} P (body : A -> S -> M S) xs :
  (forall x s, throwsOnly P (body x s)) -> forall s, throwsOnly P (forOf body xs s).
Proof.
  intros Hb. induction xs as [|x xs IH]; intros s; simpl.
  - apply throwsOnly_never, neverThrows_ret.
  - apply throwsOnly_bind; [apply Hb|apply IH].
Qed.

End MonadFacts.

(** ** The engine's building blocks *)

Section EngineFacts.
Context {E : Type} {platform : Platform E}.
Local Abbreviation M := (Async E).

Lemma keepsFiles_sh_show id : keepsFiles (sh_show id).
Proof. by intros w. Qed.

Lemma keepsFiles_sh_create args : keepsFiles (sh_create args).
Proof. by intros w. Qed.

Lemma keepsFiles_sh_quiet m : keepsFiles (sh_quiet m).
Proof. by intros w. Qed.

Lemma neverThrows_now : neverThrows now.
Proof. intros w. by eexists. Qed.

(** *** Loading and saving *)

Lemma loadMapping_run (w : World E) : loadMapping w = (inr (loaded w), w, []).
Proof.
  unfold loaded, loadMapping, tryCatch, bind, readMappingFile, JSON_parse, result.
  destruct (mappingFile w) as [[text|m]|]; simpl; try done.
  by destruct (JSON_parse_text text).
Qed.

Lemma loaded_missing (w : World E) : mappingFile w = None -> loaded w = emptyMapping.
Proof.
  intros Hf. unfold loaded, loadMapping, tryCatch, bind, readMappingFile, result.
  by rewrite Hf.
Qed.

Lemma loaded_unparseable (w : World E) text :
  mappingFile w = Some (Foreign text) -> JSON_parse_text text = None ->
  loaded w = emptyMapping.
Proof.
  intros Hf Hp. unfold loaded, loadMapping, tryCatch, bind, readMappingFile, JSON_parse, result.
  rewrite Hf. simpl. by rewrite Hp.
Qed.

Lemma loaded_persisted (w : World E) m : persisted w = Some m -> loaded w = m.
Proof.
  unfold persisted. destruct (mappingFile w) as [[text|m']|] eqn:Hf; try done.
  intros [= ->]. unfold loaded, loadMapping, tryCatch, bind, readMappingFile, result.
  by rewrite Hf.
Qed.

Lemma ensureGitignoreEntry_run filename (w : World E) :
  exists g, ensureGitignoreEntry filename w =
            (inr tt, {| env := env w; mappingFile := mappingFile w; gitignore := g |}, []).
Proof.
  unfold ensureGitignoreEntry, tryCatch, bind, readGitignore, writeGitignore, ret.
  destruct (gitignore w) as [content|] eqn:Hg; simpl.
  - destruct (existsb _ _); simpl.
    + exists (Some content). destruct w; simpl in *. by subst.
    + by eexists.
  - by eexists.
Qed.

Lemma saveMapping_run mapping (w : World E) :
  exists g,
    saveMapping mapping w =
    (inr (withLastSync (Date_now (env w)) mapping),
     {| env := env w;
        mappingFile := Some (Stringified (withLastSync (Date_now (env w)) mapping));
        gitignore := g |},
     []).
Proof.
  unfold saveMapping, bind, now, accessMappingFile, writeMappingFile, ret.
  destruct (mappingFile w) as [c|] eqn:Hf; simpl.
  - by eexists.
  - destruct (ensureGitignoreEntry_run "opencode-todo-mapping.json" w) as [g Hg].
    rewrite Hg. simpl. by eexists.
Qed.

Lemma saveMapping_calls mapping (w : World E) : calls (saveMapping mapping w) = [].
Proof. destruct (saveMapping_run mapping w) as [g ->]. done. Qed.

Lemma saveMapping_result mapping (w : World E) :
  result (saveMapping mapping w) = inr (withLastSync (Date_now (env w)) mapping).
Proof. destruct (saveMapping_run mapping w) as [g ->]. done. Qed.

Lemma saveMapping_persisted mapping (w : World E) :
  persisted (world (saveMapping mapping w)) = Some (withLastSync (Date_now (env w)) mapping).
Proof. destruct (saveMapping_run mapping w) as [g ->]. done. Qed.

Lemma saveMapping_env mapping (w : World E) : env (world (saveMapping mapping w)) = env w.
Proof. destruct (saveMapping_run mapping w) as [g ->]. done. Qed.

(** *** Per-issue operations *)

Lemma keepsFiles_updateBeadsIssue b todo : keepsFiles (updateBeadsIssue b todo).
Proof.
  unfold updateBeadsIssue. apply keepsFiles_tryCatch.
  - destruct (Js.seq _ _); apply keepsFiles_sh_quiet.
  - intros e. apply keepsFiles_ret.
Qed.

Lemma neverThrows_updateBeadsIssue b todo : neverThrows (updateBeadsIssue b todo).
Proof. apply neverThrows_tryCatch. intros e. apply neverThrows_ret. Qed.

Lemma callsAll_sh_quiet (P : Call -> Prop) m :
  (forall r, P (Mutate m r)) -> callsAll P (sh_quiet m : M unit).
Proof. intros HP w. unfold sh_quiet, calls. simpl. by repeat constructor. Qed.

Lemma noCreate_updateBeadsIssue b todo :
  callsAll (fun c => isCreate c = false) (updateBeadsIssue b todo).
Proof.
  unfold updateBeadsIssue. apply callsAll_tryCatch.
  - destruct (Js.seq _ _); by apply callsAll_sh_quiet.
  - intros e. apply callsAll_ret.
Qed.


Lemma neverThrows_closeSessionIssue epic todos : neverThrows (closeSessionIssue epic todos).
Proof. apply neverThrows_tryCatch. intros e. apply neverThrows_ret. Qed.

Lemma noCreate_closeSessionIssue epic todos :
  callsAll (fun c => isCreate c = false) (closeSessionIssue epic todos).
Proof.
  unfold closeSessionIssue. apply callsAll_tryCatch.
  - apply callsAll_bind; [by apply callsAll_sh_quiet|]. intros _. by apply callsAll_sh_quiet.
  - intros e. apply callsAll_ret.
Qed.

Lemma keepsFiles_createBeadsIssue epic todo : keepsFiles (createBeadsIssue epic todo).
Proof.
  unfold createBeadsIssue. apply keepsFiles_tryCatch.
  - apply keepsFiles_bind; [apply keepsFiles_sh_create|]. intros result.
    apply keepsFiles_bind; [|intros _; apply keepsFiles_ret].
    destruct (TodoItem.status todo); try apply keepsFiles_sh_quiet; apply keepsFiles_ret.
  - intros e. apply keepsFiles_throw.
Qed.

Lemma keepsFiles_lookupSessionIssue s m : keepsFiles (lookupSessionIssue s m).
Proof.
  unfold lookupSessionIssue. destruct (Js.present _); [|apply keepsFiles_ret].
  apply keepsFiles_tryCatch.
  - apply keepsFiles_bind; [apply keepsFiles_sh_show|]. intros j. apply keepsFiles_ret.
  - intros e. apply keepsFiles_ret.
Qed.

Lemma neverThrows_lookupSessionIssue s m : neverThrows (lookupSessionIssue s m).
Proof.
  unfold lookupSessionIssue. destruct (Js.present _); [|apply neverThrows_ret].
  apply neverThrows_tryCatch. intros e. apply neverThrows_ret.
Qed.

Lemma neverThrows_saveMapping mapping : neverThrows (saveMapping mapping).
Proof. intros w. rewrite saveMapping_result. by eexists. Qed.

Lemma neverThrows_dropRemoved s seen entry mapping :
  neverThrows (dropRemoved s seen entry mapping).
Proof.
  unfold dropRemoved. destruct entry as [todoID beadsID].
  destruct (bool_decide _); [apply neverThrows_ret|].
  apply neverThrows_bind; [|intros _; apply neverThrows_ret].
  apply neverThrows_tryCatch. intros e. apply neverThrows_ret.
Qed.

Lemma throws_createBeadsIssue epic todo :
  throwsOnly creationFailure (createBeadsIssue epic todo).
Proof.
  apply throwsOnly_tryCatch. intros e. apply throwsOnly_throw.
  by exists ("beads issue for todo " +:+ TodoItem.id todo +:+ ": " +:+ Js.toString e).
Qed.

Lemma throws_syncTodo s epic todo st : throwsOnly creationFailure (syncTodo s epic todo st).
Proof.
  unfold syncTodo. destruct st as [mapping seen]. destruct (Js.present _).
  - apply throwsOnly_never. apply neverThrows_bind; [apply neverThrows_updateBeadsIssue|].
    intros _. apply neverThrows_ret.
  - apply throwsOnly_bind; [apply throws_createBeadsIssue|].
    intros b. apply throwsOnly_never, neverThrows_ret.
Qed.

Lemma throws_getOrCreateSessionIssue s m :
  throwsOnly creationFailure (getOrCreateSessionIssue s m).
Proof.
  unfold getOrCreateSessionIssue.
  apply throwsOnly_bind; [apply throwsOnly_never, neverThrows_lookupSessionIssue|].
  intros [recorded|]; [apply throwsOnly_never, neverThrows_ret|].
  apply throwsOnly_bind; [apply throwsOnly_never; intros w; by eexists|].
  intros iso. apply throwsOnly_tryCatch. intros e. apply throwsOnly_throw.
  by exists ("session issue: " +:+ Js.toString e).
Qed.

Lemma throws_syncTodosToBeads s todos :
  throwsOnly creationFailure (syncTodosToBeads s todos).
Proof.
  unfold syncTodosToBeads.
  apply throwsOnly_bind.
  { apply throwsOnly_never. intros w. rewrite loadMapping_run. by eexists. }
  intros m0. apply throwsOnly_bind; [apply throws_getOrCreateSessionIssue|].
  intros [epic m1]. apply throwsOnly_bind.
  { apply throwsOnly_forOf. intros. apply throws_syncTodo. }
  intros [m2 seen]. apply throwsOnly_never.
  apply neverThrows_bind.
  { apply neverThrows_forOf. intros. apply neverThrows_dropRemoved. }
  intros m3. apply neverThrows_bind.
  { destruct (_ && _); [apply neverThrows_closeSessionIssue|apply neverThrows_ret]. }
  intros _. apply neverThrows_bind; [apply neverThrows_saveMapping|].
  intros _. apply neverThrows_ret.
Qed.

End EngineFacts.

(** ** Loading the mapping *)

Section Loading.
Context {E : Type} {platform : Platform E}.

(** C5. Loading the mapping never throws, whatever the file holds, and
    changes nothing; a missing file and a text that [JSON.parse] rejects
    both load as the empty mapping.  With such a store the recovery
    reader returns the empty list without a single tracker call; a
    reconcile pass starts from the empty mapping, and the only errors it
    can raise are the module's own creation failures. *)
Theorem loadMapping_never_throws :
  forall (w : World E),
    (exists m, loadMapping w = (inr m, w, [])) /\
    (mappingFile w = None -> loadMapping w = (inr emptyMapping, w, [])) /\
    (forall text, mappingFile w = Some (Foreign text) -> JSON_parse_text text = None ->
                  loadMapping w = (inr emptyMapping, w, [])) /\
    (forall sessionID,
       mappingFile w = None \/
       (exists text, mappingFile w = Some (Foreign text) /\ JSON_parse_text text = None) ->
       readTodosFromBeads sessionID w = (inr [], w, [])) /\
    (forall sessionID todos,
       mappingFile w = None \/
       (exists text, mappingFile w = Some (Foreign text) /\ JSON_parse_text text = None) ->
       loaded w = emptyMapping /\
       forall e, result (syncTodosToBeads sessionID todos w) = inl e -> creationFailure e).
Proof.
  intros w. split; [|split; [|split; [|split]]].
  - exists (loaded w). apply loadMapping_run.
  - intros Hf. rewrite loadMapping_run. by rewrite loaded_missing.
  - intros text Hf Hp. rewrite loadMapping_run. by erewrite loaded_unparseable.
  - intros s Hbad. unfold readTodosFromBeads. rewrite bind_run, loadMapping_run. simpl.
    assert (loaded w = emptyMapping) as ->.
    { destruct Hbad as [Hf|(text & Hf & Hp)];
        [by apply loaded_missing|by eapply loaded_unparseable]. }
    done.
  - intros s todos Hbad. split.
    + destruct Hbad as [Hf|(text & Hf & Hp)];
        [by apply loaded_missing|by eapply loaded_unparseable].
    + intros e. apply throws_syncTodosToBeads.
Qed.

End Loading.

Lemma loadMapping_never_throws_witness :
  loadMapping (Demo.start true) = (inr emptyMapping, Demo.start true, []) /\
  loadMapping {| env := env (Demo.start true); mappingFile := Some (Foreign "{ not json");
                 gitignore := None |}
  = (inr emptyMapping,
     {| env := env (Demo.start true); mappingFile := Some (Foreign "{ not json");
        gitignore := None |}, []) /\
  readTodosFromBeads "ses_1" (Demo.start true) = (inr [], Demo.start true, []).
Proof.
  split; [|split].
  - apply (loadMapping_never_throws (Demo.start true)). reflexivity.
  - apply (loadMapping_never_throws
             {| env := env (Demo.start true); mappingFile := Some (Foreign "{ not json");
                gitignore := None |}) with (text := "{ not json"); reflexivity.
  - apply (loadMapping_never_throws (Demo.start true)). left. reflexivity.
Defined.

(** ** The session issue *)

Ltac run_async :=
  unfold bind, tryCatch, ret, throw, sh_show, sh_create, sh_quiet, now, isoNow,
    result, world, calls; simpl.

Section SessionIssue.
Context {E : Type} {platform : Platform E}.

Lemma lookupSessionIssue_found s m (w : World E) :
  lookupFinds s m w = true ->
  exists recorded j,
    Js.present (Obj.get s (sessions m)) = Some recorded /\
    (bd_show recorded (env w)).1 = inr j /\
    lookupSessionIssue s m w =
    (inr (Some recorded), withEnv (bd_show recorded (env w)).2 w, [Show recorded (inr j)]).
Proof.
  unfold lookupFinds, lookupSessionIssue.
  destruct (Js.present _) as [recorded|]; [|done].
  run_async. destruct (bd_show recorded (env w)) as [[err|j] e1] eqn:Hs; simpl; [done|].
  intros Hj. exists recorded, j. rewrite Hs, Hj. done.
Qed.

Lemma lookupSessionIssue_lost s m (w : World E) :
  lookupFinds s m w = false ->
  exists w1 t1,
    lookupSessionIssue s m w = (inr None, w1, t1) /\
    mappingFile w1 = mappingFile w /\
    Forall (fun c => isCreate c = false /\ isClose c = false) t1 /\
    (Js.present (Obj.get s (sessions m)) <> None -> Exists (fun c => answered c = false) t1).
Proof.
  unfold lookupFinds, lookupSessionIssue.
  destruct (Js.present _) as [recorded|].
  - run_async. destruct (bd_show recorded (env w)) as [[err|j] e1]; simpl.
    + intros _. eexists _, _. split; [done|]. split; [done|].
      split; [by repeat constructor|]. intros _. by constructor.
    + intros Hj. rewrite Hj. eexists _, _. split; [done|]. split; [done|].
      split; [by repeat constructor|]. intros _. by constructor.
  - intros _. eexists _, _. split; [done|]. split; [done|]. split; [constructor|done].
Qed.

Lemma getOrCreateSessionIssue_found s m (w : World E) :
  lookupFinds s m w = true ->
  exists recorded reply,
    Js.present (Obj.get s (sessions m)) = Some recorded /\
    getOrCreateSessionIssue s m w =
    (inr (recorded, m), withEnv (bd_show recorded (env w)).2 w, [Show recorded reply]) /\
    answered (Show recorded reply) = true.
Proof.
  intros Hfound. destruct (lookupSessionIssue_found s m w Hfound)
    as (recorded & j & Hrec & Hshow & Hrun).
  exists recorded, (inr j). split; [done|].
  unfold getOrCreateSessionIssue. rewrite bind_run, Hrun. simpl. split; [done|].
  unfold lookupFinds in Hfound. by rewrite Hrec, Hshow in Hfound.
Qed.

Lemma getOrCreateSessionIssue_lost s m (w : World E) :
  lookupFinds s m w = false ->
  let o := getOrCreateSessionIssue s m w in
  exists before args reply,
    calls o = before ++ [Create args reply] /\
    Forall (fun c => isCreate c = false /\ isClose c = false) before /\
    c_type args = "epic" /\ c_priority args = 2 /\ c_parent args = None /\
    match reply with
    | inr issue =>
        exists saved,
          result o = inr (BeadsIssue.id issue, saved) /\
          sessions saved = Obj.set s (BeadsIssue.id issue) (sessions m) /\
          todos saved = Obj.set s Obj.empty (todos m) /\
          persisted (world o) = Some saved
    | inl err =>
        result o =
          inl (Js.newError ("Failed to create session issue: " +:+ Js.toString err)) /\
        mappingFile (world o) = mappingFile w
    end /\
    (Js.present (Obj.get s (sessions m)) <> None ->
     Exists (fun c => answered c = false) before).
Proof.
  intros Hlost o. subst o. destruct (lookupSessionIssue_lost s m w Hlost)
    as (w1 & t1 & Hrun & Hfile & Ht1 & Hunanswered).
  unfold getOrCreateSessionIssue. rewrite bind_run, Hrun. simpl.
  set (args := sessionArgs s (Js.before "T" (Date_toISOString (env w1)))).
  exists t1, args, (bd_create args (env w1)).1.
  run_async. fold args.
  destruct (bd_create args (env w1)) as [[err|issue] e2]; simpl.
  - done.
  - match goal with |- context [saveMapping ?m' ?w'] =>
      destruct (saveMapping_run m' w') as [g ->] end.
    simpl. repeat (split; [done|]). split; [|done]. eexists. done.
Qed.


End SessionIssue.


(** ** Reading todos back *)

Section Recovery.
Context {E : Type} {platform : Platform E}.

Lemma readEntry_run todoID beadsID acc (w : World E) :
  readEntry (todoID, beadsID) acc w =
  (inr (acc ++ from_option (fun t => [t]) [] (recovered todoID (bd_show beadsID (env w)).1)),
   withEnv (bd_show beadsID (env w)).2 w,
   [Show beadsID (bd_show beadsID (env w)).1]).
Proof.
  unfold readEntry, recovered. run_async.
  destruct (bd_show beadsID (env w)) as [[err|[issue|issues]] e1]; simpl.
  - by rewrite app_nil_r.
  - destruct (Js.truthy _); simpl; [done|by rewrite app_nil_r].
  - by rewrite app_nil_r.
Qed.

Lemma readLoop_run entries : forall acc (w : World E),
  exists replies,
    length replies = length entries /\
    calls (forOf readEntry entries acc w) =
      zip_with (fun entry reply => Show entry.2 reply) entries replies /\
    result (forOf readEntry entries acc w) =
      inr (acc ++ omap (fun er => recovered er.1.1 er.2) (zip entries replies)) /\
    mappingFile (world (forOf readEntry entries acc w)) = mappingFile w.
Proof.
  induction entries as [|[todoID beadsID] entries IH]; intros acc w.
  - exists []. simpl. by rewrite app_nil_r.
  - cbn [forOf]. rewrite bind_run, readEntry_run. cbn [result world calls fst snd].
    set (reply := (bd_show beadsID (env w)).1).
    set (w1 := withEnv _ w).
    destruct (IH (acc ++ from_option (fun t => [t]) [] (recovered todoID reply)) w1)
      as (replies & Hlen & Hcalls & Hres & Hfile).
    exists (reply :: replies). cbn [length zip_with zip omap fst snd].
    split; [by rewrite Hlen|]. split; [by rewrite Hcalls|]. split; [|done].
    rewrite Hres. f_equal. rewrite <- app_assoc. f_equal.
    change (zip_with pair entries replies) with (zip entries replies).
    cbn [omap list_omap fst snd]. by destruct (recovered todoID reply).
Qed.

(** The recovery reader, reply by reply.  It returns the empty sequence,
    without asking the tracker anything, when no session issue is
    recorded for the session.  Otherwise it fetches the issue of every
    recorded pair, in the order of [Object.entries], and its result is
    made of the pairs for which [recovered] yields a todo: a fetch that
    throws contributes nothing, and an issue object with an id
    contributes the todo whose id is the recorded todo id, whose content
    is the issue's title, whose priority is the inverse translation of
    the issue's priority and whose status is the inverse translation of
    its status and notes. *)
Theorem readTodosFromBeads_recovers :
  forall (sessionID : string) (w : World E),
    let o := readTodosFromBeads sessionID w in
    let entries := Obj.entries (todoMapOf sessionID (loaded w)) in
    (Obj.get sessionID (sessions (loaded w)) = None -> o = (inr [], w, [])) /\
    (forall epic,
       Js.present (Obj.get sessionID (sessions (loaded w))) = Some epic ->
       exists replies,
         length replies = length entries /\
         calls o = zip_with (fun entry reply => Show entry.2 reply) entries replies /\
         result o = inr (omap (fun er => recovered er.1.1 er.2) (zip entries replies))) /\
    (forall todoID err, recovered todoID (inl err) = None) /\
    (forall todoID issue,
       BeadsIssue.id issue <> "" ->
       recovered todoID (inr (JObject issue)) =
       Some (TodoItem.mk todoID (BeadsIssue.title issue)
               (TodoItem.status (beadsIssueToTodo todoID issue))
               (priorityFromBeads (BeadsIssue.priority issue)))).
Proof.
  intros s w o entries. subst o entries. split; [|split; [|split]].
  - intros Hnone. unfold readTodosFromBeads. rewrite bind_run, loadMapping_run.
    cbn [result world calls fst snd]. by rewrite Hnone.
  - intros epic Hepic. unfold readTodosFromBeads. rewrite bind_run, loadMapping_run.
    cbn [result world calls fst snd]. rewrite Hepic.
    destruct (readLoop_run (Obj.entries (todoMapOf s (loaded w))) [] w)
      as (replies & Hlen & Hcalls & Hres & _).
    exists replies. by rewrite Hcalls, Hres.
  - done.
  - intros todoID issue Hid. unfold recovered, Js.truthy.
    apply seq_false in Hid. by rewrite Hid.
Qed.

(** C10. When a session issue is recorded but its lookup does not find
    it, and the replacement is created, the session's todo map in the
    mapping is the empty object whatever it held before: no pair recorded
    for the session survives, on disk either; the call closes nothing;
    and a recovery read right after returns no todo. *)
Theorem lost_session_issue_discards_todos :
  forall (sessionID : string) (mapping : TodoBeadsMapping) (w : World E)
         (recorded epic : string) (saved : TodoBeadsMapping),
    Js.present (Obj.get sessionID (sessions mapping)) = Some recorded ->
    lookupFinds sessionID mapping w = false ->
    let o := getOrCreateSessionIssue sessionID mapping w in
    result o = inr (epic, saved) ->
    Obj.get sessionID (todos saved) = Some Obj.empty /\
    (forall todoID, Obj.get todoID (todoMapOf sessionID saved) = None) /\
    persisted (world o) = Some saved /\
    Forall (fun c => isClose c = false) (calls o) /\
    readTodosFromBeads sessionID (world o) = (inr [], world o, []).
Proof.
  intros s m w recorded epic saved Hrec Hlost o Hres. subst o.
  destruct (getOrCreateSessionIssue_lost s m w Hlost)
    as (before & args & reply & Hcalls & Hbefore & _ & _ & _ & Hreply & _).
  destruct reply as [err|issue].
  { destruct Hreply as [Herr _]. congruence. }
  destruct Hreply as (saved' & Hres' & Hsess & Htodos & Hpers).
  assert (saved' = saved) as -> by congruence.
  assert (Obj.get s (todos saved) = Some Obj.empty) as Hget
    by (rewrite Htodos; apply get_set_eq).
  split; [done|]. split; [by unfold todoMapOf; rewrite Hget|].
  split; [done|]. split.
  { rewrite Hcalls. apply Forall_app. split; [|by repeat constructor].
    eapply Forall_impl; [exact Hbefore|]. by intros c [_ Hc]. }
  unfold readTodosFromBeads. rewrite bind_run, loadMapping_run.
  cbn [result world calls fst snd]. rewrite (loaded_persisted _ _ Hpers).
  assert (todoMapOf s saved = Obj.empty) as -> by (unfold todoMapOf; by rewrite Hget).
  destruct (Js.present (Obj.get s (sessions saved))); reflexivity.
Qed.

End Recovery.

Lemma readTodosFromBeads_recovers_example :
  let w := world (syncTodosToBeads "ses_1" [Demo.todoA in_progress; Demo.todoB pending]
                    (Demo.start false)) in
  let entries := Obj.entries (todoMapOf "ses_1" (loaded w)) in
  entries = [("A", "bd-2"); ("B", "bd-3")] /\
  exists replies,
    length replies = length entries /\
    calls (readTodosFromBeads "ses_1" w) =
      zip_with (fun entry reply => Show entry.2 reply) entries replies /\
    result (readTodosFromBeads "ses_1" w) =
      inr (omap (fun er => recovered er.1.1 er.2) (zip entries replies)).
Proof.
  split; [vm_compute; reflexivity|].
  apply (proj1 (proj2 (readTodosFromBeads_recovers "ses_1"
    (world (syncTodosToBeads "ses_1" [Demo.todoA in_progress; Demo.todoB pending]
              (Demo.start false)))))) with (epic := "bd-1").
  vm_compute. reflexivity.
Defined.

Lemma lost_session_issue_discards_todos_witness :
  let w := world (syncTodosToBeads "ses_1" [Demo.todoA pending] (Demo.start false)) in
  readTodosFromBeads "ses_1" (world (getOrCreateSessionIssue "ses_1" (loaded w) w))
  = (inr [], world (getOrCreateSessionIssue "ses_1" (loaded w) w), []).
Proof.
  refine (let w := world (syncTodosToBeads "ses_1" [Demo.todoA pending] (Demo.start false)) in _).
  refine (proj2 (proj2 (proj2 (proj2
    (lost_session_issue_discards_todos "ses_1" (loaded w) w "bd-1" "bd-3"
       (withLastSync 1004
          {| sessions := [("ses_1", "bd-3")]; todos := [("ses_1", [])]; lastSync := 0 |})
       _ _ _))))); vm_compute; reflexivity.
Defined.

(** ** The reconcile pass, step by step *)

Section Pass.
Context {E : Type} {platform : Platform E}.

(** The pass is its five steps in a row; the first two may throw. *)
Lemma syncTodosToBeads_run s todos (w : World E) :
  syncTodosToBeads s todos w =
  let o1 := sessionStep s w in
  match result o1 with
  | inl e => (inl e, world o1, calls o1)
  | inr (epic, m1) =>
      let o2 := todoStep s epic todos m1 (world o1) in
      match result o2 with
      | inl e => (inl e, world o2, calls o1 ++ calls o2)
      | inr (m2, seen) =>
          let o3 := removalStep s seen m2 (world o2) in
          match result o3 with
          | inl e => (inl e, world o3, calls o1 ++ calls o2 ++ calls o3)
          | inr m3 =>
              let o4 := closingStep epic todos (world o3) in
              (inr tt, world (saveMapping m3 (world o4)),
               calls o1 ++ calls o2 ++ calls o3 ++ calls o4)
          end
      end
  end.
Proof.
  unfold syncTodosToBeads, sessionStep, todoStep, removalStep, closingStep, bind.
  rewrite loadMapping_run. cbv zeta.
  destruct (getOrCreateSessionIssue s (loaded w) w) as [[[e|[epic m1]] w1] t1];
    cbn [result world calls fst snd app]; [done|].
  destruct (forOf (syncTodo s epic) todos _ w1) as [[[e|[m2 seen]] w2] t2];
    cbn [result world calls fst snd app]; [done|].
  destruct (forOf (dropRemoved s seen) _ m2 w2) as [[[e|m3] w3] t3];
    cbn [result world calls fst snd app]; [done|].
  assert (exists u, result ((if forallb isTerminal todos && bool_decide (0 < length todos)%nat
                             then closeSessionIssue epic todos else ret tt) w3) = inr u)
    as [[] Ho4].
  { destruct (_ && _).
    - apply neverThrows_closeSessionIssue.
    - by eexists. }
  destruct ((if forallb isTerminal todos && bool_decide (0 < length todos)%nat
             then closeSessionIssue epic todos else ret tt) w3) as [[r4 w4] t4].
  cbn [result fst] in Ho4. subst r4. cbn [result world calls fst snd].
  destruct (saveMapping_run m3 w4) as [g ->]. cbn [ret].
  by rewrite !app_nil_r.
Qed.

(** *** The session's todo map inside the mapping *)

Lemma todoMapOf_withTodoMap s tm m : todoMapOf s (withTodoMap s tm m) = tm.
Proof. unfold todoMapOf, withTodoMap. simpl. by rewrite get_set_eq. Qed.

Lemma todos_withTodoMap s tm m : Obj.get s (todos (withTodoMap s tm m)) = Some tm.
Proof. unfold withTodoMap. simpl. apply get_set_eq. Qed.

Lemma todoMapOf_ensureTodoMap s m : todoMapOf s (ensureTodoMap s m) = todoMapOf s m.
Proof.
  unfold ensureTodoMap. destruct (Obj.get s (todos m)) eqn:Hg; [done|].
  rewrite todoMapOf_withTodoMap. unfold todoMapOf. by rewrite Hg.
Qed.

Lemma todos_ensureTodoMap s m : Obj.get s (todos (ensureTodoMap s m)) <> None.
Proof.
  unfold ensureTodoMap. destruct (Obj.get s (todos m)) eqn:Hg.
  - by rewrite Hg.
  - by rewrite todos_withTodoMap.
Qed.

Lemma sessions_ensureTodoMap s m : sessions (ensureTodoMap s m) = sessions m.
Proof. unfold ensureTodoMap. by destruct (Obj.get s (todos m)). Qed.

Lemma ensureTodoMap_id s m : Obj.get s (todos m) <> None -> ensureTodoMap s m = m.
Proof. unfold ensureTodoMap. by destruct (Obj.get s (todos m)). Qed.

(** *** One todo *)

Lemma createBeadsIssue_cases epic todo (w : World E) :
  let o := createBeadsIssue epic todo w in
  (exists issue rest,
     result o = inr (BeadsIssue.id issue) /\
     calls o = Create (todoArgs epic todo) (inr issue) :: rest /\
     Forall (fun c => isCreate c = false /\ answered c = true) rest) \/
  (exists err before c,
     result o = inl (Js.newError ("Failed to create beads issue for todo "
                                    +:+ TodoItem.id todo +:+ ": " +:+ Js.toString err)) /\
     calls o = before ++ [c] /\ threw c = true).
Proof.
  unfold createBeadsIssue. run_async.
  destruct (bd_create (todoArgs epic todo) (env w)) as [[err|issue] e1]; simpl.
  { right. by exists err, [], (Create (todoArgs epic todo) (inl err)). }
  destruct (TodoItem.status todo); simpl.
  - left. exists issue, []. by repeat split.
  - destruct (bd_quiet _ _) as [[err|[]] e2]; simpl.
    + right. exists err, [Create (todoArgs epic todo) (inr issue)]. eexists. by repeat split.
    + left. exists issue. eexists. repeat split. by repeat constructor.
  - destruct (bd_quiet _ _) as [[err|[]] e2]; simpl.
    + right. exists err, [Create (todoArgs epic todo) (inr issue)]. eexists. by repeat split.
    + left. exists issue. eexists. repeat split. by repeat constructor.
  - destruct (bd_quiet _ _) as [[err|[]] e2]; simpl.
    + right. exists err, [Create (todoArgs epic todo) (inr issue)]. eexists. by repeat split.
    + left. exists issue. eexists. repeat split. by repeat constructor.
Qed.

Lemma syncTodo_mapped s epic todo m seen b (w : World E) :
  Js.present (Obj.get (TodoItem.id todo) (todoMapOf s m)) = Some b ->
  syncTodo s epic todo (m, seen) w =
  (inr (m, {[ TodoItem.id todo ]} ∪ seen),
   world (updateBeadsIssue b todo w), calls (updateBeadsIssue b todo w)).
Proof.
  intros Hb. unfold syncTodo. rewrite Hb, bind_run.
  destruct (neverThrows_updateBeadsIssue b todo w) as [[] ->].
  cbn [ret result world calls fst snd]. by rewrite app_nil_r.
Qed.

Lemma syncTodo_unmapped s epic todo m seen (w : World E) :
  Js.present (Obj.get (TodoItem.id todo) (todoMapOf s m)) = None ->
  syncTodo s epic todo (m, seen) w =
  match result (createBeadsIssue epic todo w) with
  | inl e => (inl e, world (createBeadsIssue epic todo w), calls (createBeadsIssue epic todo w))
  | inr b =>
      (inr (withTodoMap s (Obj.set (TodoItem.id todo) b (todoMapOf s m)) m,
            {[ TodoItem.id todo ]} ∪ seen),
       world (createBeadsIssue epic todo w), calls (createBeadsIssue epic todo w))
  end.
Proof.
  intros Hb. unfold syncTodo. rewrite Hb, bind_run.
  destruct (result (createBeadsIssue epic todo w)); [done|].
  cbn [ret result world calls fst snd]. by rewrite app_nil_r.
Qed.

Lemma keepsFiles_syncTodo s epic todo st : keepsFiles (syncTodo s epic todo st).
Proof.
  unfold syncTodo. destruct st as [m seen]. destruct (Js.present _).
  - apply keepsFiles_bind; [apply keepsFiles_updateBeadsIssue|]. intros _. apply keepsFiles_ret.
  - apply keepsFiles_bind; [apply keepsFiles_createBeadsIssue|]. intros b. apply keepsFiles_ret.
Qed.

(** *** The loop over the todos *)

Lemma todoLoop_frame s epic items :
  forall m seen (w : World E) m2 seen2,
    result (forOf (syncTodo s epic) items (m, seen) w) = inr (m2, seen2) ->
    sessions m2 = sessions m /\
    seen2 = list_to_set (ids items) ∪ seen /\
    (Obj.get s (todos m) <> None -> Obj.get s (todos m2) <> None) /\
    (forall k b, Js.present (Obj.get k (todoMapOf s m)) = Some b ->
                 Obj.get k (todoMapOf s m2) = Some b) /\
    (forall k, ~ In k (ids items) -> Obj.get k (todoMapOf s m2) = Obj.get k (todoMapOf s m)) /\
    (forall k v, In (k, v) (Obj.entries (todoMapOf s m)) -> ~ In k (ids items) ->
                 In (k, v) (Obj.entries (todoMapOf s m2))).
Proof.
  induction items as [|todo rest IH]; intros m seen w m2 seen2.
  { simpl. intros [= <- <-]. repeat split; try done.
    - set_solver.
    - intros k b Hb. by apply present_Some in Hb as [Hb _]. }
  cbn [forOf]. rewrite bind_run.
  destruct (Js.present (Obj.get (TodoItem.id todo) (todoMapOf s m))) as [b0|] eqn:Hp.
  - rewrite (syncTodo_mapped _ _ _ _ _ _ _ Hp). cbn [result world calls fst snd].
    intros Hres. apply IH in Hres as (Hs & Hseen & Ht & Hkeep & Hout & Hin).
    split; [done|]. split; [rewrite Hseen; simpl; set_solver|]. split; [done|].
    split; [done|]. split.
    + intros k Hk. apply Hout. intros Hk'. apply Hk. by right.
    + intros k v Hkv Hk. apply Hin; [done|]. intros Hk'. apply Hk. by right.
  - rewrite (syncTodo_unmapped _ _ _ _ _ _ Hp).
    destruct (result (createBeadsIssue epic todo w)) as [e|b]; [done|].
    cbn [result world calls fst snd].
    intros Hres. apply IH in Hres as (Hs & Hseen & Ht & Hkeep & Hout & Hin).
    rewrite todoMapOf_withTodoMap in Hkeep, Hout, Hin.
    split; [done|]. split; [rewrite Hseen; simpl; set_solver|].
    split; [intros _; apply Ht; by rewrite todos_withTodoMap|].
    split; [|split].
    + intros k b' Hb'. apply Hkeep.
      destruct (decide (TodoItem.id todo = k)) as [Heq|Hne]; [subst k; congruence|].
      by rewrite get_set_ne.
    + intros k Hk. rewrite Hout by (intros Hk'; apply Hk; by right).
      apply get_set_ne. intros Heq. apply Hk. by left.
    + intros k v Hkv Hk. apply Hin; [|intros Hk'; apply Hk; by right].
      apply In_set_ne; [|done]. intros Heq. apply Hk. by left.
Qed.

Lemma todoLoop_answered s epic items :
  forall m seen (w : World E) m2 seen2,
    result (forOf (syncTodo s epic) items (m, seen) w) = inr (m2, seen2) ->
    Forall (fun c => answered c = true) (calls (forOf (syncTodo s epic) items (m, seen) w)) ->
    forall todo, In todo items ->
                 Js.present (Obj.get (TodoItem.id todo) (todoMapOf s m2)) <> None.
Proof.
  induction items as [|todo rest IH]; intros m seen w m2 seen2; [done|].
  cbn [forOf]. rewrite bind_run.
  destruct (Js.present (Obj.get (TodoItem.id todo) (todoMapOf s m))) as [b0|] eqn:Hp.
  - rewrite (syncTodo_mapped _ _ _ _ _ _ _ Hp). cbn [result world calls fst snd].
    intros Hres Hans. apply Forall_app in Hans as [_ Hans].
    intros todo' [<-|Hin]; [|by eapply IH].
    apply todoLoop_frame in Hres as (_ & _ & _ & Hkeep & _).
    rewrite (Hkeep _ _ Hp). apply present_Some in Hp as [_ Hb0].
    intros Hnone. apply present_None in Hnone as [?|[= ->]]; done.
  - rewrite (syncTodo_unmapped _ _ _ _ _ _ Hp).
    destruct (createBeadsIssue_cases epic todo w) as
      [(issue & more & Hr & Hc & _)|(err & before & c & Hr & _)];
      rewrite Hr; [|done].
    cbn [result world calls fst snd]. intros Hres Hans.
    apply Forall_app in Hans as [Hans1 Hans].
    intros todo' [<-|Hin]; [|by eapply IH].
    rewrite Hc in Hans1. inversion Hans1 as [|? ? Hissue _]; subst. simpl in Hissue.
    assert (Js.present (Some (BeadsIssue.id issue)) = Some (BeadsIssue.id issue)) as Hnew
      by (simpl; by rewrite Hissue).
    apply todoLoop_frame in Hres as (_ & _ & _ & Hkeep & _).
    rewrite todoMapOf_withTodoMap in Hkeep.
    rewrite (Hkeep (TodoItem.id todo) (BeadsIssue.id issue)) by (by rewrite get_set_eq).
    by rewrite Hnew.
Qed.

Lemma todoLoop_stable s epic items :
  forall m seen (w : World E),
    (forall todo, In todo items ->
                  Js.present (Obj.get (TodoItem.id todo) (todoMapOf s m)) <> None) ->
    result (forOf (syncTodo s epic) items (m, seen) w) =
      inr (m, list_to_set (ids items) ∪ seen) /\
    Forall (fun c => isCreate c = false) (calls (forOf (syncTodo s epic) items (m, seen) w)).
Proof.
  induction items as [|todo rest IH]; intros m seen w Hall.
  { simpl. split; [|constructor]. unfold ret, result. simpl. f_equal. f_equal. set_solver. }
  cbn [forOf]. rewrite bind_run.
  destruct (Js.present (Obj.get (TodoItem.id todo) (todoMapOf s m))) as [b0|] eqn:Hp;
    [|by destruct (Hall todo (or_introl eq_refl))].
  rewrite (syncTodo_mapped _ _ _ _ _ _ _ Hp). cbn [result world calls fst snd].
  destruct (IH m ({[TodoItem.id todo]} ∪ seen) (world (updateBeadsIssue b0 todo w)))
    as [Hres Hcalls]; [intros todo' Hin; apply Hall; by right|].
  split.
  - rewrite Hres. f_equal. f_equal. simpl. set_solver.
  - apply Forall_app. split; [apply noCreate_updateBeadsIssue|done].
Qed.

Lemma todoLoop_throws s epic items :
  forall m seen (w : World E) e,
    result (forOf (syncTodo s epic) items (m, seen) w) = inl e ->
    exists todo err before c,
      In todo items /\
      e = Js.newError ("Failed to create beads issue for todo "
                         +:+ TodoItem.id todo +:+ ": " +:+ Js.toString err) /\
      calls (forOf (syncTodo s epic) items (m, seen) w) = before ++ [c] /\
      threw c = true.
Proof.
  induction items as [|todo rest IH]; intros m seen w e; [done|].
  cbn [forOf]. rewrite bind_run.
  destruct (Js.present (Obj.get (TodoItem.id todo) (todoMapOf s m))) as [b0|] eqn:Hp.
  - rewrite (syncTodo_mapped _ _ _ _ _ _ _ Hp). cbn [result world calls fst snd].
    intros Hres. apply IH in Hres as (todo' & err & before & c & Hin & He & Hc & Hthrew).
    exists todo', err, (calls (updateBeadsIssue b0 todo w) ++ before), c.
    split; [by right|]. split; [done|]. split; [|done]. by rewrite Hc, app_assoc.
  - rewrite (syncTodo_unmapped _ _ _ _ _ _ Hp).
    destruct (createBeadsIssue_cases epic todo w) as
      [(issue & more & Hr & Hc & _)|(err & before & c & Hr & Hc & Hthrew)]; rewrite Hr.
    + cbn [result world calls fst snd].
      intros Hres. apply IH in Hres as (todo' & err & before & c & Hin & He & Hc' & Hthrew).
      exists todo', err, (calls (createBeadsIssue epic todo w) ++ before), c.
      split; [by right|]. split; [done|]. split; [|done]. by rewrite Hc', app_assoc.
    + cbn [result world calls fst snd]. intros [= <-].
      exists todo, err, before, c. split; [by left|]. done.
Qed.

(** *** The loop over the recorded pairs *)

Lemma dropRemoved_seen s (seen : gset string) t b m (w : World E) :
  t ∈ seen -> dropRemoved s seen (t, b) m w = (inr m, w, []).
Proof. intros Ht. unfold dropRemoved. by rewrite bool_decide_eq_true_2. Qed.

Lemma dropRemoved_unseen s (seen : gset string) t b m (w : World E) :
  t ∉ seen ->
  dropRemoved s seen (t, b) m w =
  (inr (withTodoMap s (Obj.delete t (todoMapOf s m)) m),
   withEnv (bd_quiet (Close b REMOVED_REASON) (env w)).2 w,
   [Mutate (Close b REMOVED_REASON) (bd_quiet (Close b REMOVED_REASON) (env w)).1]).
Proof.
  intros Ht. unfold dropRemoved. rewrite bool_decide_eq_false_2 by done. run_async.
  by destruct (bd_quiet (Close b REMOVED_REASON) (env w)) as [[err|[]] e1].
Qed.

Lemma removalLoop s (seen : gset string) entries :
  forall m (w : World E),
    exists m3,
      result (forOf (dropRemoved s seen) entries m w) = inr m3 /\
      sessions m3 = sessions m /\
      (Obj.get s (todos m) <> None -> Obj.get s (todos m3) <> None) /\
      (forall k, k ∈ seen -> Obj.get k (todoMapOf s m3) = Obj.get k (todoMapOf s m)) /\
      (forall k, k ∉ seen -> In k (map fst entries) -> Obj.get k (todoMapOf s m3) = None) /\
      (forall k, k ∉ seen -> ~ In k (map fst entries) ->
                 Obj.get k (todoMapOf s m3) = Obj.get k (todoMapOf s m)) /\
      (forall t b, In (t, b) entries -> t ∉ seen ->
                   exists r, In (Mutate (Close b REMOVED_REASON) r)
                               (calls (forOf (dropRemoved s seen) entries m w))) /\
      Forall (fun c => isCreate c = false)
             (calls (forOf (dropRemoved s seen) entries m w)) /\
      mappingFile (world (forOf (dropRemoved s seen) entries m w)) = mappingFile w.
Proof.
  induction entries as [|[t b] entries IH]; intros m w.
  { exists m. simpl. repeat split; done. }
  cbn [forOf]. rewrite bind_run. destruct (decide (t ∈ seen)) as [Hseen|Hunseen].
  - rewrite dropRemoved_seen by done. cbn [result world calls fst snd app].
    destruct (IH m w) as (m3 & Hres & Hs & Ht & Hin & Hgone & Hout & Hclose & Hcalls & Hfile).
    exists m3. rewrite Hres. repeat split; try done.
    + intros k Hk [Heq|Hkin]; [simpl in Heq; by subst k|by apply Hgone].
    + intros k Hk Hkin. apply Hout; [done|]. intros Hkin'. apply Hkin. by right.
    + intros t' b' [[= <- <-]|Hin'] Ht'; [done|by eapply Hclose].
  - rewrite dropRemoved_unseen by done. cbn [result world calls fst snd].
    set (m1 := withTodoMap s (Obj.delete t (todoMapOf s m)) m).
    set (w1 := withEnv _ w).
    destruct (IH m1 w1) as (m3 & Hres & Hs & Ht & Hin & Hgone & Hout & Hclose & Hcalls & Hfile).
    subst m1. rewrite todoMapOf_withTodoMap in Hin, Hout.
    exists m3. rewrite Hres. repeat split; try done.
    + intros _. apply Ht. by rewrite todos_withTodoMap.
    + intros k Hk. rewrite Hin by done. apply get_delete_ne. by intros ->.
    + intros k Hk Hkin. destruct (in_dec String.string_dec k (map fst entries)) as [Hrest|Hrest];
        [by apply Hgone|].
      destruct Hkin as [Heq|Hkin]; [|done]. simpl in Heq. subst k.
      rewrite Hout by done. apply get_delete_eq.
    + intros k Hk Hkin. rewrite Hout; [|done|intros Hkin'; apply Hkin; by right].
      apply get_delete_ne. intros ->. apply Hkin. by left.
    + intros t' b' [[= <- <-]|Hin'] Ht'.
      * eexists. by left.
      * destruct (Hclose t' b' Hin' Ht') as [r Hr]. exists r. by right.
    + constructor; done.
Qed.

Lemma removalLoop_stable s (seen : gset string) entries :
  forall m (w : World E),
    (forall t b, In (t, b) entries -> t ∈ seen) ->
    forOf (dropRemoved s seen) entries m w = (inr m, w, []).
Proof.
  induction entries as [|[t b] entries IH]; intros m w Hall; [done|].
  cbn [forOf]. rewrite bind_run, dropRemoved_seen by (eapply Hall; by left).
  cbn [result world calls fst snd app]. rewrite IH; [done|].
  intros t' b' Hin. eapply Hall. by right.
Qed.

End Pass.

(** ** A creation that fails *)

Section Abort.
Context {E : Type} {platform : Platform E}.

Lemma removalStep_returns s seen m (w : World E) :
  exists m3, result (removalStep s seen m w) = inr m3.
Proof.
  unfold removalStep. destruct (removalLoop s seen (Obj.entries (todoMapOf s m)) m w)
    as (m3 & Hres & _). by exists m3.
Qed.

Lemma syncTodosToBeads_throws s items (w : World E) epic m1 e :
  result (sessionStep s w) = inr (epic, m1) ->
  result (syncTodosToBeads s items w) = inl e ->
  exists before c,
    calls (syncTodosToBeads s items w) = before ++ [c] /\ threw c = true.
Proof.
  intros Hsession Hthrown.
  rewrite syncTodosToBeads_run in Hthrown |- *. cbv zeta in Hthrown |- *.
  rewrite Hsession in Hthrown |- *.
  destruct (result (todoStep s epic items m1 (world (sessionStep s w))))
    as [e'|[m2 seen]] eqn:Htodo.
  2:{ destruct (removalStep_returns s seen m2
                  (world (todoStep s epic items m1 (world (sessionStep s w))))) as [m3 Hm3].
      rewrite Hm3 in Hthrown. done. }
  unfold todoStep in Htodo.
  apply todoLoop_throws in Htodo as (todo & err & before & c & _ & _ & Hc & Hthrew).
  exists (calls (sessionStep s w) ++ before), c.
  split; [|done]. cbn [calls snd]. unfold todoStep. by rewrite Hc, app_assoc.
Qed.

(** C1, as the code has it.  When the session issue is in place and the
    pass throws, a todo's issue creation failed: the error names that
    todo, the failed call is the last one the pass makes, and nothing is
    written after the session step.  The file is the one the session step
    left: untouched when the recorded session issue was found, and
    otherwise the mapping saved right after the session issue was
    created, whose todo map for the session is empty.  Pairs recorded
    earlier in the pass are not on disk and [lastSync] is not refreshed. *)
Theorem failed_creation_aborts_unsaved :
  forall (sessionID : string) (items : list TodoItem.t) (w : World E)
         (epic : string) (m1 : TodoBeadsMapping) (e : Js.Error),
    let o := syncTodosToBeads sessionID items w in
    result (sessionStep sessionID w) = inr (epic, m1) ->
    result o = inl e ->
    (exists todo err,
       In todo items /\
       e = Js.newError ("Failed to create beads issue for todo "
                          +:+ TodoItem.id todo +:+ ": " +:+ Js.toString err)) /\
    (exists before c, calls o = before ++ [c] /\ threw c = true) /\
    mappingFile (world o) = mappingFile (world (sessionStep sessionID w)) /\
    (lookupFinds sessionID (loaded w) w = true -> mappingFile (world o) = mappingFile w) /\
    (lookupFinds sessionID (loaded w) w = false ->
     persisted (world o) = Some m1 /\ todoMapOf sessionID m1 = Obj.empty).
Proof.
  intros s items w epic m1 e o Hsession Hthrown. subst o.
  rewrite syncTodosToBeads_run in Hthrown |- *. cbv zeta in Hthrown |- *.
  rewrite Hsession in Hthrown |- *.
  destruct (result (todoStep s epic items m1 (world (sessionStep s w))))
    as [e'|[m2 seen]] eqn:Htodo.
  2:{ destruct (removalStep_returns s seen m2
                  (world (todoStep s epic items m1 (world (sessionStep s w))))) as [m3 Hm3].
      rewrite Hm3 in Hthrown. done. }
  cbn [result world calls fst snd] in Hthrown |- *. injection Hthrown as ->.
  pose proof Htodo as Hwhy. unfold todoStep in Hwhy.
  apply todoLoop_throws in Hwhy as (todo & err & before & c & Hin & He & Hc & Hthrew).
  assert (mappingFile (world (todoStep s epic items m1 (world (sessionStep s w))))
          = mappingFile (world (sessionStep s w))) as Hfile.
  { unfold todoStep. apply keepsFiles_forOf. intros. apply keepsFiles_syncTodo. }
  split; [by exists todo, err|]. split.
  { exists (calls (sessionStep s w) ++ before), c.
    split; [|done]. unfold todoStep. by rewrite Hc, app_assoc. }
  split; [done|]. split.
  - intros Hfound. rewrite Hfile.
    destruct (getOrCreateSessionIssue_found s (loaded w) w Hfound)
      as (recorded & reply & _ & Hrun & _).
    unfold sessionStep. by rewrite Hrun.
  - intros Hlost. unfold persisted. rewrite Hfile.
    destruct (getOrCreateSessionIssue_lost s (loaded w) w Hlost)
      as (before' & args & reply & _ & _ & _ & _ & _ & Hreply & _).
    fold (sessionStep s w) in Hreply. destruct reply as [err'|issue].
    { destruct Hreply as [Herr _]. congruence. }
    destruct Hreply as (saved & Hres & _ & Htodos & Hpers).
    assert (saved = m1) as -> by congruence.
    split; [done|]. unfold todoMapOf. by rewrite Htodos, get_set_eq.
Qed.

End Abort.

Lemma failed_creation_aborts_unsaved_witness :
  let o := syncTodosToBeads "ses_1" [Demo.todoA pending; Demo.untitled] (Demo.start true) in
  mappingFile (world o) = mappingFile (world (sessionStep "ses_1" (Demo.start true))) /\
  Obj.get "A" (todoMapOf "ses_1" (loaded (world o))) = None.
Proof.
  split; [|vm_compute; reflexivity].
  refine (proj1 (proj2 (proj2
    (failed_creation_aborts_unsaved "ses_1" [Demo.todoA pending; Demo.untitled]
       (Demo.start true) "bd-1"
       (withLastSync 1001
          {| sessions := [("ses_1", "bd-1")]; todos := [("ses_1", [])]; lastSync := 0 |})
       (Js.newError
          "Failed to create beads issue for todo B: ShellError: title required")
       _ _)))); vm_compute; reflexivity.
Defined.

(** C1 as stated does not hold: the first todo's issue is created and
    recorded in memory, the second creation fails, and what is on disk
    afterwards knows nothing of the first pair; its [lastSync] is the
    time of the session step, not of the failure. *)
Lemma failed_creation_progress_not_persisted :
  let o := syncTodosToBeads "ses_1" [Demo.todoA pending; Demo.untitled] (Demo.start true) in
  (exists e, result o = inl e) /\
  (exists issue,
     In (Create (todoArgs "bd-1" (Demo.todoA pending)) (inr issue)) (calls o) /\
     BeadsIssue.id issue = "bd-2") /\
  Date_now (env (world o)) = 1003 /\
  persisted (world o) =
    Some {| sessions := [("ses_1", "bd-1")]; todos := [("ses_1", [])]; lastSync := 1001 |} /\
  ~ (exists m, persisted (world o) = Some m /\
               Obj.get "A" (todoMapOf "ses_1" m) <> None).
Proof.
  split; [eexists; vm_compute; reflexivity|].
  split; [eexists; split; [vm_compute; right; left; reflexivity|reflexivity]|].
  split; [vm_compute; reflexivity|].
  split; [vm_compute; reflexivity|].
  intros (m & Hm & Hget). vm_compute in Hm. injection Hm as <-. by apply Hget.
Qed.

(** ** Closing the session issue *)

Section Closing.
Context {E : Type} {platform : Platform E}.

Lemma closeSessionIssue_run epic items (w : World E) :
  let summary := sessionSummary items in
  let r1 := bd_quiet (UpdateNotes epic summary) (env w) in
  let r2 := bd_quiet (Close epic summary) r1.2 in
  closeSessionIssue epic items w =
  match r1.1 with
  | inl _ => (inr tt, withEnv r1.2 w, [Mutate (UpdateNotes epic summary) r1.1])
  | inr _ => (inr tt, withEnv r2.2 w,
              [Mutate (UpdateNotes epic summary) r1.1; Mutate (Close epic summary) r2.1])
  end.
Proof.
  unfold closeSessionIssue. run_async.
  destruct (bd_quiet (UpdateNotes epic _) (env w)) as [[err|[]] e1]; simpl; [done|].
  by destruct (bd_quiet (Close epic _) e1) as [[err|[]] e2].
Qed.

Lemma sessionSummary_counts items :
  Js.includes (sessionSummary items)
    (Js.ofNat (countStatus completed items) +:+ " completed, "
     +:+ Js.ofNat (countStatus cancelled items) +:+ " cancelled") = true.
Proof.
  unfold sessionSummary. apply includes_suffix.
Qed.

Lemma createBeadsIssue_terminal epic todo (w : World E) b :
  isTerminal todo = true ->
  result (createBeadsIssue epic todo w) = inr b ->
  exists issue,
    b = BeadsIssue.id issue /\
    calls (createBeadsIssue epic todo w) =
    [Create (todoArgs epic todo) (inr issue);
     Mutate (Close (BeadsIssue.id issue) (closeReason (TodoItem.status todo))) (inr tt)].
Proof.
  unfold isTerminal, createBeadsIssue. run_async.
  destruct (bd_create (todoArgs epic todo) (env w)) as [[err|issue] e1]; simpl; [done|].
  destruct (TodoItem.status todo); simpl; try done.
  - intros _. destruct (bd_quiet _ _) as [[err|[]] e2]; simpl; [done|].
    intros [= <-]. by exists issue.
  - intros _. destruct (bd_quiet _ _) as [[err|[]] e2]; simpl; [done|].
    intros [= <-]. by exists issue.
Qed.

Lemma sessionStep_unrecorded s (w : World E) epic m1 :
  Obj.get s (sessions (loaded w)) = None ->
  result (sessionStep s w) = inr (epic, m1) ->
  exists issue,
    epic = BeadsIssue.id issue /\
    calls (sessionStep s w) =
      [Create (sessionArgs s (Js.before "T" (Date_toISOString (env w)))) (inr issue)] /\
    Obj.get s (todos m1) = Some Obj.empty.
Proof.
  intros Hnone. unfold sessionStep, getOrCreateSessionIssue, lookupSessionIssue.
  rewrite Hnone. run_async.
  destruct (bd_create _ (env w)) as [[err|issue] e1]; simpl; [done|].
  match goal with |- context [saveMapping ?m' ?w'] =>
    destruct (saveMapping_run m' w') as [g ->] end.
  simpl. intros [= <- <-]. exists issue. repeat split. simpl. apply get_set_eq.
Qed.

Lemma todoLoop_pair s epic a b m1 (w1 : World E) m2 seen :
  isTerminal a = true -> isTerminal b = true -> TodoItem.id a <> TodoItem.id b ->
  todoMapOf s m1 = Obj.empty ->
  result (forOf (syncTodo s epic) [a; b] (m1, ∅) w1) = inr (m2, seen) ->
  exists ia ib,
    calls (forOf (syncTodo s epic) [a; b] (m1, ∅) w1) =
    [Create (todoArgs epic a) (inr ia);
     Mutate (Close (BeadsIssue.id ia) (closeReason (TodoItem.status a))) (inr tt);
     Create (todoArgs epic b) (inr ib);
     Mutate (Close (BeadsIssue.id ib) (closeReason (TodoItem.status b))) (inr tt)].
Proof.
  intros Hta Htb Hab Htm1. cbn [forOf]. rewrite !bind_run.
  rewrite syncTodo_unmapped by (by rewrite Htm1).
  destruct (result (createBeadsIssue epic a w1)) as [e|ba] eqn:Hca; [done|].
  apply createBeadsIssue_terminal in Hca as (ia & -> & Hcalls_a); [|done].
  cbn [result world calls fst snd]. rewrite Hcalls_a.
  set (wa := world (createBeadsIssue epic a w1)).
  rewrite bind_run, syncTodo_unmapped.
  2:{ rewrite todoMapOf_withTodoMap, Htm1, get_set_ne by done. done. }
  destruct (result (createBeadsIssue epic b wa)) as [e|bb] eqn:Hcb; [done|].
  apply createBeadsIssue_terminal in Hcb as (ib & -> & Hcalls_b); [|done].
  cbn [result world calls fst snd ret]. rewrite Hcalls_b. intros _.
  exists ia, ib. by rewrite app_nil_r.
Qed.

(** C9, as the code has it.  A pass over a non-empty list whose items
    are all completed or cancelled, when no issue creation aborts it,
    ends by writing the summary to the session issue's notes and, when
    that update returns, closing the session issue with the summary as
    reason; the summary contains the two counts; neither call can make
    the pass throw.  With no mapping file and the list
    [a (completed); b (cancelled)], where the session id and the two
    todo ids are keys that name no member of [Object.prototype] (so that
    each lookup finds what the mapping itself holds, here nothing), the
    calls of a pass that returns are exactly: create the session issue,
    create a's issue and close it with "Completed", create b's issue and
    close it with "Cancelled in OpenCode", then the notes update and the
    close of the session issue with
    "Session complete: 1 completed, 1 cancelled". *)
Theorem all_complete_closes_session_issue :
  (forall (sessionID : string) (items : list TodoItem.t) (w : World E),
     let o := syncTodosToBeads sessionID items w in
     let summary := sessionSummary items in
     items <> [] -> forallb isTerminal items = true -> result o = inr tt ->
     Js.includes summary
       (Js.ofNat (countStatus completed items) +:+ " completed, "
        +:+ Js.ofNat (countStatus cancelled items) +:+ " cancelled") = true /\
     exists epic m1 before r1 rest,
       result (sessionStep sessionID w) = inr (epic, m1) /\
       calls o = before ++ Mutate (UpdateNotes epic summary) r1 :: rest /\
       match r1 with
       | inr _ => exists r2, rest = [Mutate (Close epic summary) r2]
       | inl _ => rest = []
       end) /\
  (forall epic items (w : World E), exists u, result (closeSessionIssue epic items w) = inr u) /\
  (forall (sessionID : string) (a b : TodoItem.t) (w : World E),
     let o := syncTodosToBeads sessionID [a; b] w in
     let summary := "Session complete: 1 completed, 1 cancelled" in
     mappingFile w = None ->
     TodoItem.status a = completed -> TodoItem.status b = cancelled ->
     TodoItem.id a <> TodoItem.id b ->
     Obj.inherited sessionID = false ->
     Obj.inherited (TodoItem.id a) = false -> Obj.inherited (TodoItem.id b) = false ->
     result o = inr tt ->
     exists session ia ib r1 rest,
       calls o =
         [Create (sessionArgs sessionID (Js.before "T" (Date_toISOString (env w))))
                 (inr session);
          Create (todoArgs (BeadsIssue.id session) a) (inr ia);
          Mutate (Close (BeadsIssue.id ia) "Completed") (inr tt);
          Create (todoArgs (BeadsIssue.id session) b) (inr ib);
          Mutate (Close (BeadsIssue.id ib) "Cancelled in OpenCode") (inr tt);
          Mutate (UpdateNotes (BeadsIssue.id session) summary) r1] ++ rest /\
       match r1 with
       | inr _ => exists r2, rest = [Mutate (Close (BeadsIssue.id session) summary) r2]
       | inl _ => rest = []
       end).
Proof.
  split; [|split].
  - intros s items w o summary Hne Hall Hres. subst o summary.
    split; [apply sessionSummary_counts|].
    rewrite syncTodosToBeads_run in Hres |- *. cbv zeta in Hres |- *.
    destruct (result (sessionStep s w)) as [e|[epic m1]]; [done|].
    destruct (result (todoStep s epic items m1 (world (sessionStep s w))))
      as [e|[m2 seen]]; [done|].
    set (w2 := world (todoStep s epic items m1 (world (sessionStep s w)))) in *.
    destruct (result (removalStep s seen m2 w2)) as [e|m3]; [done|].
    cbn [result world calls fst snd].
    set (w3 := world (removalStep s seen m2 w2)).
    unfold closingStep. rewrite Hall.
    rewrite bool_decide_eq_true_2 by (destruct items; [done|simpl; lia]).
    cbn [andb]. rewrite closeSessionIssue_run. cbv zeta.
    exists epic, m1.
    exists (calls (sessionStep s w) ++ calls (todoStep s epic items m1 (world (sessionStep s w)))
              ++ calls (removalStep s seen m2 w2)).
    destruct (bd_quiet (UpdateNotes epic (sessionSummary items)) (env w3))
      as [[err|[]] e1]; cbn [fst snd calls].
    + exists (inl err), []. split; [done|]. split; [|done]. by rewrite <- !app_assoc.
    + exists (inr tt). eexists. split; [done|]. split; [|by eexists].
      by rewrite <- !app_assoc.
  - intros epic items w. apply neverThrows_closeSessionIssue.
  - intros s a b w o summary Hfile Ha Hb Hab _ _ _ Hres. subst o summary.
    assert (sessionSummary [a; b] = "Session complete: 1 completed, 1 cancelled") as Hsum.
    { unfold sessionSummary, countStatus. simpl. rewrite Ha, Hb. reflexivity. }
    assert (isTerminal a = true) as Hta by (unfold isTerminal; by rewrite Ha).
    assert (isTerminal b = true) as Htb by (unfold isTerminal; by rewrite Hb).
    rewrite syncTodosToBeads_run in Hres |- *. cbv zeta in Hres |- *.
    destruct (result (sessionStep s w)) as [e|[epic m1]] eqn:Hsession; [done|].
    apply sessionStep_unrecorded in Hsession as (session & -> & Hc1 & Htodos);
      [|by rewrite loaded_missing].
    rewrite Hc1.
    set (w1 := world (sessionStep s w)) in *.
    assert (todoMapOf s m1 = Obj.empty) as Htm1 by (unfold todoMapOf; by rewrite Htodos).
    destruct (result (todoStep s (BeadsIssue.id session) [a; b] m1 w1))
      as [e|[m2 seen]] eqn:Htodo; [done|].
    unfold todoStep in Htodo |- *. rewrite ensureTodoMap_id in Htodo |- * by (by rewrite Htodos).
    destruct (todoLoop_pair _ _ _ _ _ _ _ _ Hta Htb Hab Htm1 Htodo) as (ia & ib & Hc2).
    apply todoLoop_frame in Htodo as (_ & Hseen & _ & _ & Hout & _).
    rewrite Hc2. rewrite Ha, Hb.
    set (w2 := world (forOf _ [a; b] _ w1)) in *.
    unfold removalStep in *. rewrite removalLoop_stable in *.
    2,3: (intros t v Hin; apply entries_get in Hin as [v' Hv'];
          rewrite Hseen; apply elem_of_union_l, elem_of_list_to_set, list_elem_of_In;
          destruct (in_dec String.string_dec t (ids [a; b])) as [|Hnot]; [done|];
          rewrite (Hout _ Hnot), Htm1 in Hv'; done).
    cbn [result world calls fst snd].
    assert (forallb isTerminal [a; b] && bool_decide (0 < length [a; b])%nat = true) as Hcond
      by (simpl; by rewrite Hta, Htb).
    unfold closingStep. rewrite Hcond.
    rewrite closeSessionIssue_run. cbv zeta. rewrite Hsum.
    exists session, ia, ib.
    destruct (bd_quiet (UpdateNotes _ _) (env w2)) as [[err|[]] e1]; cbn [fst snd calls].
    + exists (inl err), []. done.
    + exists (inr tt). eexists. split; [reflexivity|]. by eexists.
Qed.

End Closing.

(** ** The shape of the calls *)

Section CallShapes.
Context {E : Type} {platform : Platform E}.
Local Abbreviation M := (Async E).

Lemma callsAll_sh_show (P : Call -> Prop) id :
  (forall r, P (Show id r)) -> callsAll P (sh_show id : M Json).
Proof. intros HP w. unfold sh_show, calls. simpl. by repeat constructor. Qed.

Lemma callsAll_sh_create (P : Call -> Prop) args :
  (forall r, P (Create args r)) -> callsAll P (sh_create args : M BeadsIssue.t).
Proof. intros HP w. unfold sh_create, calls. simpl. by repeat constructor. Qed.

Lemma callsAll_silent {A} (P : Call -> Prop) (m : M A) :
  (forall w, calls (m w) = []) -> callsAll P m.
Proof. intros Hm w. rewrite Hm. constructor. Qed.


Lemma updateBeadsIssue_run b todo (w : World E) :
  updateBeadsIssue b todo w =
  (inr tt, withEnv (bd_quiet (updateCommand b todo) (env w)).2 w,
   [Mutate (updateCommand b todo) (bd_quiet (updateCommand b todo) (env w)).1]).
Proof.
  unfold updateBeadsIssue, updateCommand, isTerminal.
  destruct (TodoItem.status todo); cbn [STATUS_TO_BEADS]; run_async;
    destruct (bd_quiet _ (env w)) as [[e|[]] env']; done.
Qed.

Lemma callsAll_getOrCreateSessionIssue (P : Call -> Prop) s m :
  (forall id r, Js.present (Obj.get s (sessions m)) = Some id -> P (Show id r)) ->
  (forall timestamp r, P (Create (sessionArgs s timestamp) r)) ->
  callsAll P (getOrCreateSessionIssue s m).
Proof.
  intros Hshow Hcreate. unfold getOrCreateSessionIssue.
  apply callsAll_bind.
  - unfold lookupSessionIssue.
    destruct (Js.present (Obj.get s (sessions m))) as [recorded|] eqn:Hrec;
      [|apply callsAll_ret].
    apply callsAll_tryCatch; [|intros e; apply callsAll_ret].
    apply callsAll_bind; [apply callsAll_sh_show; intros r; by apply Hshow|].
    intros j. apply callsAll_ret.
  - intros [recorded|]; [apply callsAll_ret|].
    apply callsAll_bind; [by apply callsAll_silent|]. intros iso.
    apply callsAll_tryCatch; [|intros e; apply callsAll_throw].
    apply callsAll_bind; [by apply callsAll_sh_create|]. intros issue.
    apply callsAll_bind; [apply callsAll_silent, saveMapping_calls|].
    intros m'. apply callsAll_ret.
Qed.

Lemma callsAll_createBeadsIssue (P : Call -> Prop) epic todo :
  (forall r, P (Create (todoArgs epic todo) r)) ->
  (forall id r, P (Mutate (updateCommand id todo) r)) ->
  callsAll P (createBeadsIssue epic todo).
Proof.
  intros Hcreate Hupdate. unfold createBeadsIssue.
  apply callsAll_tryCatch; [|intros e; apply callsAll_throw].
  apply callsAll_bind; [by apply callsAll_sh_create|]. intros issue.
  apply callsAll_bind; [|intros _; apply callsAll_ret].
  specialize (Hupdate (BeadsIssue.id issue)). unfold updateCommand, isTerminal in Hupdate.
  destruct (TodoItem.status todo); cbn in Hupdate;
    [apply callsAll_ret|by apply callsAll_sh_quiet..].
Qed.

Lemma callsAll_syncTodo (P : Call -> Prop) s epic todo st :
  (forall r, P (Create (todoArgs epic todo) r)) ->
  (forall id r, P (Mutate (updateCommand id todo) r)) ->
  callsAll P (syncTodo s epic todo st).
Proof.
  intros Hcreate Hupdate. unfold syncTodo. destruct st as [m seen].
  destruct (Js.present _) as [b|].
  - apply callsAll_bind; [|intros _; apply callsAll_ret].
    intros w. rewrite updateBeadsIssue_run. cbn. by repeat constructor.
  - apply callsAll_bind; [by apply callsAll_createBeadsIssue|].
    intros b. apply callsAll_ret.
Qed.


Lemma callsAll_closeSessionIssue (P : Call -> Prop) epic items :
  (forall r, P (Mutate (UpdateNotes epic (sessionSummary items)) r)) ->
  (forall r, P (Mutate (Close epic (sessionSummary items)) r)) ->
  callsAll P (closeSessionIssue epic items).
Proof.
  intros Hnotes Hclose. unfold closeSessionIssue.
  apply callsAll_tryCatch; [|intros e; apply callsAll_ret].
  apply callsAll_bind; [by apply callsAll_sh_quiet|]. intros _. by apply callsAll_sh_quiet.
Qed.


End CallShapes.

(** ** Todos that left the list *)

Section Removal.
Context {E : Type} {platform : Platform E}.

Lemma todoMapOf_withLastSync s t m : todoMapOf s (withLastSync t m) = todoMapOf s m.
Proof. done. Qed.

(** What a pass that returns leaves behind, step by step. *)
Lemma syncTodosToBeads_returns s items (w : World E) :
  result (syncTodosToBeads s items w) = inr tt ->
  exists epic m1 m2 m3,
    let o1 := sessionStep s w in
    let o2 := todoStep s epic items m1 (world o1) in
    let o3 := removalStep s (list_to_set (ids items) ∪ ∅) m2 (world o2) in
    let o4 := closingStep epic items (world o3) in
    result o1 = inr (epic, m1) /\
    result o2 = inr (m2, list_to_set (ids items) ∪ ∅) /\
    result o3 = inr m3 /\
    calls (syncTodosToBeads s items w) = calls o1 ++ calls o2 ++ calls o3 ++ calls o4 /\
    world (syncTodosToBeads s items w) = world (saveMapping m3 (world o4)) /\
    persisted (world (syncTodosToBeads s items w))
      = Some (withLastSync (Date_now (env (world o4))) m3).
Proof.
  rewrite syncTodosToBeads_run. cbv zeta.
  destruct (result (sessionStep s w)) as [e|[epic m1]] eqn:H1; [done|].
  destruct (result (todoStep s epic items m1 (world (sessionStep s w))))
    as [e|[m2 seen]] eqn:H2; [done|].
  pose proof H2 as Hseen. unfold todoStep in Hseen.
  apply todoLoop_frame in Hseen as (_ & -> & _).
  destruct (result (removalStep s _ m2 _)) as [e|m3] eqn:H3; [done|].
  intros _. exists epic, m1, m2, m3. cbn [result world calls fst snd].
  repeat split; try done. apply saveMapping_persisted.
Qed.

(** The summary and the two close reasons of a todo are not the reason
    of a removal. *)
Lemma sessionSummary_not_removal items : sessionSummary items <> REMOVED_REASON.
Proof. unfold sessionSummary, REMOVED_REASON. cbn. discriminate. Qed.

Lemma updateCommand_not_removal b todo id :
  updateCommand b todo <> Close id REMOVED_REASON.
Proof.
  unfold updateCommand, isTerminal, closeReason, REMOVED_REASON.
  destruct (TodoItem.status todo); repeat (case_bool_decide; try done); cbn;
    repeat case_decide; try done; discriminate.
Qed.

(** When the recorded session issue is not found, a pass that returns
    runs no close with the removal reason: the replaced session starts
    from an empty todo map, so the second loop finds nothing to remove. *)
Lemma replaced_session_removes_nothing s items (w : World E) :
  lookupFinds s (loaded w) w = false ->
  result (syncTodosToBeads s items w) = inr tt ->
  Forall (fun c => forall id r, c <> Mutate (Close id REMOVED_REASON) r)
         (calls (syncTodosToBeads s items w)).
Proof.
  intros Hlost Hres.
  destruct (syncTodosToBeads_returns s items w Hres)
    as (epic & m1 & m2 & m3 & H1 & H2 & H3 & Hcalls & _). cbv zeta in *.
  set (seen := list_to_set (ids items) ∪ ∅) in *.
  assert (todoMapOf s m1 = Obj.empty) as Hempty.
  { unfold sessionStep in H1.
    destruct (getOrCreateSessionIssue_lost s (loaded w) w Hlost)
      as (before & args & reply & _ & _ & _ & _ & _ & Hreply & _).
    destruct reply as [err|issue]; [destruct Hreply as [Hthrown _]; congruence|].
    destruct Hreply as (saved & Hsaved & _ & Htodos & _).
    rewrite Hsaved in H1. injection H1 as _ <-.
    unfold todoMapOf. by rewrite Htodos, get_set_eq. }
  pose proof H2 as Hframe. unfold todoStep in Hframe.
  apply todoLoop_frame in Hframe as (_ & _ & _ & _ & Hout & _).
  rewrite todoMapOf_ensureTodoMap, Hempty in Hout.
  assert (removalStep s seen m2 (world (todoStep s epic items m1 (world (sessionStep s w))))
          = (inr m2, world (todoStep s epic items m1 (world (sessionStep s w))), [])) as Hstable.
  { unfold removalStep. apply removalLoop_stable. intros t b Hin.
    destruct (in_dec String.string_dec t (ids items)) as [Hlisted|Hmissing].
    - subst seen. rewrite elem_of_union, elem_of_list_to_set, list_elem_of_In. by left.
    - apply entries_get in Hin as [v Hv]. rewrite (Hout t Hmissing) in Hv. done. }
  rewrite Hcalls, Hstable. cbn [calls snd world fst app]. rewrite !Forall_app.
  split; [|split].
  - unfold sessionStep. apply callsAll_getOrCreateSessionIssue; intros; discriminate.
  - unfold todoStep. apply callsAll_forOf. intros todo st. apply callsAll_syncTodo.
    + intros r id r'. discriminate.
    + intros b r id r' Heq.
      assert (updateCommand b todo = Close id REMOVED_REASON) as Hsame by congruence.
      by apply updateCommand_not_removal in Hsame.
  - unfold closingStep. destruct (_ && _); [|apply callsAll_ret].
    apply callsAll_closeSessionIssue.
    + intros r id r'. discriminate.
    + intros r id r' Heq.
      assert (sessionSummary items = REMOVED_REASON) as Hsame by congruence.
      by apply sessionSummary_not_removal in Hsame.
Qed.

(** C7, as the code has it.  In a pass that returns, no todo id that is
    missing from the input list is left in the session's saved todo map.
    When the recorded session issue was found by the lookup, every pair
    recorded at load time whose todo id is missing from the list has had
    [bd close <id> --reason "Todo removed from OpenCode"] issued for its
    issue, and the outcome of that call changes nothing else: the removal
    loop never throws.  When the session issue was not found and had to
    be replaced, the pass runs no close with that reason at all, so the
    pairs recorded before are forgotten without being closed.  After a
    pass over the empty list that returns, the recovery reader returns
    the empty sequence. *)
Theorem removed_todos_closed_and_forgotten :
  (forall (sessionID : string) (items : list TodoItem.t) (w : World E),
     let o := syncTodosToBeads sessionID items w in
     result o = inr tt ->
     (exists saved,
        persisted (world o) = Some saved /\
        forall todoID, ~ In todoID (ids items) ->
                       Obj.get todoID (todoMapOf sessionID saved) = None) /\
     (lookupFinds sessionID (loaded w) w = true ->
      forall todoID beadsID,
        In (todoID, beadsID) (Obj.entries (todoMapOf sessionID (loaded w))) ->
        ~ In todoID (ids items) ->
        exists r, In (Mutate (Close beadsID REMOVED_REASON) r) (calls o)) /\
     (lookupFinds sessionID (loaded w) w = false ->
      Forall (fun c => forall id r, c <> Mutate (Close id REMOVED_REASON) r) (calls o)) /\
     (items = [] -> readTodosFromBeads sessionID (world o) = (inr [], world o, []))) /\
  (forall sessionID seen mapping (w : World E),
     exists m3, result (removalStep sessionID seen mapping w) = inr m3) /\
  REMOVED_REASON = "Todo removed from OpenCode".
Proof.
  split; [|split; [intros; apply removalStep_returns|done]].
  intros s items w o Hres. subst o.
  pose proof (fun Hlost => replaced_session_removes_nothing s items w Hlost Hres) as Hreplaced.
  destruct (syncTodosToBeads_returns s items w Hres)
    as (epic & m1 & m2 & m3 & H1 & H2 & H3 & Hcalls & Hworld & Hpers).
  cbv zeta in *.
  set (o1 := sessionStep s w) in *.
  set (o2 := todoStep s epic items m1 (world o1)) in *.
  set (seen := list_to_set (ids items) ∪ ∅) in *.
  destruct (removalLoop s seen (Obj.entries (todoMapOf s m2)) m2 (world o2))
    as (m3' & H3' & _ & _ & _ & Hgone & Hout & Hclose & _).
  fold (removalStep s seen m2 (world o2)) in H3', Hclose.
  assert (m3' = m3) as -> by congruence.
  assert (forall k, ~ In k (ids items) -> Obj.get k (todoMapOf s m3) = None) as Hforgotten.
  { intros k Hk. assert (k ∉ seen) as Hunseen.
    { subst seen. rewrite elem_of_union, elem_of_list_to_set, list_elem_of_In. set_solver. }
    destruct (Obj.get k (todoMapOf s m2)) as [v|] eqn:Hget.
    - apply Hgone; [done|]. by eapply get_keys.
    - rewrite Hout; [done|done|]. by apply get_None_keys. }
  split; [|split; [|split; [exact Hreplaced|]]].
  - eexists. split; [exact Hpers|]. intros k Hk. rewrite todoMapOf_withLastSync. by apply Hforgotten.
  - intros Hfound t b Hin Ht.
    destruct (getOrCreateSessionIssue_found s (loaded w) w Hfound)
      as (recorded & reply & _ & Hrun & _).
    assert (m1 = loaded w) as ->.
    { subst o1. unfold sessionStep in H1. rewrite Hrun in H1. by injection H1. }
    pose proof H2 as Hframe. unfold o2, todoStep in Hframe.
    apply todoLoop_frame in Hframe as (_ & _ & _ & _ & _ & Hkept).
    rewrite todoMapOf_ensureTodoMap in Hkept.
    destruct (Hclose t b (Hkept t b Hin Ht)) as [r Hr].
    { subst seen. rewrite elem_of_union, elem_of_list_to_set, list_elem_of_In. set_solver. }
    exists r. rewrite Hcalls. apply in_or_app. right. apply in_or_app. right.
    apply in_or_app. by left.
  - intros ->. unfold readTodosFromBeads. rewrite bind_run, loadMapping_run.
    cbn [result world calls fst snd]. rewrite (loaded_persisted _ _ Hpers).
    rewrite todoMapOf_withLastSync.
    rewrite (all_None_empty (todoMapOf s m3)) by (intros k; apply Hforgotten; simpl; tauto).
    by destruct (Js.present _).
Qed.
End Removal.

(** ** Reconciling twice *)

Section Idempotence.
Context {E : Type} {platform : Platform E}.

Lemma threw_not_answered c : threw c = true -> answered c = false.
Proof. by destruct c as [id [err|j]|args [err|issue]|m [err|u]]. Qed.

Lemma Forall_Exists_answered (t : list Call) :
  Forall (fun c => answered c = true) t -> Exists (fun c => answered c = false) t -> False.
Proof.
  intros Hall Hex. apply Exists_exists in Hex as (c & Hin & Hc).
  rewrite Forall_forall in Hall. specialize (Hall c Hin). congruence.
Qed.

Lemma syncTodosToBeads_calls_prefix s items (w : World E) :
  exists rest, calls (syncTodosToBeads s items w) = calls (sessionStep s w) ++ rest.
Proof.
  rewrite syncTodosToBeads_run. cbv zeta.
  destruct (result (sessionStep s w)) as [e|[epic m1]].
  { exists []. by rewrite app_nil_r. }
  destruct (result (todoStep _ _ _ _ _)) as [e|[m2 seen]]; [by eexists|].
  destruct (result (removalStep _ _ _ _)) as [e|m3]; by eexists.
Qed.

Lemma sessionStep_answered s (w : World E) :
  Forall (fun c => answered c = true) (calls (sessionStep s w)) ->
  exists epic m1,
    result (sessionStep s w) = inr (epic, m1) /\
    Js.present (Obj.get s (sessions m1)) = Some epic /\
    (Js.present (Obj.get s (sessions (loaded w))) <> None ->
     m1 = loaded w /\ Forall (fun c => isCreate c = false) (calls (sessionStep s w))).
Proof.
  intros Hans. unfold sessionStep in *.
  destruct (lookupFinds s (loaded w) w) eqn:Hfinds.
  - destruct (getOrCreateSessionIssue_found s (loaded w) w Hfinds)
      as (recorded & reply & Hrec & Hrun & _).
    exists recorded, (loaded w). rewrite Hrun. repeat split; try done. by repeat constructor.
  - destruct (getOrCreateSessionIssue_lost s (loaded w) w Hfinds)
      as (before & args & reply & Hcalls & _ & _ & _ & _ & Hreply & Hunanswered).
    rewrite Hcalls in Hans. apply Forall_app in Hans as [Hbefore Hlast].
    inversion Hlast as [|? ? Hreply' _]; subst. destruct reply as [err|issue]; [done|].
    destruct Hreply as (saved & Hres & Hsess & _ & _).
    exists (BeadsIssue.id issue), saved. split; [done|]. split.
    { rewrite Hsess, get_set_eq. simpl. simpl in Hreply'. by rewrite Hreply'. }
    intros Hrecorded. destruct (Forall_Exists_answered before); auto.
Qed.

(** A pass whose calls were all answered returns, and what it saves maps
    the session to its issue and every todo of the list to an issue, and
    nothing else. *)
Lemma answered_pass s items (w : World E) :
  Forall (fun c => answered c = true) (calls (syncTodosToBeads s items w)) ->
  exists saved,
    result (syncTodosToBeads s items w) = inr tt /\
    persisted (world (syncTodosToBeads s items w)) = Some saved /\
    Js.present (Obj.get s (sessions saved)) <> None /\
    Obj.get s (todos saved) <> None /\
    (forall todo, In todo items ->
                  Js.present (Obj.get (TodoItem.id todo) (todoMapOf s saved)) <> None) /\
    (forall t b, In (t, b) (Obj.entries (todoMapOf s saved)) -> In t (ids items)).
Proof.
  intros Hans.
  destruct (syncTodosToBeads_calls_prefix s items w) as [rest Hprefix].
  assert (Forall (fun c => answered c = true) (calls (sessionStep s w))) as Hans1.
  { rewrite Hprefix in Hans. by apply Forall_app in Hans as [? _]. }
  destruct (sessionStep_answered s w Hans1) as (epic & m1 & H1 & Hepic & _).
  assert (result (syncTodosToBeads s items w) = inr tt) as Hres.
  { destruct (result (syncTodosToBeads s items w)) as [e|[]] eqn:Hr; [|done].
    destruct (syncTodosToBeads_throws s items w epic m1 e H1 Hr)
      as (before & c & Hcalls & Hthrew).
    rewrite Hcalls in Hans. apply Forall_app in Hans as [_ Hlast].
    inversion Hlast as [|? ? Hc _]; subst. apply threw_not_answered in Hthrew. congruence. }
  destruct (syncTodosToBeads_returns s items w Hres)
    as (epic' & m1' & m2 & m3 & H1' & H2 & H3 & Hcalls & _ & Hpers).
  cbv zeta in *. rewrite H1 in H1'. injection H1' as <- <-.
  set (o1 := sessionStep s w) in *.
  set (o2 := todoStep s epic items m1 (world o1)) in *.
  set (seen := list_to_set (ids items) ∪ ∅) in *.
  assert (forall k, k ∈ seen <-> In k (ids items)) as Hseen.
  { intros k. subst seen. rewrite elem_of_union, elem_of_list_to_set, list_elem_of_In. set_solver. }
  destruct (removalLoop s seen (Obj.entries (todoMapOf s m2)) m2 (world o2))
    as (m3' & H3' & Hs3 & Ht3 & Hin & Hgone & Hout & _).
  fold (removalStep s seen m2 (world o2)) in H3'.
  assert (m3' = m3) as -> by congruence.
  pose proof H2 as Hframe. unfold o2, todoStep in Hframe.
  apply todoLoop_frame in Hframe as (Hs2 & _ & Ht2 & _).
  eexists. split; [done|]. split; [exact Hpers|].
  split; [|split; [|split]].
  - simpl. rewrite Hs3, Hs2, sessions_ensureTodoMap. by rewrite Hepic.
  - simpl. apply Ht3, Ht2, todos_ensureTodoMap.
  - intros todo Htodo. rewrite todoMapOf_withLastSync.
    rewrite Hin by (apply Hseen; by apply in_map).
    unfold o2, todoStep in H2. eapply todoLoop_answered; [exact H2| |done].
    fold (todoStep s epic items m1 (world o1)). fold o2.
    rewrite Hcalls in Hans. apply Forall_app in Hans as [_ Hans].
    by apply Forall_app in Hans as [? _].
  - intros t b Hentry. rewrite todoMapOf_withLastSync in Hentry.
    destruct (in_dec String.string_dec t (ids items)) as [|Hnot]; [done|].
    apply entries_get in Hentry as [v Hv].
    assert (Obj.get t (todoMapOf s m3) = None) as Hnone; [|congruence].
    destruct (Obj.get t (todoMapOf s m2)) as [v2|] eqn:Hget.
    + apply Hgone; [by rewrite Hseen|]. by eapply get_keys.
    + rewrite Hout; [done|by rewrite Hseen|]. by apply get_None_keys.
Qed.

Lemma noCreate_closingStep epic items (w : World E) :
  Forall (fun c => isCreate c = false) (calls (closingStep epic items w)).
Proof.
  unfold closingStep. destruct (_ && _).
  - apply noCreate_closeSessionIssue.
  - constructor.
Qed.

(** A pass over a list that the saved mapping already covers changes
    nothing but [lastSync], and creates nothing. *)
Lemma settled_pass s items (w : World E) saved :
  persisted w = Some saved ->
  Js.present (Obj.get s (sessions saved)) <> None ->
  Obj.get s (todos saved) <> None ->
  (forall todo, In todo items ->
                Js.present (Obj.get (TodoItem.id todo) (todoMapOf s saved)) <> None) ->
  (forall t b, In (t, b) (Obj.entries (todoMapOf s saved)) -> In t (ids items)) ->
  Forall (fun c => answered c = true) (calls (syncTodosToBeads s items w)) ->
  result (syncTodosToBeads s items w) = inr tt /\
  Forall (fun c => isCreate c = false) (calls (syncTodosToBeads s items w)) /\
  exists t, persisted (world (syncTodosToBeads s items w)) = Some (withLastSync t saved).
Proof.
  intros Hpers Hsession Htodos Hcovered Honly Hans.
  apply loaded_persisted in Hpers.
  destruct (syncTodosToBeads_calls_prefix s items w) as [rest Hprefix].
  assert (Forall (fun c => answered c = true) (calls (sessionStep s w))) as Hans1.
  { rewrite Hprefix in Hans. by apply Forall_app in Hans as [? _]. }
  destruct (sessionStep_answered s w Hans1) as (epic & m1 & H1 & _ & Hkept).
  rewrite Hpers in Hkept. destruct (Hkept Hsession) as [-> Hcalls1].
  rewrite syncTodosToBeads_run. cbv zeta. rewrite H1.
  set (w1 := world (sessionStep s w)).
  unfold todoStep. rewrite ensureTodoMap_id by done.
  destruct (todoLoop_stable s epic items saved ∅ w1 Hcovered) as [H2 Hcalls2].
  rewrite H2. set (w2 := world (forOf _ items _ w1)).
  unfold removalStep. rewrite removalLoop_stable.
  2:{ intros t b Hin. apply Honly in Hin.
      rewrite elem_of_union, elem_of_list_to_set, list_elem_of_In. by left. }
  cbn [result world calls fst snd]. split; [done|]. split.
  - rewrite app_nil_l. apply Forall_app. split; [done|]. apply Forall_app. split; [done|].
    apply noCreate_closingStep.
  - eexists. apply saveMapping_persisted.
Qed.

(** C2. Reconciling twice in a row with the same list, every tracker
    call of both passes being answered: both passes return, the second
    pass issues no create call, and the mapping it saves has the same
    sessions and the same todos as the one the first pass saved. *)
Theorem reconcile_twice_creates_nothing :
  forall (sessionID : string) (items : list TodoItem.t) (w : World E),
    let first := syncTodosToBeads sessionID items w in
    let second := syncTodosToBeads sessionID items (world first) in
    Forall (fun c => answered c = true) (calls first) ->
    Forall (fun c => answered c = true) (calls second) ->
    result first = inr tt /\
    result second = inr tt /\
    Forall (fun c => isCreate c = false) (calls second) /\
    exists m1 m2,
      persisted (world first) = Some m1 /\
      persisted (world second) = Some m2 /\
      sessions m2 = sessions m1 /\
      todos m2 = todos m1.
Proof.
  intros s items w first second Hans1 Hans2. subst first second.
  destruct (answered_pass s items w Hans1)
    as (saved & Hres1 & Hpers1 & Hsession & Htodos & Hcovered & Honly).
  destruct (settled_pass s items _ saved Hpers1 Hsession Htodos Hcovered Honly Hans2)
    as (Hres2 & Hnone & t & Hpers2).
  split; [done|]. split; [done|]. split; [done|].
  by exists saved, (withLastSync t saved).
Qed.
End Idempotence.

(** ** The theorems on the small tracker *)

Lemma all_complete_closes_session_issue_witness :
  let o := syncTodosToBeads "ses_1" [Demo.todoA completed; Demo.todoB cancelled]
             (Demo.start true) in
  let summary := "Session complete: 1 completed, 1 cancelled" in
  exists session ia ib r1 rest,
    calls o =
      [Create (sessionArgs "ses_1" (Js.before "T" (Date_toISOString (env (Demo.start true)))))
              (inr session);
       Create (todoArgs (BeadsIssue.id session) (Demo.todoA completed)) (inr ia);
       Mutate (Close (BeadsIssue.id ia) "Completed") (inr tt);
       Create (todoArgs (BeadsIssue.id session) (Demo.todoB cancelled)) (inr ib);
       Mutate (Close (BeadsIssue.id ib) "Cancelled in OpenCode") (inr tt);
       Mutate (UpdateNotes (BeadsIssue.id session) summary) r1] ++ rest /\
    match r1 with
    | inr _ => exists r2, rest = [Mutate (Close (BeadsIssue.id session) summary) r2]
    | inl _ => rest = []
    end.
Proof.
  refine (proj2 (proj2 (@all_complete_closes_session_issue Demo.Tracker Demo.platform))
            "ses_1" (Demo.todoA completed) (Demo.todoB cancelled) (Demo.start true)
            _ _ _ _ _ _ _ _).
  - reflexivity.
  - reflexivity.
  - reflexivity.
  - discriminate.
  - reflexivity.
  - reflexivity.
  - reflexivity.
  - vm_compute. reflexivity.
Defined.

(** C9 as stated does not hold for every list: the only item is
    completed, its issue cannot be created, the pass throws, and the
    session issue [bd-1] it created is never closed. *)
Lemma all_complete_but_creation_fails :
  let items := [TodoItem.mk "B" "" completed "low"] in
  let o := syncTodosToBeads "ses_1" items (Demo.start true) in
  items <> [] /\ forallb isTerminal items = true /\
  (exists e, result o = inl e) /\
  (exists session, In (Create (sessionArgs "ses_1" "2025-06-01") (inr session)) (calls o) /\
                   BeadsIssue.id session = "bd-1") /\
  Forall (fun c => isClose c = false) (calls o).
Proof.
  split; [discriminate|]. split; [reflexivity|].
  split; [eexists; vm_compute; reflexivity|].
  split; [eexists; split; [vm_compute; left; reflexivity|reflexivity]|].
  vm_compute. repeat constructor.
Qed.

Lemma removed_todos_closed_and_forgotten_witness :
  let w := world (syncTodosToBeads "ses_1" [Demo.todoA pending; Demo.todoB pending]
                    (Demo.start true)) in
  let o := syncTodosToBeads "ses_1" [Demo.todoB pending] w in
  let replaced := syncTodosToBeads "ses_1" [Demo.todoB completed] Demo.orphaned in
  (exists r, In (Mutate (Close "bd-2" "Todo removed from OpenCode") r) (calls o)) /\
  readTodosFromBeads "ses_1" (world (syncTodosToBeads "ses_1" [] w))
  = (inr [], world (syncTodosToBeads "ses_1" [] w), []) /\
  Forall (fun c => forall id r, c <> Mutate (Close id REMOVED_REASON) r) (calls replaced) /\
  (exists r, In (Mutate (Close "bd-4" "Completed") r) (calls replaced)).
Proof.
  refine (let w := world (syncTodosToBeads "ses_1" [Demo.todoA pending; Demo.todoB pending]
                            (Demo.start true)) in _).
  split; [|split; [|split]].
  - refine (proj1 (proj2 (proj1 (@removed_todos_closed_and_forgotten Demo.Tracker Demo.platform)
                            "ses_1" [Demo.todoB pending] w _)) _ "A" "bd-2" _ _).
    + vm_compute. reflexivity.
    + vm_compute. reflexivity.
    + vm_compute. left. reflexivity.
    + vm_compute. intros [H|[]]. discriminate H.
  - refine (proj2 (proj2 (proj2 (proj1 (@removed_todos_closed_and_forgotten Demo.Tracker
                                           Demo.platform)
                                    "ses_1" [] w _))) _).
    + vm_compute. reflexivity.
    + reflexivity.
  - refine (proj1 (proj2 (proj2 (proj1 (@removed_todos_closed_and_forgotten Demo.Tracker
                                           Demo.platform)
                                    "ses_1" [Demo.todoB completed] Demo.orphaned _))) _).
    + vm_compute. reflexivity.
    + vm_compute. reflexivity.
  - eexists. vm_compute. do 3 right. left. reflexivity.
Defined.

(** C7 as stated does not hold for every recorded pair: the mapping
    records the pair (A, bd-2) under a session issue that is gone from
    the tracker; the pass over the empty list returns, replaces the
    session issue, forgets the pair, and issues no close at all. *)
Lemma orphaned_pair_forgotten_not_closed :
  let o := syncTodosToBeads "ses_1" [] Demo.orphaned in
  In ("A", "bd-2") (Obj.entries (todoMapOf "ses_1" (loaded Demo.orphaned))) /\
  ~ In "A" (ids []) /\
  result o = inr tt /\
  Forall (fun c => isClose c = false) (calls o) /\
  ~ (exists r, In (Mutate (Close "bd-2" REMOVED_REASON) r) (calls o)).
Proof.
  split; [vm_compute; left; reflexivity|]. split; [intros []|].
  split; [vm_compute; reflexivity|].
  split; [vm_compute; repeat constructor|].
  intros [r Hin]. vm_compute in Hin. destruct Hin as [H|[H|[]]]; discriminate H.
Qed.

Lemma reconcile_twice_creates_nothing_witness :
  let first := syncTodosToBeads "ses_1" [Demo.todoA pending; Demo.todoB in_progress]
                 (Demo.start true) in
  let second := syncTodosToBeads "ses_1" [Demo.todoA pending; Demo.todoB in_progress]
                  (world first) in
  result first = inr tt /\
  result second = inr tt /\
  Forall (fun c => isCreate c = false) (calls second) /\
  exists m1 m2,
    persisted (world first) = Some m1 /\
    persisted (world second) = Some m2 /\
    sessions m2 = sessions m1 /\
    todos m2 = todos m1.
Proof.
  apply (@reconcile_twice_creates_nothing Demo.Tracker Demo.platform "ses_1"
           [Demo.todoA pending; Demo.todoB in_progress] (Demo.start true)).
  - vm_compute. repeat constructor.
  - vm_compute. repeat constructor.
Defined.

(** C4 on the tracker whose [bd show] prints an array, the shape the
    session lookup requires: after a pass that created and recorded the
    issue of todo A, the reader fetches it, the fetch returns the issue,
    the session lookup would accept the very same reply, and the reader
    returns no todo. *)
Lemma recovery_drops_array_replies :
  let w := world (syncTodosToBeads "ses_1" [Demo.todoA pending] (Demo.start true)) in
  let o := readTodosFromBeads "ses_1" w in
  Obj.entries (todoMapOf "ses_1" (loaded w)) = [("A", "bd-2")] /\
  (exists issue,
     calls o = [Show "bd-2" (inr (JArray [issue]))] /\
     BeadsIssue.id issue = "bd-2" /\
     BeadsIssue.title issue = "write the parser" /\
     firstHasId (JArray [issue]) = true) /\
  result o = inr [].
Proof.
  split; [vm_compute; reflexivity|].
  split; [|vm_compute; reflexivity].
  eexists. split; [vm_compute; reflexivity|]. repeat split.
Qed.

(** ** The ignore file *)

Lemma rev_app_rev_app (f cur acc : string) :
  String.rev_app (String.rev_app f cur) acc = String.rev_app cur (f +:+ acc).
Proof.
  revert cur acc. induction f as [|a f IH]; intros cur acc; [done|].
  change (String.rev_app (String.rev_app f (String a cur)) acc
          = String.rev_app cur (String a (f +:+ acc))).
  by rewrite IH.
Qed.

Lemma append_nil_r (f : string) : f +:+ "" = f.
Proof.
  induction f as [|a f IH]; [done|].
  change (String a (f +:+ "") = String a f). by rewrite IH.
Qed.

Lemma rev_rev_app (f : string) : String.rev (String.rev_app f "") = f.
Proof. unfold String.rev. rewrite rev_app_rev_app. apply append_nil_r. Qed.

Lemma lines_from_line (f rest cur : string) :
  singleLine f = true ->
  Js.lines_from cur (f +:+ String "010" rest) =
  String.rev (String.rev_app f cur) :: Js.lines_from "" rest.
Proof.
  unfold singleLine. revert cur. induction f as [|a f IH]; intros cur.
  - intros _. change ("" +:+ String "010" rest) with (String "010" rest).
    cbn [Js.lines_from]. by rewrite Ascii.eqb_refl.
  - change (String a f +:+ String "010" rest) with (String a (f +:+ String "010" rest)).
    cbn [Js.lines_from list_ascii_of_string forallb String.rev_app].
    destruct (Ascii.eqb a "010") eqn:Ha; cbn [negb andb]; [done|]. intros Hf. by rewrite IH.
Qed.

Lemma lines_last (f : string) : singleLine f = true -> In f (Js.lines_from "" (f +:+ newline)).
Proof.
  intros Hf. unfold newline. rewrite lines_from_line by done. left. apply rev_rev_app.
Qed.

Lemma lines_appended (f c : string) :
  singleLine f = true ->
  forall cur, In f (Js.lines_from cur (c +:+ newline +:+ f +:+ newline)).
Proof.
  intros Hf. induction c as [|a c IH]; intros cur.
  - change ("" +:+ newline +:+ f +:+ newline) with (String "010" (f +:+ newline)).
    cbn [Js.lines_from]. rewrite Ascii.eqb_refl. right. by apply lines_last.
  - change (String a c +:+ newline +:+ f +:+ newline)
      with (String a (c +:+ newline +:+ f +:+ newline)).
    cbn [Js.lines_from]. destruct (Ascii.eqb a "010"); [right|]; apply IH.
Qed.

Lemma lines_continued (f c : string) :
  singleLine f = true ->
  Js.endsWith c newline = true ->
  forall cur, In f (Js.lines_from cur (c +:+ f +:+ newline)).
Proof.
  intros Hf. induction c as [|a c IH]; intros Hends cur; [done|].
  change (String a c +:+ f +:+ newline) with (String a (c +:+ f +:+ newline)).
  cbn [Js.endsWith] in Hends. cbn [Js.lines_from].
  destruct (Js.endsWith c newline) eqn:Hc.
  - destruct (Ascii.eqb a "010"); [right|]; by apply IH.
  - rewrite orb_false_r in Hends. apply seq_true in Hends. injection Hends as -> ->.
    rewrite Ascii.eqb_refl. right. by apply lines_last.
Qed.

Section IgnoreFile.
Context {E : Type} {platform : Platform E}.

Lemma listed_line (f c : string) :
  Js.trim f = f -> In f (Js.lines c) -> listed f c = true.
Proof.
  intros Htrim Hin. unfold listed. apply existsb_exists. exists f. split; [done|].
  rewrite Htrim. apply seq_refl.
Qed.

Lemma listed_appended (f before : string) :
  singleLine f = true -> Js.trim f = f -> listed f (appended f before) = true.
Proof.
  intros Hline Htrim. apply listed_line; [done|]. unfold appended.
  destruct (Js.endsWith before newline) eqn:Hends.
  - by apply lines_continued.
  - by apply lines_appended.
Qed.

Lemma prefix_appended (f before : string) : String.prefix before (appended f before) = true.
Proof. unfold appended. destruct (Js.endsWith before newline); apply prefix_app. Qed.

Lemma ensureGitignoreEntry_listed (f c : string) (w : World E) :
  gitignore w = Some c -> listed f c = true ->
  ensureGitignoreEntry f w = (inr tt, w, []).
Proof.
  intros Hg Hc. unfold ensureGitignoreEntry, tryCatch, bind, readGitignore, ret.
  rewrite Hg. unfold listed in Hc. by rewrite Hc.
Qed.

Lemma ensureGitignoreEntry_unlisted (f c : string) (w : World E) :
  gitignore w = Some c -> listed f c = false ->
  ensureGitignoreEntry f w =
  (inr tt, {| env := env w; mappingFile := mappingFile w; gitignore := Some (appended f c) |}, []).
Proof.
  intros Hg Hc. unfold ensureGitignoreEntry, tryCatch, bind, readGitignore, writeGitignore, ret.
  rewrite Hg. unfold listed in Hc. by rewrite Hc.
Qed.

Lemma ensureGitignoreEntry_missing (f : string) (w : World E) :
  gitignore w = None ->
  ensureGitignoreEntry f w =
  (inr tt, {| env := env w; mappingFile := mappingFile w; gitignore := Some (f +:+ newline) |}, []).
Proof.
  intros Hg. unfold ensureGitignoreEntry, tryCatch, bind, readGitignore, writeGitignore, ret, throw.
  by rewrite Hg.
Qed.

Lemma ensureGitignoreEntry_entry (f : string) (w : World E) :
  singleLine f = true -> Js.trim f = f ->
  exists content,
    ensureGitignoreEntry f w =
      (inr tt, {| env := env w; mappingFile := mappingFile w; gitignore := Some content |}, [])
    /\ listed f content = true
    /\ forall before, gitignore w = Some before ->
                      String.prefix before content = true /\
                      (listed f before = true -> content = before).
Proof.
  intros Hline Htrim. destruct (gitignore w) as [before|] eqn:Hg.
  - destruct (listed f before) eqn:Hbefore.
    + exists before. rewrite (ensureGitignoreEntry_listed f before w Hg Hbefore).
      split; [destruct w; cbn in *; by subst|]. split; [done|].
      intros ? [= <-]. split; [apply prefix_refl|done].
    + exists (appended f before). rewrite (ensureGitignoreEntry_unlisted f before w Hg Hbefore).
      split; [done|]. split; [by apply listed_appended|].
      intros ? [= <-]. split; [apply prefix_appended|congruence].
  - exists (f +:+ newline). rewrite (ensureGitignoreEntry_missing f w Hg).
    split; [done|]. split; [|done]. apply listed_line; [done|]. by apply lines_last.
Qed.

Lemma lines_of_appended (f before : string) :
  singleLine f = true -> In f (Js.lines (appended f before)).
Proof.
  intros Hline. unfold appended. destruct (Js.endsWith before newline) eqn:Hends.
  - by apply lines_continued.
  - by apply lines_appended.
Qed.

(** X1. [ensureGitignoreEntry], for a file name that is one line without
    surrounding white space: it returns without a shell call and touches
    neither the tracker nor the mapping file; afterwards the ignore file
    exists and lists the name, that is, some line of it is the name once
    trimmed, which is the test the function makes; what the file held
    before is kept as a prefix; a file that already lists the name, be
    it on a padded line, is left as it is; a file that does not gets the
    name appended as a line of its own, and a missing file is created
    with that line alone; and running it again changes nothing. *)
Theorem ensureGitignoreEntry_lists_once :
  forall (filename : string) (w : World E),
    singleLine filename = true -> Js.trim filename = filename ->
    let o := ensureGitignoreEntry filename w in
    result o = inr tt /\ calls o = [] /\
    env (world o) = env w /\ mappingFile (world o) = mappingFile w /\
    (exists content,
       gitignore (world o) = Some content /\
       listed filename content = true /\
       forall before, gitignore w = Some before -> String.prefix before content = true) /\
    (forall before, gitignore w = Some before -> listed filename before = true -> world o = w) /\
    (forall before, gitignore w = Some before -> listed filename before = false ->
                    gitignore (world o) = Some (appended filename before) /\
                    In filename (Js.lines (appended filename before))) /\
    (gitignore w = None ->
     gitignore (world o) = Some (filename +:+ newline) /\
     Js.lines (filename +:+ newline) = [filename; ""]) /\
    ensureGitignoreEntry filename (world o) = (inr tt, world o, []).
Proof.
  intros f w Hline Htrim o. subst o.
  assert (forall before, gitignore w = Some before -> listed f before = false ->
            gitignore (world (ensureGitignoreEntry f w)) = Some (appended f before) /\
            In f (Js.lines (appended f before))) as Hadded.
  { intros before Hg Hb. rewrite (ensureGitignoreEntry_unlisted f before w Hg Hb).
    split; [done|]. by apply lines_of_appended. }
  assert (gitignore w = None ->
          gitignore (world (ensureGitignoreEntry f w)) = Some (f +:+ newline) /\
          Js.lines (f +:+ newline) = [f; ""]) as Hcreated.
  { intros Hg. rewrite (ensureGitignoreEntry_missing f w Hg). split; [done|].
    unfold Js.lines, newline. rewrite lines_from_line by done. by rewrite rev_rev_app. }
  destruct (ensureGitignoreEntry_entry f w Hline Htrim) as (content & Hrun & Hlisted & Hbefore).
  rewrite Hrun in Hadded, Hcreated |- *.
  cbn [result world calls fst snd gitignore env mappingFile] in *.
  split; [done|]. split; [done|]. split; [done|]. split; [done|].
  split; [|split; [|split; [exact Hadded|split; [exact Hcreated|]]]].
  - exists content. split; [done|]. split; [done|]. intros before Hg. by apply Hbefore.
  - intros before Hg Hb. destruct (Hbefore before Hg) as [_ Hsame].
    rewrite (Hsame Hb). destruct w; cbn in *. by subst.
  - by apply (ensureGitignoreEntry_listed f content).
Qed.

End IgnoreFile.

Lemma ensureGitignoreEntry_lists_once_witness :
  let o := ensureGitignoreEntry "opencode-todo-mapping.json" (Demo.start false) in
  let padded :=
    {| env := env (Demo.start false); mappingFile := None;
       gitignore := Some ("  opencode-todo-mapping.json  " +:+ newline) |} in
  gitignore (world o) = Some ("opencode-todo-mapping.json" +:+ newline) /\
  ensureGitignoreEntry "opencode-todo-mapping.json" (world o) = (inr tt, world o, []) /\
  world (ensureGitignoreEntry "opencode-todo-mapping.json" padded) = padded /\
  ~ In "opencode-todo-mapping.json"
       (Js.lines ("  opencode-todo-mapping.json  " +:+ newline)).
Proof.
  split; [reflexivity|]. split; [|split].
  - refine (proj2 (proj2 (proj2 (proj2 (proj2 (proj2 (proj2 (proj2
              (@ensureGitignoreEntry_lists_once Demo.Tracker
                 "opencode-todo-mapping.json" (Demo.start false) _ _))))))))).
    + reflexivity.
    + reflexivity.
  - refine (proj1 (proj2 (proj2 (proj2 (proj2 (proj2
              (@ensureGitignoreEntry_lists_once Demo.Tracker
                 "opencode-todo-mapping.json"
                 {| env := env (Demo.start false); mappingFile := None;
                    gitignore := Some ("  opencode-todo-mapping.json  " +:+ newline) |}
                 _ _))))))
              ("  opencode-todo-mapping.json  " +:+ newline) _ _).
    + reflexivity.
    + reflexivity.
    + reflexivity.
    + reflexivity.
  - vm_compute. intros [H|[H|[]]]; discriminate H.
Defined.

(** ** Saving the mapping *)

Section Saving.
Context {E : Type} {platform : Platform E}.

Lemma loaded_stringified (w : World E) m :
  mappingFile w = Some (Stringified m) -> loaded w = m.
Proof. intros Hf. apply loaded_persisted. unfold persisted. by rewrite Hf. Qed.

(** X2. [saveMapping] always returns, runs no shell command and leaves
    the tracker alone; loading the mapping afterwards gives back the
    mapping that was saved, with [lastSync] set to the clock reading and
    the sessions and todos as passed in.  The ignore file is touched
    only when the mapping file did not exist yet, and then it lists the
    mapping file's name and keeps what it held before. *)
Theorem saveMapping_round_trip :
  forall (mapping : TodoBeadsMapping) (w : World E),
    let o := saveMapping mapping w in
    let saved := withLastSync (Date_now (env w)) mapping in
    result o = inr saved /\
    calls o = [] /\
    env (world o) = env w /\
    loaded (world o) = saved /\
    sessions saved = sessions mapping /\ todos saved = todos mapping /\
    (mappingFile w <> None -> gitignore (world o) = gitignore w) /\
    (mappingFile w = None ->
     exists content,
       gitignore (world o) = Some content /\
       listed "opencode-todo-mapping.json" content = true /\
       forall before, gitignore w = Some before -> String.prefix before content = true).
Proof.
  intros mapping w o saved. subst o saved.
  unfold saveMapping, bind, now, accessMappingFile, writeMappingFile, ret.
  destruct (mappingFile w) as [c|] eqn:Hf; cbn [negb].
  - cbn [result world calls fst snd env gitignore mappingFile app].
    split; [done|]. split; [done|]. split; [done|].
    split; [by apply loaded_stringified|]. split; [done|]. split; [done|].
    split; [done|]. intros [=].
  - destruct (ensureGitignoreEntry_entry "opencode-todo-mapping.json" w eq_refl eq_refl)
      as (content & -> & Hlisted & Hbefore).
    cbn [result world calls fst snd env gitignore mappingFile app].
    split; [done|]. split; [done|]. split; [done|].
    split; [by apply loaded_stringified|]. split; [done|]. split; [done|].
    split; [done|]. intros _. exists content. split; [done|]. split; [done|].
    intros before Hg. by apply Hbefore.
Qed.
End Saving.

(** ** One issue at a time *)

Section IssueOps.
Context {E : Type} {platform : Platform E}.

(** X3. [updateBeadsIssue] always returns, whatever the tracker answers,
    and runs exactly one command on the given issue: a status update to
    [open] for a pending todo and to [in_progress] for one in progress,
    a close with reason [Completed] for a completed todo and with reason
    [Cancelled in OpenCode] for a cancelled one.  Nothing but the
    tracker changes. *)
Theorem updateBeadsIssue_one_call :
  forall (beadsID : string) (todo : TodoItem.t) (w : World E),
    let o := updateBeadsIssue beadsID todo w in
    let m := match TodoItem.status todo with
             | pending => UpdateStatus beadsID "open"
             | in_progress => UpdateStatus beadsID "in_progress"
             | completed => Close beadsID "Completed"
             | cancelled => Close beadsID "Cancelled in OpenCode"
             end in
    result o = inr tt /\
    calls o = [Mutate m (bd_quiet m (env w)).1] /\
    world o = withEnv (bd_quiet m (env w)).2 w.
Proof.
  intros b todo w o m. subst o m. unfold updateBeadsIssue.
  destruct (TodoItem.status todo); cbn [STATUS_TO_BEADS]; run_async;
    destruct (bd_quiet _ (env w)) as [[e|[]] env']; done.
Qed.

(** X4. [createBeadsIssue] leaves both files alone and runs one create
    with the todo's arguments, followed by at most one command on the
    new issue.  A rejected create throws the module's error with no
    further call; a pending todo needs no second command; for any other
    status the second command is a status update (in progress) or a
    close (completed, cancelled), and when that command is rejected the
    function throws although the issue was created, so the new id never
    reaches the caller. *)
Theorem createBeadsIssue_outcome :
  forall (sessionIssueID : string) (todo : TodoItem.t) (w : World E),
    let o := createBeadsIssue sessionIssueID todo w in
    let args := todoArgs sessionIssueID todo in
    let failure := fun err =>
      Js.newError ("Failed to create beads issue for todo "
                   +:+ TodoItem.id todo +:+ ": " +:+ Js.toString err) in
    let followUp := fun id =>
      if decide (TodoItem.status todo = in_progress) then UpdateStatus id "in_progress"
      else Close id (closeReason (TodoItem.status todo)) in
    mappingFile (world o) = mappingFile w /\
    gitignore (world o) = gitignore w /\
    ((exists err, calls o = [Create args (inl err)] /\ result o = inl (failure err)) \/
     (exists issue,
        TodoItem.status todo = pending /\
        calls o = [Create args (inr issue)] /\ result o = inr (BeadsIssue.id issue)) \/
     (exists issue reply,
        TodoItem.status todo <> pending /\
        calls o = [Create args (inr issue); Mutate (followUp (BeadsIssue.id issue)) reply] /\
        result o = match reply with
                   | inr _ => inr (BeadsIssue.id issue)
                   | inl err => inl (failure err)
                   end)).
Proof.
  intros epic todo w o args failure followUp. subst o args failure followUp.
  split; [apply keepsFiles_createBeadsIssue|]. split; [apply keepsFiles_createBeadsIssue|].
  unfold createBeadsIssue. run_async.
  destruct (bd_create (todoArgs epic todo) (env w)) as [[err|issue] e1]; simpl.
  - left. by exists err.
  - right. destruct (TodoItem.status todo) eqn:Hs; simpl.
    + left. by exists issue.
    + right. exists issue. destruct (bd_quiet _ e1) as [[err|[]] e2]; simpl.
      * exists (inl err). done.
      * exists (inr tt). done.
    + right. exists issue. destruct (bd_quiet _ e1) as [[err|[]] e2]; simpl.
      * exists (inl err). done.
      * exists (inr tt). done.
    + right. exists issue. destruct (bd_quiet _ e1) as [[err|[]] e2]; simpl.
      * exists (inl err). done.
      * exists (inr tt). done.
Qed.
End IssueOps.

(** ** What a pass leaves in the mapping *)

Section PassFrame.
Context {E : Type} {platform : Platform E}.

Lemma todos_withTodoMap_ne s s' tm m :
  s <> s' -> Obj.get s' (todos (withTodoMap s tm m)) = Obj.get s' (todos m).
Proof. intros Hne. unfold withTodoMap. simpl. by apply get_set_ne. Qed.

Lemma todos_ensureTodoMap_ne s s' m :
  s <> s' -> Obj.get s' (todos (ensureTodoMap s m)) = Obj.get s' (todos m).
Proof.
  intros Hne. unfold ensureTodoMap. destruct (Obj.get s (todos m)); [done|].
  by apply todos_withTodoMap_ne.
Qed.

Lemma get_set_kept {V} k k' (v : V) o :
  Obj.get k o <> None -> Obj.get k (Obj.set k' v o) <> None.
Proof.
  intros Hk. destruct (decide (k' = k)) as [->|Hne].
  - by rewrite get_set_eq.
  - by rewrite get_set_ne.
Qed.

(** The session step: what it returns records the session issue, and it
    touches no other session. *)
Lemma sessionStep_frame s m (w : World E) epic m1 :
  result (getOrCreateSessionIssue s m w) = inr (epic, m1) ->
  Obj.get s (sessions m1) = Some epic /\
  (forall s', s <> s' -> Obj.get s' (sessions m1) = Obj.get s' (sessions m)) /\
  (forall s', s <> s' -> Obj.get s' (todos m1) = Obj.get s' (todos m)).
Proof.
  destruct (lookupFinds s m w) eqn:Hfinds.
  - destruct (getOrCreateSessionIssue_found s m w Hfinds) as (recorded & reply & Hrec & -> & _).
    cbn [result fst]. intros [= <- <-]. apply present_Some in Hrec as [Hrec _]. done.
  - destruct (getOrCreateSessionIssue_lost s m w Hfinds)
      as (before & args & reply & _ & _ & _ & _ & _ & Hreply & _).
    destruct reply as [err|issue].
    + destruct Hreply as [-> _]. done.
    + destruct Hreply as (saved & -> & Hs & Ht & _). intros [= <- <-].
      rewrite Hs, Ht. split; [apply get_set_eq|].
      split; intros s' Hne; by apply get_set_ne.
Qed.

Lemma todoLoop_others s epic items :
  forall m seen (w : World E) m2 seen2,
    result (forOf (syncTodo s epic) items (m, seen) w) = inr (m2, seen2) ->
    lastSync m2 = lastSync m /\
    (forall s', s <> s' -> Obj.get s' (todos m2) = Obj.get s' (todos m)) /\
    (forall k, Obj.get k (todoMapOf s m) <> None -> Obj.get k (todoMapOf s m2) <> None) /\
    (forall todo, In todo items -> Obj.get (TodoItem.id todo) (todoMapOf s m2) <> None).
Proof.
  induction items as [|todo rest IH]; intros m seen w m2 seen2.
  { simpl. intros [= <- <-]. done. }
  cbn [forOf]. rewrite bind_run.
  destruct (Js.present (Obj.get (TodoItem.id todo) (todoMapOf s m))) as [b0|] eqn:Hp.
  - rewrite (syncTodo_mapped _ _ _ _ _ _ _ Hp). cbn [result world calls fst snd].
    intros Hres. apply IH in Hres as (Hl & Hothers & Hkept & Hrec).
    split; [done|]. split; [done|]. split; [done|].
    intros todo' [<-|Hin]; [|by apply Hrec].
    apply Hkept. apply present_Some in Hp as [-> _]. done.
  - rewrite (syncTodo_unmapped _ _ _ _ _ _ Hp).
    destruct (result (createBeadsIssue epic todo w)) as [e|b]; [done|].
    cbn [result world calls fst snd].
    intros Hres. apply IH in Hres as (Hl & Hothers & Hkept & Hrec).
    rewrite todoMapOf_withTodoMap in Hkept.
    split; [done|]. split; [|split].
    + intros s' Hne. rewrite Hothers by done. by apply todos_withTodoMap_ne.
    + intros k Hk. apply Hkept. by apply get_set_kept.
    + intros todo' [<-|Hin]; [|by apply Hrec].
      apply Hkept. by rewrite get_set_eq.
Qed.

Lemma removalLoop_others s (seen : gset string) entries :
  forall m (w : World E) m3,
    result (forOf (dropRemoved s seen) entries m w) = inr m3 ->
    lastSync m3 = lastSync m /\
    (forall s', s <> s' -> Obj.get s' (todos m3) = Obj.get s' (todos m)).
Proof.
  induction entries as [|[t b] entries IH]; intros m w m3.
  { simpl. intros [= <-]. done. }
  cbn [forOf]. rewrite bind_run. destruct (decide (t ∈ seen)) as [Hseen|Hunseen].
  - rewrite dropRemoved_seen by done. cbn [result world calls fst snd app]. apply IH.
  - rewrite dropRemoved_unseen by done. cbn [result world calls fst snd].
    intros Hres. apply IH in Hres as [Hl Hothers]. split; [done|].
    intros s' Hne. rewrite Hothers by done. by apply todos_withTodoMap_ne.
Qed.

(** What a pass that returns has saved, in terms of the mapping it
    loaded. *)
Lemma syncTodosToBeads_saved s items (w : World E) :
  result (syncTodosToBeads s items w) = inr tt ->
  exists epic m1 saved,
    result (sessionStep s w) = inr (epic, m1) /\
    persisted (world (syncTodosToBeads s items w)) = Some saved /\
    lastSync saved = Date_now (env (world (syncTodosToBeads s items w))) /\
    sessions saved = sessions m1 /\
    Obj.get s (todos saved) <> None /\
    (forall s', s <> s' -> Obj.get s' (todos saved) = Obj.get s' (todos m1)) /\
    (forall k, Obj.get k (todoMapOf s saved) <> None <-> In k (ids items)).
Proof.
  intros Hret. destruct (syncTodosToBeads_returns s items w Hret)
    as (epic & m1 & m2 & m3 & H). cbv zeta in H.
  destruct H as (H1 & H2 & H3 & _ & Hworld & Hsaved).
  exists epic, m1, (withLastSync (Date_now (env (world (closingStep epic items
    (world (removalStep s (list_to_set (ids items) ∪ ∅) m2
       (world (todoStep s epic items m1 (world (sessionStep s w)))))))))) m3).
  split; [done|]. split; [done|].
  split; [rewrite Hworld, saveMapping_env; done|].
  unfold todoStep in H2.
  pose proof (todoLoop_frame _ _ _ _ _ _ _ _ H2) as (Hs2 & _ & Ht2 & _ & Hout2 & _).
  pose proof (todoLoop_others _ _ _ _ _ _ _ _ H2) as (_ & Ho2 & _ & Hrec2).
  unfold removalStep in H3.
  pose proof (removalLoop_others _ _ _ _ _ _ H3) as (_ & Ho3).
  match type of H3 with result (forOf _ ?es ?m ?w') = _ =>
    destruct (removalLoop s (list_to_set (ids items) ∪ ∅) es m w')
      as (m3' & Hres & Hs3 & Ht3 & Hin3 & Hgone3 & Hout3 & _) end.
  rewrite H3 in Hres. injection Hres as <-.
  split; [cbn; rewrite Hs3, Hs2; apply sessions_ensureTodoMap|].
  split; [cbn; apply Ht3, Ht2, todos_ensureTodoMap|].
  split.
  - intros s' Hne. cbn [withLastSync todos]. rewrite Ho3, Ho2 by done.
    by apply todos_ensureTodoMap_ne.
  - intros k. rewrite todoMapOf_withLastSync. split.
    + intros Hk. destruct (in_dec String.string_dec k (ids items)) as [Hin|Hout]; [done|].
      exfalso. apply Hk.
      assert (k ∉ (list_to_set (ids items) ∪ ∅ : gset string)) as Hunseen.
      { rewrite elem_of_union, elem_of_list_to_set, list_elem_of_In. set_solver. }
      destruct (Obj.get k (todoMapOf s m2)) as [v|] eqn:Hk2.
      * apply Hgone3; [done|]. by eapply get_keys.
      * rewrite Hout3; [done|done|]. by apply get_None_keys.
    + intros Hin. apply in_map_iff in Hin as (todo & <- & Hin).
      rewrite Hin3.
      * by apply Hrec2.
      * rewrite elem_of_union, elem_of_list_to_set, list_elem_of_In. left.
        apply in_map_iff. by exists todo.
Qed.

Lemma loaded_ext (w1 w2 : World E) : mappingFile w1 = mappingFile w2 -> loaded w1 = loaded w2.
Proof.
  intros Hf. unfold loaded, loadMapping, tryCatch, bind, readMappingFile, JSON_parse, result.
  rewrite Hf. destruct (mappingFile w2) as [[text|m]|]; simpl; try done.
  by destruct (JSON_parse_text text).
Qed.

(** Whatever the session step does, a load afterwards sees the other
    sessions as a load before did. *)
Lemma sessionStep_loaded s (w : World E) other :
  s <> other ->
  Obj.get other (sessions (loaded (world (sessionStep s w))))
    = Obj.get other (sessions (loaded w)) /\
  Obj.get other (todos (loaded (world (sessionStep s w))))
    = Obj.get other (todos (loaded w)).
Proof.
  intros Hne. unfold sessionStep. destruct (lookupFinds s (loaded w) w) eqn:Hfinds.
  - destruct (getOrCreateSessionIssue_found s _ w Hfinds) as (recorded & reply & _ & -> & _).
    cbn [world fst snd]. by rewrite (loaded_ext (withEnv _ w) w).
  - destruct (getOrCreateSessionIssue_lost s _ w Hfinds)
      as (before & args & reply & _ & _ & _ & _ & _ & Hreply & _).
    destruct reply as [err|issue].
    + destruct Hreply as [_ Hfile]. by rewrite (loaded_ext _ w Hfile).
    + destruct Hreply as (saved & _ & Hs & Ht & Hsaved).
      rewrite (loaded_persisted _ _ Hsaved), Hs, Ht.
      split; by apply get_set_ne.
Qed.

(** X5. A reconcile pass for one session, whether it returns or throws,
    leaves every other session of the mapping as it was: a load after
    the pass finds the same session issue and the same todo map for any
    other session id as a load before it. *)
Theorem reconcile_leaves_other_sessions :
  forall (sessionID other : string) (items : list TodoItem.t) (w : World E),
    let o := syncTodosToBeads sessionID items w in
    other <> sessionID ->
    Obj.get other (sessions (loaded (world o))) = Obj.get other (sessions (loaded w)) /\
    Obj.get other (todos (loaded (world o))) = Obj.get other (todos (loaded w)) /\
    todoMapOf other (loaded (world o)) = todoMapOf other (loaded w).
Proof.
  intros s other items w o Hne. subst o.
  assert (s <> other) as Hne' by congruence.
  enough (Obj.get other (sessions (loaded (world (syncTodosToBeads s items w))))
            = Obj.get other (sessions (loaded w)) /\
          Obj.get other (todos (loaded (world (syncTodosToBeads s items w))))
            = Obj.get other (todos (loaded w))) as [Hs Ht].
  { split; [done|]. split; [done|]. unfold todoMapOf. by rewrite Ht. }
  destruct (sessionStep_loaded s w other Hne') as [Hs1 Ht1].
  destruct (result (syncTodosToBeads s items w)) as [e|[]] eqn:Hres.
  - rewrite syncTodosToBeads_run in Hres |- *. cbv zeta in Hres |- *.
    destruct (result (sessionStep s w)) as [e1|[epic m1]] eqn:H1; [done|].
    destruct (result (todoStep s epic items m1 (world (sessionStep s w))))
      as [e2|[m2 seen]] eqn:H2.
    + cbn [world fst snd].
      rewrite (loaded_ext _ (world (sessionStep s w))); [done|].
      unfold todoStep. apply keepsFiles_forOf. intros x st. apply keepsFiles_syncTodo.
    + destruct (removalStep_returns s seen m2
                  (world (todoStep s epic items m1 (world (sessionStep s w))))) as [m3 H3].
      rewrite H3 in Hres. done.
  - destruct (syncTodosToBeads_saved s items w Hres)
      as (epic & m1 & saved & H1 & Hsaved & _ & Hs & _ & Ht & _).
    rewrite (loaded_persisted _ _ Hsaved).
    destruct (sessionStep_frame s (loaded w) w epic m1 H1) as (_ & Hs' & Ht').
    rewrite Hs, Ht by done. split; [by apply Hs'|by apply Ht'].
Qed.

(** X6. For a session id and todo ids that name no member of
    [Object.prototype]: when a reconcile pass returns, the mapping on
    disk is the one a later load yields; its [lastSync] is the clock
    reading at the end of the pass; it records for the session the issue
    id the session step returned; and the keys of the session's todo map
    are exactly the ids of the todos in the list. *)
Theorem reconcile_saves_the_list :
  forall (sessionID : string) (items : list TodoItem.t) (w : World E),
    let o := syncTodosToBeads sessionID items w in
    Obj.inherited sessionID = false ->
    Forall (fun todo => Obj.inherited (TodoItem.id todo) = false) items ->
    result o = inr tt ->
    exists epic m1 saved,
      result (sessionStep sessionID w) = inr (epic, m1) /\
      persisted (world o) = Some saved /\
      loaded (world o) = saved /\
      lastSync saved = Date_now (env (world o)) /\
      Obj.get sessionID (sessions saved) = Some epic /\
      Obj.get sessionID (todos saved) <> None /\
      (forall todoID, Obj.get todoID (todoMapOf sessionID saved) <> None <-> In todoID (ids items)).
Proof.
  intros s items w o _ _ Hres. subst o.
  destruct (syncTodosToBeads_saved s items w Hres)
    as (epic & m1 & saved & H1 & Hsaved & Hl & Hs & Ht & _ & Hk).
  exists epic, m1, saved. split; [done|]. split; [done|].
  split; [by apply loaded_persisted|]. split; [done|].
  split; [|done]. rewrite Hs.
  by destruct (sessionStep_frame s (loaded w) w epic m1 H1) as (Hepic & _).
Qed.
End PassFrame.

Lemma reconcile_leaves_other_sessions_witness :
  let w := world (syncTodosToBeads "ses_2" [Demo.todoB pending] (Demo.start true)) in
  let o := syncTodosToBeads "ses_1" [Demo.todoA pending] w in
  (Obj.get "ses_2" (sessions (loaded (world o))) = Obj.get "ses_2" (sessions (loaded w)) /\
   Obj.get "ses_2" (todos (loaded (world o))) = Obj.get "ses_2" (todos (loaded w)) /\
   todoMapOf "ses_2" (loaded (world o)) = todoMapOf "ses_2" (loaded w)) /\
  todoMapOf "ses_2" (loaded w) = [("B", "bd-2")].
Proof.
  split; [|vm_compute; reflexivity].
  apply (@reconcile_leaves_other_sessions Demo.Tracker Demo.platform "ses_1" "ses_2"
           [Demo.todoA pending]
           (world (syncTodosToBeads "ses_2" [Demo.todoB pending] (Demo.start true)))).
  discriminate.
Defined.

Lemma reconcile_saves_the_list_witness :
  let o := syncTodosToBeads "ses_1" [Demo.todoA pending; Demo.todoB completed]
             (Demo.start true) in
  exists epic m1 saved,
    result (sessionStep "ses_1" (Demo.start true)) = inr (epic, m1) /\
    persisted (world o) = Some saved /\
    loaded (world o) = saved /\
    lastSync saved = Date_now (env (world o)) /\
    Obj.get "ses_1" (sessions saved) = Some epic /\
    Obj.get "ses_1" (todos saved) <> None /\
    (forall todoID, Obj.get todoID (todoMapOf "ses_1" saved) <> None
                    <-> In todoID (ids [Demo.todoA pending; Demo.todoB completed])).
Proof.
  apply (@reconcile_saves_the_list Demo.Tracker Demo.platform "ses_1"
           [Demo.todoA pending; Demo.todoB completed] (Demo.start true)).
  - reflexivity.
  - repeat constructor.
  - vm_compute. reflexivity.
Defined.

(** ** The commands of a pass *)

Section Commands.
Context {E : Type} {platform : Platform E}.
Local Abbreviation M := (Async E).


Lemma append_inj_l (p a b : string) : p +:+ a = p +:+ b -> a = b.
Proof.
  induction p as [|c p IH]; [done|].
  change (String c (p +:+ a) = String c (p +:+ b) -> a = b). intros [= H]. by apply IH.
Qed.

(** A todo with a recorded issue is not created again while the loop
    runs, whatever the outcome. *)
Lemma todoLoop_no_recreate s epic items k b :
  forall m seen (w : World E),
    Js.present (Obj.get k (todoMapOf s m)) = Some b ->
    Forall (fun c => forall args r, c = Create args r ->
                       c_description args <> "OpenCode todo ID: " +:+ k)
           (calls (forOf (syncTodo s epic) items (m, seen) w)).
Proof.
  induction items as [|todo rest IH]; intros m seen w Hk; [constructor|].
  cbn [forOf]. rewrite bind_run.
  destruct (Js.present (Obj.get (TodoItem.id todo) (todoMapOf s m))) as [b0|] eqn:Hp.
  - rewrite (syncTodo_mapped _ _ _ _ _ _ _ Hp). cbn [result world calls fst snd].
    apply Forall_app. split; [|by apply IH].
    rewrite updateBeadsIssue_run. cbn. by repeat constructor.
  - assert (TodoItem.id todo <> k) as Hne by (intros Heq; rewrite Heq in Hp; congruence).
    assert (Forall (fun c => forall args r, c = Create args r ->
                       c_description args <> "OpenCode todo ID: " +:+ k)
              (calls (createBeadsIssue epic todo w))) as Hcreate.
    { apply callsAll_createBeadsIssue.
      - intros r args r' [= <- _]. cbn. intros Heq. by apply append_inj_l in Heq.
      - intros id r args r'. done. }
    rewrite (syncTodo_unmapped _ _ _ _ _ _ Hp).
    destruct (result (createBeadsIssue epic todo w)) as [e|b1]; [done|].
    cbn [result world calls fst snd]. apply Forall_app. split; [done|].
    apply IH. rewrite todoMapOf_withTodoMap. by rewrite get_set_ne.
Qed.

(** A todo of the list with a recorded issue gets its update. *)
Lemma todoLoop_updates s epic items todo b :
  forall m seen (w : World E) m2 seen2,
    result (forOf (syncTodo s epic) items (m, seen) w) = inr (m2, seen2) ->
    In todo items ->
    Js.present (Obj.get (TodoItem.id todo) (todoMapOf s m)) = Some b ->
    exists r, In (Mutate (updateCommand b todo) r)
                 (calls (forOf (syncTodo s epic) items (m, seen) w)).
Proof.
  induction items as [|todo' rest IH]; intros m seen w m2 seen2; [done|].
  cbn [forOf]. rewrite bind_run.
  destruct (Js.present (Obj.get (TodoItem.id todo') (todoMapOf s m))) as [b0|] eqn:Hp.
  - rewrite (syncTodo_mapped _ _ _ _ _ _ _ Hp). cbn [result world calls fst snd].
    intros Hres [->|Hin] Hb.
    + rewrite Hp in Hb. injection Hb as ->. rewrite updateBeadsIssue_run.
      eexists. apply in_or_app. left. by left.
    + destruct (IH _ _ _ _ _ Hres Hin Hb) as [r Hr]. exists r. apply in_or_app. by right.
  - rewrite (syncTodo_unmapped _ _ _ _ _ _ Hp).
    destruct (result (createBeadsIssue epic todo' w)) as [e|b1]; [done|].
    cbn [result world calls fst snd].
    intros Hres [->|Hin] Hb; [congruence|].
    assert (TodoItem.id todo' <> TodoItem.id todo) as Hne by (intros Heq; congruence).
    destruct (IH _ _ _ _ _ Hres Hin) as [r Hr].
    { rewrite todoMapOf_withTodoMap. by rewrite get_set_ne. }
    exists r. apply in_or_app. by right.
Qed.

(** X7. In a pass that returns and finds the recorded session issue, a
    todo of the list that already has a recorded issue is updated in
    place: the pass runs [updateBeadsIssue]'s command on the recorded
    issue, creates no issue for that todo id, and the saved mapping
    still maps the todo to the same issue. *)
Theorem mapped_todo_updated_in_place :
  forall (sessionID : string) (items : list TodoItem.t) (w : World E)
         (todo : TodoItem.t) (beadsID : string),
    let o := syncTodosToBeads sessionID items w in
    result o = inr tt ->
    lookupFinds sessionID (loaded w) w = true ->
    In todo items ->
    Js.present (Obj.get (TodoItem.id todo) (todoMapOf sessionID (loaded w))) = Some beadsID ->
    (exists r, In (Mutate (updateCommand beadsID todo) r) (calls o)) /\
    Forall (fun c => forall args r, c = Create args r ->
                       c_description args <> "OpenCode todo ID: " +:+ TodoItem.id todo)
           (calls o) /\
    exists saved,
      persisted (world o) = Some saved /\
      Obj.get (TodoItem.id todo) (todoMapOf sessionID saved) = Some beadsID.
Proof.
  intros s items w todo b o Hret Hfinds Hin Hb. subst o.
  destruct (syncTodosToBeads_returns s items w Hret) as (epic & m1 & m2 & m3 & H).
  cbv zeta in H. destruct H as (H1 & H2 & H3 & Hcalls & _ & Hsaved).
  assert (m1 = loaded w /\ exists reply, calls (sessionStep s w) = [Show epic reply])
    as [-> [reply Hc1]].
  { unfold sessionStep in *.
    destruct (getOrCreateSessionIssue_found s _ w Hfinds) as (rec & reply & _ & Hrun & _).
    rewrite Hrun in H1 |- *. injection H1 as <- <-. split; [done|]. by exists reply. }
  unfold todoStep in *.
  assert (Js.present (Obj.get (TodoItem.id todo) (todoMapOf s (ensureTodoMap s (loaded w))))
          = Some b) as Hb' by (by rewrite todoMapOf_ensureTodoMap).
  pose proof (todoLoop_frame _ _ _ _ _ _ _ _ H2) as (_ & _ & _ & Hkeep & _).
  unfold removalStep in *.
  match type of H3 with result (forOf _ ?es ?m ?w') = _ =>
    destruct (removalLoop s (list_to_set (ids items) ∪ ∅) es m w')
      as (m3' & Hres & _ & _ & Hin3 & _ & _ & _ & Hnc3 & _) end.
  rewrite H3 in Hres. injection Hres as <-.
  split; [|split].
  - destruct (todoLoop_updates _ _ _ _ _ _ _ _ _ _ H2 Hin Hb') as [r Hr].
    exists r. rewrite Hcalls. apply in_or_app. right. apply in_or_app. by left.
  - rewrite Hcalls, Hc1. rewrite !Forall_app. split; [by repeat constructor|].
    split; [by eapply todoLoop_no_recreate|]. split.
    + eapply Forall_impl; [exact Hnc3|]. intros c Hc args r ->. done.
    + eapply Forall_impl; [apply noCreate_closingStep|]. intros c Hc args r ->. done.
  - eexists. split; [exact Hsaved|]. rewrite todoMapOf_withLastSync, Hin3.
    + by apply Hkeep.
    + rewrite elem_of_union, elem_of_list_to_set, list_elem_of_In. left.
      apply in_map_iff. by exists todo.
Qed.
End Commands.

Lemma mapped_todo_updated_in_place_witness :
  let w := world (syncTodosToBeads "ses_1" [Demo.todoA pending] (Demo.start true)) in
  let o := syncTodosToBeads "ses_1" [Demo.todoA completed] w in
  (exists r, In (Mutate (updateCommand "bd-2" (Demo.todoA completed)) r) (calls o)) /\
  Forall (fun c => forall args r, c = Create args r ->
                     c_description args
                     <> "OpenCode todo ID: " +:+ TodoItem.id (Demo.todoA completed))
         (calls o) /\
  exists saved,
    persisted (world o) = Some saved /\
    Obj.get (TodoItem.id (Demo.todoA completed)) (todoMapOf "ses_1" saved) = Some "bd-2".
Proof.
  apply (@mapped_todo_updated_in_place Demo.Tracker Demo.platform "ses_1"
           [Demo.todoA completed]
           (world (syncTodosToBeads "ses_1" [Demo.todoA pending] (Demo.start true)))
           (Demo.todoA completed) "bd-2").
  - vm_compute. reflexivity.
  - vm_compute. reflexivity.
  - left. reflexivity.
  - vm_compute. reflexivity.
Defined.

(** ** The loop over the recorded pairs, exactly *)

Section RemovalLoop.
Context {E : Type} {platform : Platform E}.

Lemma filter_filter_and {A} (f g : A -> bool) (l : list A) :
  List.filter f (List.filter g l) = List.filter (fun x => g x && f x) l.
Proof.
  induction l as [|x l IH]; [done|]. simpl.
  destruct (g x); simpl; [destruct (f x)|]; by rewrite IH.
Qed.

Lemma keepsFiles_dropRemoved s seen entry m : keepsFiles (dropRemoved s seen entry m : Async E _).
Proof.
  unfold dropRemoved. destruct entry as [t b]. destruct (bool_decide _); [apply keepsFiles_ret|].
  apply keepsFiles_bind; [|intros _; apply keepsFiles_ret].
  apply keepsFiles_tryCatch; [apply keepsFiles_sh_quiet|intros e; apply keepsFiles_ret].
Qed.

Lemma removalLoop_exact s (seen : gset string) entries :
  forall m (w : World E),
    let gone := List.filter (fun e : string * string => negb (bool_decide (e.1 ∈ seen))) entries in
    exists replies m3,
      length replies = length gone /\
      calls (forOf (dropRemoved s seen) entries m w)
        = zip_with (fun e r => Mutate (Close e.2 REMOVED_REASON) r) gone replies /\
      result (forOf (dropRemoved s seen) entries m w) = inr m3 /\
      todoMapOf s m3 =
        List.filter (fun kv => negb (existsb (fun e : string * string => Js.seq e.1 kv.1) gone))
                    (todoMapOf s m).
Proof.
  induction entries as [|[t b] entries IH]; intros m w gone; subst gone.
  { exists [], m. cbn. split; [done|]. split; [done|]. split; [done|].
    induction (todoMapOf s m) as [|x l IHl]; [done|]. cbn. by rewrite <- IHl. }
  cbn [forOf List.filter fst]. rewrite bind_run.
  destruct (decide (t ∈ seen)) as [Hseen|Hunseen].
  - rewrite dropRemoved_seen by done. rewrite bool_decide_eq_true_2 by done.
    cbn [result world calls fst snd app negb].
    destruct (IH m w) as (replies & m3 & Hlen & Hcalls & Hres & Hmap).
    exists replies, m3. done.
  - rewrite dropRemoved_unseen by done. rewrite bool_decide_eq_false_2 by done.
    cbn [result world calls fst snd negb].
    set (m1 := withTodoMap s (Obj.delete t (todoMapOf s m)) m).
    set (w1 := withEnv _ w).
    destruct (IH m1 w1) as (replies & m3 & Hlen & Hcalls & Hres & Hmap).
    exists ((bd_quiet (Close b REMOVED_REASON) (env w)).1 :: replies), m3.
    split; [cbn; by rewrite Hlen|]. split; [cbn; by rewrite Hcalls|]. split; [done|].
    rewrite Hmap. subst m1. rewrite todoMapOf_withTodoMap. unfold Obj.delete.
    rewrite filter_filter_and. apply filter_ext. intros [k v]. cbn.
    by rewrite negb_orb.
Qed.

(** X9. The second loop of a pass, for any set of seen todo ids: it
    always returns; its commands are exactly one close with reason
    [Todo removed from OpenCode] for each recorded pair whose todo id
    was not seen, in the order of the entries, and a rejected close does
    not stop it; the session's todo map it returns holds exactly the
    pairs that were seen, in their order; the recorded session issues
    and both files are untouched. *)
Theorem removal_closes_each_unseen_pair :
  forall (sessionID : string) (seen : gset string) (mapping : TodoBeadsMapping) (w : World E),
    let o := removalStep sessionID seen mapping w in
    let entries := Obj.entries (todoMapOf sessionID mapping) in
    let gone := List.filter (fun e => negb (bool_decide (e.1 ∈ seen))) entries in
    exists replies m3,
      length replies = length gone /\
      calls o = zip_with (fun e r => Mutate (Close e.2 REMOVED_REASON) r) gone replies /\
      result o = inr m3 /\
      todoMapOf sessionID m3 = List.filter (fun e => bool_decide (e.1 ∈ seen)) entries /\
      sessions m3 = sessions mapping /\
      mappingFile (world o) = mappingFile w /\ gitignore (world o) = gitignore w.
Proof.
  intros s seen m w o entries gone. subst o entries gone. unfold removalStep, Obj.entries.
  destruct (removalLoop_exact s seen (todoMapOf s m) m w)
    as (replies & m3 & Hlen & Hcalls & Hres & Hmap). cbv zeta in *.
  exists replies, m3. split; [done|]. split; [done|]. split; [done|].
  split; [|split].
  - rewrite Hmap. apply filter_ext_in. intros [k v] Hin. cbn.
    destruct (decide (k ∈ seen)) as [Hseen|Hunseen].
    + rewrite bool_decide_eq_true_2 by done.
      apply negb_true_iff, not_true_iff_false. intros Hex.
      apply existsb_exists in Hex as ([k' v'] & Hin' & Heq).
      apply filter_In in Hin' as [_ Hk']. cbn in *. apply seq_true in Heq. subst k'.
      by rewrite bool_decide_eq_true_2 in Hk'.
    + rewrite bool_decide_eq_false_2 by done.
      apply negb_false_iff, existsb_exists. exists (k, v). split; [|apply seq_refl].
      apply filter_In. split; [done|]. cbn. by rewrite bool_decide_eq_false_2.
  - destruct (removalLoop s seen (todoMapOf s m) m w) as (m3' & Hres' & Hs & _).
    unfold Obj.entries in *. rewrite Hres in Hres'. by injection Hres' as <-.
  - apply keepsFiles_forOf. intros x st. apply keepsFiles_dropRemoved.
Qed.
End RemovalLoop.

(** ** Reading back, in general *)

Section ReadBack.
Context {E : Type} {platform : Platform E}.

Lemma recovered_id todoID reply t : recovered todoID reply = Some t -> TodoItem.id t = todoID.
Proof.
  unfold recovered. destruct reply as [err|[issue|issues]]; try done.
  destruct (Js.truthy _); [|done]. by intros [= <-].
Qed.

Lemma recovered_sublist (entries : list (string * string)) :
  forall replies : list (Js.Error + Json),
    sublist (ids (omap (fun er => recovered er.1.1 er.2) (zip entries replies)))
            (map fst entries).
Proof.
  induction entries as [|[t b] entries IH]; intros [|reply replies]; cbn.
  - constructor.
  - constructor.
  - apply sublist_nil_l.
  - destruct (recovered t reply) as [item|] eqn:Hr; cbn.
    + rewrite (recovered_id _ _ _ Hr). apply sublist_skip, IH.
    + apply sublist_cons, IH.
Qed.

Lemma sublist_In {A} (l1 l2 : list A) x : sublist l1 l2 -> In x l1 -> In x l2.
Proof.
  induction 1 as [|y l1 l2 _ IH|y l1 l2 _ IH]; [done| |].
  - intros [->|Hin]; [by left|right; by apply IH].
  - intros Hin. right. by apply IH.
Qed.

Lemma keepsFiles_readEntry entry acc : keepsFiles (readEntry entry acc : Async E _).
Proof.
  unfold readEntry. destruct entry as [t b].
  apply keepsFiles_tryCatch; [|intros e; apply keepsFiles_ret].
  apply keepsFiles_bind; [apply keepsFiles_sh_show|].
  intros [issue|issues]; [destruct (Js.truthy _)|]; apply keepsFiles_ret.
Qed.

Lemma readTodosFromBeads_sublist s (w : World E) :
  exists items,
    result (readTodosFromBeads s w) = inr items /\
    sublist (ids items) (map fst (Obj.entries (todoMapOf s (loaded w)))) /\
    Forall (fun c => isShow c = true) (calls (readTodosFromBeads s w)) /\
    (length (calls (readTodosFromBeads s w))
     <= length (Obj.entries (todoMapOf s (loaded w))))%nat /\
    mappingFile (world (readTodosFromBeads s w)) = mappingFile w /\
    gitignore (world (readTodosFromBeads s w)) = gitignore w.
Proof.
  unfold readTodosFromBeads. rewrite bind_run, loadMapping_run.
  cbn [result world calls fst snd app].
  destruct (Js.present (Obj.get s (sessions (loaded w)))) as [epic|].
  - set (entries := Obj.entries (todoMapOf s (loaded w))).
    destruct (readLoop_run entries [] w) as (replies & Hlen & Hcalls & Hres & _).
    eexists. split; [exact Hres|]. split; [apply recovered_sublist|].
    split; [|split].
    + rewrite Hcalls. clear. revert replies.
      induction entries as [|e entries IH]; intros [|r replies]; cbn; constructor; [done|].
      apply IH.
    + rewrite Hcalls, length_zip_with. lia.
    + apply keepsFiles_forOf. intros x st. apply keepsFiles_readEntry.
  - exists []. cbn. split; [done|]. split; [apply sublist_nil_l|].
    split; [constructor|]. split; [lia|done].
Qed.

(** X10. On a store that is missing, is not JSON or was written by
    [saveMapping], [readTodosFromBeads] returns; it only runs show
    commands, at most one per recorded pair of the session; the ids of
    the todos it returns are a sublist of the recorded todo ids, in
    their order; and both files, hence what a later load yields, are as
    before. *)
Theorem readTodosFromBeads_read_only :
  forall (sessionID : string) (w : World E),
    let o := readTodosFromBeads sessionID w in
    let entries := Obj.entries (todoMapOf sessionID (loaded w)) in
    ownStore w ->
    (exists items, result o = inr items /\ sublist (ids items) (map fst entries)) /\
    Forall (fun c => isShow c = true) (calls o) /\
    (length (calls o) <= length entries)%nat /\
    mappingFile (world o) = mappingFile w /\
    gitignore (world o) = gitignore w /\
    loaded (world o) = loaded w.
Proof.
  intros s w o entries _. subst o entries.
  destruct (readTodosFromBeads_sublist s w) as (items & Hres & Hsub & Hshow & Hlen & Hf & Hg).
  split; [by exists items|]. split; [done|]. split; [done|]. split; [done|]. split; [done|].
  by apply loaded_ext.
Qed.

(** X11. Reading back after a pass that returned: the reader returns,
    every todo it yields has the id of a todo of the list just
    reconciled, and after a pass over the empty list it yields none. *)
Theorem recover_after_reconcile :
  forall (sessionID : string) (items : list TodoItem.t) (w : World E),
    let o := syncTodosToBeads sessionID items w in
    result o = inr tt ->
    exists back,
      result (readTodosFromBeads sessionID (world o)) = inr back /\
      (forall todoID, In todoID (ids back) -> In todoID (ids items)) /\
      (items = [] -> back = []).
Proof.
  intros s items w o Hret. subst o.
  destruct (syncTodosToBeads_saved s items w Hret)
    as (epic & m1 & saved & _ & Hsaved & _ & _ & _ & _ & Hkeys).
  destruct (readTodosFromBeads_sublist s (world (syncTodosToBeads s items w)))
    as (back & Hres & Hsub & _).
  rewrite (loaded_persisted _ _ Hsaved) in Hsub.
  assert (forall k, In k (ids back) -> In k (ids items)) as Hincl.
  { intros k Hin. apply Hkeys. apply (sublist_In _ _ _ Hsub) in Hin.
    apply in_map_iff in Hin as ([k' v] & Hk & Hin). cbn in Hk. subst k'.
    apply entries_get in Hin as [v' ->]. done. }
  exists back. split; [done|]. split; [done|].
  intros ->. destruct back as [|t back]; [done|]. destruct (Hincl (TodoItem.id t)). by left.
Qed.
End ReadBack.

Lemma readTodosFromBeads_read_only_witness :
  let w := world (syncTodosToBeads "ses_1" [Demo.todoA pending; Demo.todoB completed]
                    (Demo.start false)) in
  let o := readTodosFromBeads "ses_1" w in
  (exists items,
     result o = inr items /\
     sublist (ids items) (map fst (Obj.entries (todoMapOf "ses_1" (loaded w))))) /\
  ids (match result o with inr items => items | inl _ => [] end) = ["A"; "B"] /\
  mappingFile (world o) = mappingFile w.
Proof.
  pose proof (@readTodosFromBeads_read_only Demo.Tracker Demo.platform "ses_1"
                (world (syncTodosToBeads "ses_1" [Demo.todoA pending; Demo.todoB completed]
                          (Demo.start false))) I) as (Hitems & _ & _ & Hfile & _).
  split; [exact Hitems|]. split; [vm_compute; reflexivity|exact Hfile].
Defined.

Lemma recover_after_reconcile_witness :
  let o := syncTodosToBeads "ses_1" [Demo.todoA pending; Demo.todoB in_progress]
             (Demo.start false) in
  (exists back,
     result (readTodosFromBeads "ses_1" (world o)) = inr back /\
     (forall todoID, In todoID (ids back)
                     -> In todoID (ids [Demo.todoA pending; Demo.todoB in_progress])) /\
     ([Demo.todoA pending; Demo.todoB in_progress] = [] -> back = [])) /\
  result (readTodosFromBeads "ses_1" (world o))
  = inr [Demo.todoA pending; Demo.todoB in_progress].
Proof.
  split; [|vm_compute; reflexivity].
  apply (@recover_after_reconcile Demo.Tracker Demo.platform "ses_1"
           [Demo.todoA pending; Demo.todoB in_progress] (Demo.start false)).
  vm_compute. reflexivity.
Defined.

(** ** A todo there and back *)

(** X12. A todo whose priority is one of the three names survives the
    trip through the tracker: an issue that carries the title and
    priority [createBeadsIssue] sends, the status the todo's status
    translates to and, for a completed or cancelled todo, the close
    reason in its notes, is turned by [beadsIssueToTodo] into the very
    same todo, whatever its other fields are. *)
Theorem todo_round_trip :
  forall (sessionIssueID : string) (todo : TodoItem.t)
         (id ty : string) (description notes : option string),
    TodoItem.priority todo = "high" \/ TodoItem.priority todo = "medium" \/
    TodoItem.priority todo = "low" ->
    let args := todoArgs sessionIssueID todo in
    exists p : Z,
      c_priority args = Number p /\
      beadsIssueToTodo (TodoItem.id todo)
        (BeadsIssue.mk id (c_title args) description
           (STATUS_TO_BEADS (TodoItem.status todo)) p ty
           (if isTerminal todo then Some (closeReason (TodoItem.status todo)) else notes))
      = todo.
Proof.
  intros epic [tid content status priority] id ty d notes Hp. cbn in Hp |- *.
  unfold beadsIssueToTodo, isTerminal. cbn.
  destruct Hp as [->| [->| ->]]; eexists; (split; [reflexivity|]);
    destruct status; reflexivity.
Qed.

Lemma todo_round_trip_witness :
  exists p : Z,
    c_priority (todoArgs "bd-1" (Demo.todoA cancelled)) = Number p /\
    beadsIssueToTodo "A"
      (BeadsIssue.mk "bd-2" "write the parser" None "closed" p "task"
         (Some "Cancelled in OpenCode"))
    = Demo.todoA cancelled.
Proof.
  apply (todo_round_trip "bd-1" (Demo.todoA cancelled) "bd-2" "task" None None).
  left. reflexivity.
Defined.

(** ** The session step inside a pass *)

Section FreshProject.
Context {E : Type} {platform : Platform E}.






Lemma getOrCreateSessionIssue_failed s m (w : World E) e :
  result (getOrCreateSessionIssue s m w) = inl e ->
  mappingFile (world (getOrCreateSessionIssue s m w)) = mappingFile w /\
  gitignore (world (getOrCreateSessionIssue s m w)) = gitignore w.
Proof.
  unfold getOrCreateSessionIssue. rewrite bind_run.
  destruct (keepsFiles_lookupSessionIssue s m w) as [F1 G1].
  destruct (neverThrows_lookupSessionIssue s m w) as [existing Hex]. rewrite Hex.
  set (w1 := world (lookupSessionIssue s m w)) in *.
  destruct existing as [recorded|]; [done|].
  run_async.
  destruct (bd_create _ (env w1)) as [[err|issue] e1]; cbn [fst snd].
  - intros _. done.
  - match goal with |- context [saveMapping ?m' ?w'] =>
      destruct (saveMapping_run m' w') as [g ->] end. done.
Qed.

(** X23. When the session step of a pass throws, the pass stops there:
    its outcome is the session step's, the error is the module's
    [Failed to create session issue], neither file has changed, and the
    commands run are shows followed by the one rejected create of the
    epic; no todo is created, updated or closed. *)
Theorem failed_session_issue_aborts_pass :
  forall (sessionID : string) (items : list TodoItem.t) (w : World E) (e : Js.Error),
    let o := syncTodosToBeads sessionID items w in
    result (sessionStep sessionID w) = inl e ->
    o = (inl e, world (sessionStep sessionID w), calls (sessionStep sessionID w)) /\
    (exists err, e = Js.newError ("Failed to create session issue: " +:+ Js.toString err)) /\
    mappingFile (world o) = mappingFile w /\
    gitignore (world o) = gitignore w /\
    (exists before args err,
       calls o = before ++ [Create args (inl err)] /\
       Forall (fun c => isShow c = true) before /\
       c_type args = "epic" /\ c_parent args = None).
Proof.
  intros s items w e o H1. subst o.
  assert (syncTodosToBeads s items w
          = (inl e, world (sessionStep s w), calls (sessionStep s w))) as ->.
  { rewrite syncTodosToBeads_run. cbv zeta. by rewrite H1. }
  cbn [result world calls fst snd]. split; [done|].
  unfold sessionStep in *.
  destruct (getOrCreateSessionIssue_failed s _ w e H1) as [Hfile Hignore].
  assert (Forall (fun c => isShow c = true \/ isCreate c = true)
            (calls (getOrCreateSessionIssue s (loaded w) w))) as Hshape.
  { apply callsAll_getOrCreateSessionIssue; intros; [by left|by right]. }
  destruct (lookupFinds s (loaded w) w) eqn:Hfinds.
  { destruct (getOrCreateSessionIssue_found s _ w Hfinds) as (rec & reply & _ & Hrun & _).
    by rewrite Hrun in H1. }
  destruct (getOrCreateSessionIssue_lost s _ w Hfinds)
    as (before & args & reply & Hcalls & Hbefore & Hty & _ & Hparent & Hreply & _).
  destruct reply as [err|issue]; [|destruct Hreply as (saved & Hres & _); congruence].
  destruct Hreply as [Hres _]. rewrite Hres in H1. injection H1 as <-.
  split; [by exists err|]. split; [done|]. split; [done|].
  exists before, args, err. split; [done|]. split; [|done].
  rewrite Hcalls in Hshape. apply Forall_app in Hshape as [Hshape _].
  rewrite Forall_forall in Hshape, Hbefore |- *. intros c Hc.
  destruct (Hshape c Hc) as [Hs|Hcr]; [done|]. destruct (Hbefore c Hc) as [Hnc _]. congruence.
Qed.

End FreshProject.

Lemma failed_session_issue_aborts_pass_witness :
  let o := syncTodosToBeads "ses_1" [Demo.todoA pending] Offline.start in
  o = (inl (Js.newError "Failed to create session issue: ShellError: bd: command not found"),
       world (sessionStep "ses_1" Offline.start), calls (sessionStep "ses_1" Offline.start)) /\
  mappingFile (world o) = None /\ gitignore (world o) = None.
Proof.
  destruct (@failed_session_issue_aborts_pass unit Offline.platform "ses_1"
              [Demo.todoA pending] Offline.start
              (Js.newError "Failed to create session issue: ShellError: bd: command not found")
              eq_refl) as (Ho & _ & Hfile & Hignore & _).
  split; [exact Ho|]. split; [exact Hfile|exact Hignore].
Defined.


(** ** The plugin hooks *)

Section PluginHooks.
Import Plugin.
Local Open Scope hook_scope.
Context {H : Type} {client : Host H}.

(** The guard of [injectBeadsContext] is on the trimmed output alone. *)
Lemma blank_guard (out : string) :
  negb (Js.truthy out) || Js.seq (Js.trim out) "" = Js.seq (Js.trim out) "".
Proof.
  unfold Js.truthy. destruct (Js.seq out "") eqn:Hout; [|done].
  apply seq_true in Hout. by subst.
Qed.

Lemma injectBeadsContext_run id context (st : State H) :
  let body := fun out =>
    {| noReply := true;
       body_model := match context with Some c => ctx_model c | None => None end;
       body_agent := match context with Some c => ctx_agent c | None => None end;
       body_parts := [{| type := "text"; text := beadsContext out; synthetic := true |}] |} in
  injectBeadsContext id context st =
  match bd_prime (host st) with
  | (inl err, h1) => (inr tt, withHost h1 st, [Prime (inl err)])
  | (inr out, h1) =>
      if Js.seq (Js.trim out) "" then (inr tt, withHost h1 st, [Prime (inr out)])
      else (inr tt, withHost (session_prompt id (body out) h1).2 st,
            [Prime (inr out);
             Prompt id (body out) (session_prompt id (body out) h1).1])
  end.
Proof.
  intros body. subst body.
  unfold injectBeadsContext, tryCatch, bind, sh_prime, client_session_prompt, ret.
  destruct (bd_prime (host st)) as [[err|out] h1]; cbn [fst snd]; [done|].
  rewrite blank_guard. destruct (Js.seq (Js.trim out) ""); [done|].
  cbn [host withHost fst snd].
  destruct (session_prompt id _ h1) as [[err|[]] h2]; done.
Qed.

Lemma beadsContext_marked (out : string) :
  Js.includes (beadsContext out) "<beads-context>" = true.
Proof. apply includes_prefix. unfold beadsContext. apply prefix_app. Qed.

(** X13. [injectBeadsContext] never throws and leaves the set of injected
    sessions alone.  It runs [bd prime] and then at most one prompt: none
    when [bd prime] fails or prints only white space; otherwise one
    prompt to the session with [noReply], the model and agent of the
    context passed in (none without a context) and a single synthetic
    text part.  The text it sends always contains [<beads-context>]. *)
Theorem injectBeadsContext_outcome :
  forall (id : string) (context : option Context) (st : State H),
    let o := injectBeadsContext id context st in
    let body := fun out =>
      {| noReply := true;
         body_model := match context with Some c => ctx_model c | None => None end;
         body_agent := match context with Some c => ctx_agent c | None => None end;
         body_parts := [{| type := "text"; text := beadsContext out; synthetic := true |}] |} in
    result o = inr tt /\
    injectedSessions (state o) = injectedSessions st /\
    ((exists err, calls o = [Prime (inl err)]) \/
     (exists out, Js.trim out = "" /\ calls o = [Prime (inr out)]) \/
     (exists out reply,
        Js.trim out <> "" /\ calls o = [Prime (inr out); Prompt id (body out) reply])) /\
    (forall out, Js.includes (beadsContext out) "<beads-context>" = true).
Proof.
  intros id context st o body. subst o body. rewrite injectBeadsContext_run. cbv zeta.
  destruct (bd_prime (host st)) as [[err|out] h1].
  - split; [done|]. split; [done|]. split; [|apply beadsContext_marked]. left. by exists err.
  - destruct (Js.seq (Js.trim out) "") eqn:Hblank.
    + split; [done|]. split; [done|]. split; [|apply beadsContext_marked].
      right. left. exists out. by apply seq_true in Hblank.
    + split; [done|]. split; [done|]. split; [|apply beadsContext_marked].
      right. right. eexists out, _. by apply seq_false in Hblank.
Qed.

Lemma firstUserContext_Some (data : list Message) ctx :
  firstUserContext data = Some ctx ->
  ctx_model ctx <> None /\
  exists before msg after,
    data = before ++ msg :: after /\
    role (info msg) = "user" /\
    model (info msg) = ctx_model ctx /\ agent (info msg) = ctx_agent ctx /\
    Forall (fun m => role (info m) <> "user" \/ model (info m) = None) before.
Proof.
  induction data as [|msg data IH]; [done|]. cbn [firstUserContext].
  destruct (Js.seq (role (info msg)) "user") eqn:Hrole; cbn [andb].
  - case_bool_decide as Hmodel.
    + intros [= <-]. cbn. split; [done|]. exists [], msg, data.
      apply seq_true in Hrole. done.
    + intros Hctx. destruct (IH Hctx) as (Hm & before & msg' & after & -> & Hr & Hmo & Ha & Hb).
      split; [done|]. exists (msg :: before), msg', after.
      split; [done|]. split; [done|]. split; [done|]. split; [done|].
      constructor; [|done]. right. destruct (model (info msg)); [|done]. first [done|exfalso; by apply Hmodel].
  - intros Hctx. destruct (IH Hctx) as (Hm & before & msg' & after & -> & Hr & Hmo & Ha & Hb).
    split; [done|]. exists (msg :: before), msg', after.
    split; [done|]. split; [done|]. split; [done|]. split; [done|].
    constructor; [|done]. left. by apply seq_false in Hrole.
Qed.

Lemma firstUserContext_None (data : list Message) :
  firstUserContext data = None ->
  Forall (fun m => role (info m) <> "user" \/ model (info m) = None) data.
Proof.
  induction data as [|msg data IH]; [constructor|]. cbn [firstUserContext].
  destruct (Js.seq (role (info msg)) "user") eqn:Hrole; cbn [andb].
  - case_bool_decide as Hmodel; [done|]. intros Hctx. constructor; [|by apply IH].
    right. destruct (model (info msg)); [|done]. first [done|exfalso; by apply Hmodel].
  - intros Hctx. constructor; [|by apply IH]. left. by apply seq_false in Hrole.
Qed.

Lemma getSessionContext_run id (st : State H) :
  let r := session_messages id (Some 50) (host st) in
  getSessionContext id st =
  (inr (match r.1 with inr (Some data) => firstUserContext data | _ => None end),
   withHost r.2 st, [Messages id (Some 50) r.1]).
Proof.
  cbv zeta. unfold getSessionContext, tryCatch, bind, client_session_messages, ret.
  destruct (session_messages id (Some 50) (host st)) as [[err|[data|]] h1]; done.
Qed.

(** X14. [getSessionContext] never throws and asks once for the session's
    messages with limit 50.  Its result is the model and agent of the
    first message in the reply that is a user message with a model, so a
    returned context always has a model; it is undefined when the query
    fails, carries no data, or no message is a user message with a
    model. *)
Theorem getSessionContext_first_user_model :
  forall (id : string) (st : State H),
    let o := getSessionContext id st in
    (exists reply,
       calls o = [Messages id (Some 50) reply] /\
       result o = inr (match reply with
                       | inr (Some data) => firstUserContext data
                       | _ => None
                       end)) /\
    injectedSessions (state o) = injectedSessions st /\
    (forall data ctx,
       firstUserContext data = Some ctx ->
       ctx_model ctx <> None /\
       exists before msg after,
         data = before ++ msg :: after /\
         role (info msg) = "user" /\
         model (info msg) = ctx_model ctx /\ agent (info msg) = ctx_agent ctx /\
         Forall (fun m => role (info m) <> "user" \/ model (info m) = None) before) /\
    (forall data,
       firstUserContext data = None ->
       Forall (fun m => role (info m) <> "user" \/ model (info m) = None) data).
Proof.
  intros id st o. subst o. rewrite getSessionContext_run. cbv zeta.
  split; [by eexists|]. split; [done|].
  split; [apply firstUserContext_Some|apply firstUserContext_None].
Qed.

Lemma chat_message_skips message (st : State H) :
  sessionID message ∈ injectedSessions st -> chat_message message st = (inr tt, st, []).
Proof.
  intros Hin. unfold chat_message, bind, hasInjected.
  by rewrite bool_decide_eq_true_2.
Qed.

Lemma chat_message_run message (st : State H) :
  sessionID message ∉ injectedSessions st ->
  let id := sessionID message in
  let r := session_messages id None (host st) in
  let found := match r.1 with
               | inr (Some data) => existsb hasBeadsContextParts data
               | _ => false
               end in
  let st1 := {| host := r.2; injectedSessions := {[ id ]} ∪ injectedSessions st |} in
  let o := injectBeadsContext id
             (Some {| ctx_model := message_model message;
                      ctx_agent := message_agent message |}) st1 in
  chat_message message st =
  if found then (inr tt, st1, [Messages id None r.1])
  else (inr tt, state o, Messages id None r.1 :: calls o).
Proof.
  intros Hout. cbv zeta.
  unfold chat_message, bind at 1, hasInjected. rewrite bool_decide_eq_false_2 by done.
  unfold bind at 1, tryCatch, bind at 1, client_session_messages, ret.
  destruct (session_messages (sessionID message) None (host st)) as [[err|[data|]] h1];
    cbn [fst snd app].
  - unfold bind, addInjected. cbn [host withHost injectedSessions].
    rewrite injectBeadsContext_run. cbv zeta. cbn [host].
    destruct (bd_prime h1) as [[e|out] h2]; [done|].
    by destruct (Js.seq (Js.trim out) "").
  - destruct (existsb hasBeadsContextParts data); [done|].
    unfold bind, addInjected. cbn [host withHost injectedSessions].
    rewrite injectBeadsContext_run. cbv zeta. cbn [host].
    destruct (bd_prime h1) as [[e|out] h2]; [done|].
    by destruct (Js.seq (Js.trim out) "").
  - unfold bind, addInjected. cbn [host withHost injectedSessions].
    rewrite injectBeadsContext_run. cbv zeta. cbn [host].
    destruct (bd_prime h1) as [[e|out] h2]; [done|].
    by destruct (Js.seq (Js.trim out) "").
Qed.

(** X15. The [chat.message] hook never throws and always leaves the
    session marked as injected.  It sends at most one prompt, to the
    message's own session, with [noReply] and the message's own model and
    agent; for a session already marked it does nothing at all, so a
    second message of the same session does nothing. *)
Theorem chat_message_injects_once :
  forall (message : UserMessage) (st : State H),
    let o := chat_message message st in
    let id := sessionID message in
    result o = inr tt /\
    injectedSessions (state o) = {[ id ]} ∪ injectedSessions st /\
    (length (List.filter isPrompt (calls o)) <= 1)%nat /\
    Forall (fun c =>
              match c with
              | Messages id' limit _ => id' = id /\ limit = None
              | Prime _ => True
              | Prompt id' body _ =>
                  id' = id /\ noReply body = true /\
                  body_model body = message_model message /\
                  body_agent body = message_agent message
              end) (calls o) /\
    (id ∈ injectedSessions st -> o = (inr tt, st, [])) /\
    (forall again, sessionID again = id ->
                   chat_message again (state o) = (inr tt, state o, [])).
Proof.
  intros message st o id. subst o id.
  destruct (decide (sessionID message ∈ injectedSessions st)) as [Hin|Hout].
  { rewrite chat_message_skips by done. cbn.
    split; [done|]. split; [set_solver|]. split; [lia|]. split; [constructor|].
    split; [done|]. intros again Heq. apply chat_message_skips. by rewrite Heq. }
  rewrite (chat_message_run message st Hout). cbv zeta.
  rewrite injectBeadsContext_run. cbv zeta. cbn [host].
  set (r := session_messages (sessionID message) None (host st)).
  assert (forall st' : State H,
            sessionID message ∈ injectedSessions st' ->
            forall again, sessionID again = sessionID message ->
                          chat_message again st' = (inr tt, st', [])) as Hagain.
  { intros st' Hin again Heq. apply chat_message_skips. by rewrite Heq. }
  assert (sessionID message ∈ {[ sessionID message ]} ∪ injectedSessions st) as Hnow
    by set_solver.
  destruct (match r.1 with
            | inr (Some data) => existsb hasBeadsContextParts data
            | _ => false
            end).
  { cbn [result state calls fst snd List.filter isPrompt length injectedSessions].
    split; [done|]. split; [done|]. split; [lia|]. split; [by repeat constructor|].
    split; [done|]. by apply Hagain. }
  destruct (bd_prime r.2) as [[err|out] h2].
  { cbn [result state calls fst snd List.filter isPrompt length injectedSessions withHost].
    split; [done|]. split; [done|]. split; [lia|]. split; [by repeat constructor|].
    split; [done|]. by apply Hagain. }
  destruct (Js.seq (Js.trim out) "").
  { cbn [result state calls fst snd List.filter isPrompt length injectedSessions withHost].
    split; [done|]. split; [done|]. split; [lia|]. split; [by repeat constructor|].
    split; [done|]. by apply Hagain. }
  cbn [result state calls fst snd List.filter isPrompt length injectedSessions withHost].
  split; [done|]. split; [done|]. split; [lia|]. split; [by repeat constructor|].
  split; [done|]. by apply Hagain.
Qed.

Lemma hasBeadsContextParts_own (msg : Message) ps part out :
  parts msg = Some ps -> In part ps ->
  part_type part = "text" -> part_text part = Some (beadsContext out) ->
  hasBeadsContextParts msg = true.
Proof.
  intros Hps Hin Hty Htext. unfold hasBeadsContextParts. rewrite Hps.
  apply existsb_exists. exists part. split; [done|].
  unfold isBeadsContextPart. rewrite Hty, Htext, beadsContext_marked. done.
Qed.

(** X16. The [chat.message] hook recognises what [injectBeadsContext]
    sent: when the session's messages hold a text part with the text
    built for any [bd prime] output, a plugin instance that has not
    marked the session marks it and neither runs [bd prime] nor sends a
    prompt. *)
Theorem chat_message_recognises_context :
  forall (message : UserMessage) (st : State H) (data : list Message) (h1 : H)
         (msg : Message) (ps : list Part) (part : Part) (out : string),
    sessionID message ∉ injectedSessions st ->
    session_messages (sessionID message) None (host st) = (inr (Some data), h1) ->
    In msg data -> parts msg = Some ps -> In part ps ->
    part_type part = "text" -> part_text part = Some (beadsContext out) ->
    chat_message message st =
    (inr tt,
     {| host := h1; injectedSessions := {[ sessionID message ]} ∪ injectedSessions st |},
     [Messages (sessionID message) None (inr (Some data))]).
Proof.
  intros message st data h1 msg ps part out Hout Hreply Hmsg Hps Hpart Hty Htext.
  rewrite (chat_message_run message st Hout). cbv zeta. rewrite Hreply. cbn [fst snd].
  assert (existsb hasBeadsContextParts data = true) as ->; [|done].
  apply existsb_exists. exists msg. split; [done|]. by eapply hasBeadsContextParts_own.
Qed.

(** X17. The [event] hook never throws and never touches the set of
    injected sessions.  Any event but [session.compacted] does nothing.
    On [session.compacted] it asks for the session's messages with limit
    50, runs [bd prime] whatever that query gave, and sends at most one
    prompt, which carries the model and agent of the first user message
    with a model, or none. *)
Theorem event_compacted_reinjects :
  forall (e : Event) (st : State H),
    let o := event e st in
    let id := event_sessionID e in
    result o = inr tt /\
    injectedSessions (state o) = injectedSessions st /\
    (event_type e <> "session.compacted" -> o = (inr tt, st, [])) /\
    (event_type e = "session.compacted" ->
     exists reply primed rest,
       calls o = Messages id (Some 50) reply :: Prime primed :: rest /\
       let context := match reply with
                      | inr (Some data) => firstUserContext data
                      | _ => None
                      end in
       (rest = [] \/
        exists out answer,
          primed = inr out /\ Js.trim out <> "" /\
          rest = [Prompt id
                    {| noReply := true;
                       body_model := match context with Some c => ctx_model c | None => None end;
                       body_agent := match context with Some c => ctx_agent c | None => None end;
                       body_parts := [{| type := "text"; text := beadsContext out;
                                         synthetic := true |}] |}
                    answer])).
Proof.
  intros e st o id. subst o id. unfold event.
  destruct (Js.seq (event_type e) "session.compacted") eqn:Hty.
  - apply seq_true in Hty. unfold bind. rewrite getSessionContext_run. cbv zeta.
    rewrite injectBeadsContext_run. cbv zeta. cbn [host withHost].
    set (r := session_messages (event_sessionID e) (Some 50) (host st)).
    destruct (bd_prime r.2) as [[err|out] h2].
    { cbn. split; [done|]. split; [done|]. split; [done|]. intros _.
      eexists _, _, []. split; [done|]. by left. }
    destruct (Js.seq (Js.trim out) "") eqn:Hblank.
    { cbn. split; [done|]. split; [done|]. split; [done|]. intros _.
      eexists _, _, []. split; [done|]. by left. }
    cbn. split; [done|]. split; [done|]. split; [done|]. intros _.
    eexists _, _, _. split; [done|]. right. eexists out, _.
    split; [done|]. split; [by apply seq_false in Hblank|done].
  - apply seq_false in Hty. cbn. done.
Qed.

Lemma filterOpen_None (todos : list Value) : filterOpen todos = None <-> In VNull todos.
Proof.
  induction todos as [|t todos IH]; [done|]. cbn [filterOpen In].
  destruct t; cbn [statusOf];
    try (destruct (filterOpen todos); split; [done| |intros _; right; by apply IH|];
         intros [?|Hin]; [done| |done|by apply IH]; apply IH in Hin; done).
  split; [by left|done].
Qed.

Lemma filterOpen_Some (todos kept : list Value) :
  filterOpen todos = Some kept ->
  (length kept + length (List.filter isCompleted todos) = length todos)%nat.
Proof.
  revert kept. induction todos as [|t todos IH]; intros kept.
  { by intros [= <-]. }
  cbn [filterOpen]. destruct (statusOf t) as [status|] eqn:Hst; [|done].
  destruct (filterOpen todos) as [kept'|]; [|done]. specialize (IH kept' eq_refl).
  intros [= <-]. cbn [List.filter length].
  destruct t; cbn [statusOf] in Hst; try done; injection Hst as <-; cbn; try lia.
  destruct (Obj.get "status" props) as [[]|]; cbn; try lia.
  destruct (Js.seq s "completed"); cbn; lia.
Qed.

(** X18. The [tool.execute.after] hook never changes [output.output]; it
    leaves the whole object alone for any tool but [todowrite] and
    [todoread], when the output does not parse, and when it parses to
    anything but an array.  For an array it sets [metadata] to the
    parsed todos; the title becomes the number of elements that are not
    objects with [status] equal to [completed], followed by [ todos],
    unless an element is [null]: then the metadata is already set and
    the title stays. *)
Theorem tool_execute_after_title :
  forall (tool : string) (out : ToolOutput),
    let out' := tool_execute_after tool out in
    output out' = output out /\
    (tool <> "todowrite" -> tool <> "todoread" -> out' = out) /\
    (JSON_parse (output out) = None -> out' = out) /\
    (forall v, JSON_parse (output out) = Some v ->
               (forall todos, v <> VArray todos) -> out' = out) /\
    (forall todos,
       tool = "todowrite" \/ tool = "todoread" ->
       JSON_parse (output out) = Some (VArray todos) ->
       metadata out' = VObject [("todos", VArray todos)] /\
       (In VNull todos -> title out' = title out) /\
       (~ In VNull todos ->
        exists n, title out' = Js.ofNat n +:+ " todos" /\
                  (n + length (List.filter isCompleted todos) = length todos)%nat)).
Proof.
  intros tool out out'. subst out'. unfold tool_execute_after.
  split; [|split; [|split; [|split]]].
  - destruct (_ || _); [|done]. destruct (JSON_parse (output out)) as [[]|]; try done.
    by destruct (filterOpen items).
  - intros Hw Hr. apply seq_false in Hw, Hr. by rewrite Hw, Hr.
  - intros ->. by destruct (_ || _).
  - intros v -> Hv. destruct (_ || _); [|done]. destruct v; try done. by destruct (Hv items).
  - intros todos Htool ->.
    assert (Js.seq tool "todowrite" || Js.seq tool "todoread" = true) as ->.
    { destruct Htool as [-> | ->]; done. }
    destruct (filterOpen todos) as [kept|] eqn:Hkept; cbn.
    + split; [done|]. split.
      * intros Hnull. apply filterOpen_None in Hnull. congruence.
      * intros _. exists (length kept). split; [done|]. by apply filterOpen_Some.
    + split; [done|]. split; [done|]. intros Hnull. destruct Hnull. by apply filterOpen_None.
Qed.

End PluginHooks.

Section PluginConfig.
Import Plugin.

Lemma get_assign {V} (k : string) (source : Obj.t V) :
  forall target,
    NoDup (map fst source) ->
    Obj.get k (assign target source) =
    match Obj.get k source with
    | Some v => Some v
    | None => Obj.get k target
    end.
Proof.
  unfold assign, Obj.entries. induction source as [|[k1 v1] source IH]; intros target Hnd.
  { done. }
  cbn [fold_left map fst snd Obj.get] in *. apply NoDup_cons in Hnd as [Hk1 Hnd].
  rewrite IH by done. destruct (Js.seq k k1) eqn:Hk.
  - apply seq_true in Hk. subst k1.
    destruct (Obj.get k source) as [v|] eqn:Hg; [|apply get_set_eq].
    exfalso. apply Hk1. apply list_elem_of_In. by eapply get_keys.
  - apply seq_false in Hk. destruct (Obj.get k source); [done|].
    apply get_set_ne. congruence.
Qed.

Lemma get_spread {V} (k : string) (a : option (Obj.t V)) (b : Obj.t V) :
  NoDup (map fst (default Obj.empty a)) -> NoDup (map fst b) ->
  Obj.get k (spread a b) =
  match Obj.get k b with
  | Some v => Some v
  | None => Obj.get k (default Obj.empty a)
  end.
Proof.
  intros Ha Hb. unfold spread. rewrite !get_assign by done.
  destruct (Obj.get k b); [done|]. by destruct (Obj.get k (default Obj.empty a)).
Qed.

(** X19. The [config] hook always sets both tables; with property names
    unique in each object, a name the plugin defines gets the plugin's
    entry, replacing the user's, and every other name keeps the user's
    entry, for commands and for agents alike. *)
Theorem config_merges_tables :
  forall {C A : Type} (commands : Obj.t C) (agents : Obj.t A) (c : Config C A)
         (name : string),
    NoDup (map fst commands) -> NoDup (map fst agents) ->
    NoDup (map fst (default Obj.empty (command c))) ->
    NoDup (map fst (default Obj.empty (agent_table c))) ->
    exists merged_commands merged_agents,
      command (config commands agents c) = Some merged_commands /\
      agent_table (config commands agents c) = Some merged_agents /\
      Obj.get name merged_commands =
        match Obj.get name commands with
        | Some v => Some v
        | None => Obj.get name (default Obj.empty (command c))
        end /\
      Obj.get name merged_agents =
        match Obj.get name agents with
        | Some v => Some v
        | None => Obj.get name (default Obj.empty (agent_table c))
        end.
Proof.
  intros C A commands agents c name Hc Ha Hcc Hca. eexists _, _.
  split; [done|]. split; [done|]. split; by apply get_spread.
Qed.

End PluginConfig.

Section PluginOnDemoHost.
Import Plugin.

Lemma chat_message_recognises_context_witness :
  let st1 := state (chat_message DemoHost.firstMessage (BeadsPlugin DemoHost.start)) in
  chat_message DemoHost.firstMessage (BeadsPlugin (host st1)) =
  (inr tt,
   {| host := host st1; injectedSessions := {[ "ses_1" ]} ∪ ∅ |},
   [Messages "ses_1" None (inr (Some (DemoHost.history (host st1))))]).
Proof.
  refine (@chat_message_recognises_context DemoHost.Chat DemoHost.host
            DemoHost.firstMessage
            (BeadsPlugin (host (state (chat_message DemoHost.firstMessage
                                         (BeadsPlugin DemoHost.start)))))
            _ _ _ _ _ "  3 open issues  " _ _ _ _ _ _ _).
  - apply not_elem_of_empty.
  - reflexivity.
  - right. left. reflexivity.
  - reflexivity.
  - left. reflexivity.
  - reflexivity.
  - reflexivity.
Defined.

Lemma config_merges_tables_witness :
  let commands := [("bd-ready", "Show ready work"); ("bd-sync", "Sync issues")] in
  let agents := [("beads-task-agent", "Works through ready issues")] in
  let c := {| command := Some [("deploy", "Ship it"); ("bd-ready", "My own ready")];
              agent_table := None |} in
  exists merged_commands merged_agents,
    command (config commands agents c) = Some merged_commands /\
    agent_table (config commands agents c) = Some merged_agents /\
    Obj.get "bd-ready" merged_commands =
      match Obj.get "bd-ready" commands with
      | Some v => Some v
      | None => Obj.get "bd-ready" (default Obj.empty (command c))
      end /\
    Obj.get "bd-ready" merged_agents =
      match Obj.get "bd-ready" agents with
      | Some v => Some v
      | None => Obj.get "bd-ready" (default Obj.empty (agent_table c))
      end.
Proof.
  apply (@config_merges_tables string string
           [("bd-ready", "Show ready work"); ("bd-sync", "Sync issues")]
           [("beads-task-agent", "Works through ready issues")]
           {| command := Some [("deploy", "Ship it"); ("bd-ready", "My own ready")];
              agent_table := None |}
           "bd-ready").
  - apply (bool_decide_unpack _). vm_compute. reflexivity.
  - apply (bool_decide_unpack _). vm_compute. reflexivity.
  - apply (bool_decide_unpack _). vm_compute. reflexivity.
  - apply (bool_decide_unpack _). vm_compute. reflexivity.
Defined.

(** The title counts the pending and the cancelled todo, not the
    completed one; a [null] element leaves the title alone. *)
Lemma tool_execute_after_example :
  let out := {| title := ""; output := DemoHost.todosText; metadata := VObject [] |} in
  title (tool_execute_after "todowrite" out) = "2 todos" /\
  title (tool_execute_after "todoread"
           {| title := ""; output := "[null]"; metadata := VObject [] |}) = "" /\
  metadata (tool_execute_after "todoread"
              {| title := ""; output := "[null]"; metadata := VObject [] |})
  = VObject [("todos", VArray [VNull])] /\
  tool_execute_after "bash" out = out.
Proof. vm_compute. repeat split. Qed.

(** On the demo host the first message of a session gets the context
    injected with the message's own model and agent, and the next
    message of the session does nothing. *)
Lemma chat_message_example :
  let o := chat_message DemoHost.firstMessage (BeadsPlugin DemoHost.start) in
  (exists body,
     calls o = [Messages "ses_1" None (inr (Some [DemoHost.hello]));
                Prime (inr "  3 open issues  ");
                Prompt "ses_1" body (inr tt)] /\
     body_model body = Some DemoHost.sonnet /\
     body_agent body = Some "build" /\
     map text (body_parts body) = [beadsContext "  3 open issues  "]) /\
  calls (chat_message DemoHost.firstMessage (state o)) = [].
Proof.
  split.
  - eexists. split; [reflexivity|]. repeat split.
  - reflexivity.
Qed.

End PluginOnDemoHost.

(** ** The vendoring script *)

Section ScriptFacts.
Import Script.

Lemma includes_slash (a : ascii) (rest : string) :
  Js.includes (String a rest) "/" = Ascii.eqb a "/" || Js.includes rest "/".
Proof.
  cbn [Js.includes String.prefix]. destruct (ascii_dec "/" a) as [<-|Hne].
  - destruct rest; done.
  - assert (Ascii.eqb a "/" = false) as -> by (apply Ascii.eqb_neq; congruence). done.
Qed.

Lemma afterLastSlash_free (line : string) :
  Js.includes line "/" = false -> afterLastSlash line = line.
Proof.
  destruct line as [|a rest]; [done|]. rewrite includes_slash.
  intros Hfree. apply orb_false_iff in Hfree as [Ha Hrest]. cbn [afterLastSlash].
  by rewrite Hrest, Ha.
Qed.

Lemma afterLastSlash_clean (line : string) : Js.includes (afterLastSlash line) "/" = false.
Proof.
  induction line as [|a rest IH]; [done|]. cbn [afterLastSlash].
  destruct (Js.includes rest "/") eqn:Hrest; [done|].
  destruct (Ascii.eqb a "/") eqn:Ha; [done|]. rewrite includes_slash. by rewrite Ha, Hrest.
Qed.

Lemma includes_app_r (pre s needle : string) :
  Js.includes s needle = true -> Js.includes (pre +:+ s) needle = true.
Proof.
  intros Hs. induction pre as [|a pre IH]; [done|].
  change (String a pre +:+ s) with (String a (pre +:+ s)).
  cbn [Js.includes]. rewrite IH. apply orb_true_r.
Qed.

Lemma afterLastSlash_tail (pre tag : string) :
  Js.includes tag "/" = false -> afterLastSlash (pre +:+ "/" +:+ tag) = tag.
Proof.
  intros Htag. induction pre as [|a pre IH].
  - change ("" +:+ "/" +:+ tag) with (String "/" tag). cbn [afterLastSlash].
    by rewrite Htag.
  - change (String a pre +:+ "/" +:+ tag) with (String a (pre +:+ "/" +:+ tag)).
    cbn [afterLastSlash]. rewrite includes_app_r; [done|].
    change ("/" +:+ tag) with (String "/" tag). by rewrite includes_slash.
Qed.

(** X20. The version the script cuts out of a line of [git ls-remote]
    never contains a slash; a line without a slash is taken whole; and
    of a line that ends in a slash followed by a slash-free tag, the tag
    is what remains. *)
Theorem afterLastSlash_cuts_the_tag :
  (forall line, Js.includes (afterLastSlash line) "/" = false) /\
  (forall line, Js.includes line "/" = false -> afterLastSlash line = line) /\
  (forall pre tag, Js.includes tag "/" = false ->
                   afterLastSlash (pre +:+ "/" +:+ tag) = tag).
Proof.
  split; [apply afterLastSlash_clean|]. split; [apply afterLastSlash_free|].
  apply afterLastSlash_tail.
Qed.

Lemma selected_lines (open : bool) (lines : list string) :
  map fst (selected open lines) = lines.
Proof.
  revert open. induction lines as [|line rest IH]; intros open; [done|].
  cbn [selected]. destruct open; [|destruct (isUnreleased line)]; cbn; by rewrite IH.
Qed.

Lemma selected_closed (lines : list string) :
  Forall (fun l => isUnreleased l = false) lines ->
  selected false lines = map (fun l => (l, false)) lines.
Proof.
  induction 1 as [|line rest Hline _ IH]; [done|]. cbn [selected map].
  by rewrite Hline, IH.
Qed.

Lemma selected_section (section rest : list string) :
  Forall (fun l => isRelease l = false) section ->
  selected true (section ++ rest) = map (fun l => (l, true)) section ++ selected true rest.
Proof.
  induction 1 as [|line section Hline _ IH]; [done|]. cbn [selected map app].
  rewrite Hline. cbn [negb]. by rewrite IH.
Qed.

Lemma selected_opens (before rest : list string) :
  Forall (fun l => isUnreleased l = false) before ->
  selected false (before ++ "## [Unreleased]" :: rest) =
  map (fun l => (l, false)) before ++ ("## [Unreleased]", true) :: selected true rest.
Proof.
  induction 1 as [|line before Hline _ IH]; [done|]. cbn [selected map app].
  by rewrite Hline, IH.
Qed.

Lemma selected_rest (rest : list string) :
  Forall (fun l => isUnreleased l = false) rest ->
  rest = [] \/ (exists h tail, rest = h :: tail /\ isRelease h = true) ->
  selected true rest =
  match rest with
  | [] => []
  | h :: tail => (h, true) :: map (fun l => (l, false)) tail
  end.
Proof.
  intros Hrest [->|(h & tail & -> & Hh)]; [done|]. cbn [selected]. rewrite Hh. cbn [negb].
  apply Forall_cons in Hrest as [_ Htail]. by rewrite selected_closed.
Qed.

Lemma unreleased_release (line : string) : isUnreleased line = true -> isRelease line = true.
Proof. intros Hl. apply seq_true in Hl. by subst. Qed.

Lemma createChanged_closed (version : string) (lines : list string) :
  Forall (fun l => isUnreleased l = false) lines -> createChanged version lines = lines.
Proof.
  unfold createChanged. induction 1 as [|line rest Hline _ IH]; [done|].
  cbn [flat_map]. by rewrite Hline, IH.
Qed.

Lemma not_In_unreleased (lines : list string) :
  ~ In "## [Unreleased]" lines <-> Forall (fun l => isUnreleased l = false) lines.
Proof.
  rewrite Forall_forall. split.
  - intros Hno l Hin. apply seq_false. intros ->. apply Hno. by apply list_elem_of_In.
  - intros Hall Hin. apply list_elem_of_In, Hall in Hin. done.
Qed.

Lemma hasChangedSection_closed (cut : bool) (lines : list string) :
  Forall (fun l => isUnreleased l = false) lines -> hasChangedSection cut lines = false.
Proof.
  intros Hall. unfold hasChangedSection. rewrite selected_closed by done.
  clear. induction lines as [|l lines IH]; [done|]. cbn. done.
Qed.

(** Each edit keeps the lines and only adds lines. *)
Lemma sublist_appendToChanged version (marked : list (string * bool)) :
  sublist (map fst marked)
          (flat_map (fun l => if l.2 && isChanged l.1 then [l.1; entry version] else [l.1])
                    marked).
Proof.
  induction marked as [|[l b] marked IH]; [constructor|]. cbn [map flat_map fst snd].
  destruct (b && isChanged l); cbn [app].
  - apply sublist_skip, sublist_cons, IH.
  - apply sublist_skip, IH.
Qed.

Lemma sublist_createChanged version (lines : list string) :
  sublist lines (createChanged version lines).
Proof.
  unfold createChanged. induction lines as [|l lines IH]; [constructor|]. cbn [flat_map].
  destruct (isUnreleased l); cbn [app].
  - by apply sublist_skip, sublist_cons, sublist_cons, sublist_cons, sublist_cons.
  - by apply sublist_skip.
Qed.

Lemma appendToChanged_grows version (marked : list (string * bool)) :
  existsb (fun l => l.2 && isChanged l.1) marked = true ->
  let out := flat_map (fun l => if l.2 && isChanged l.1 then [l.1; entry version] else [l.1])
                      marked in
  In (entry version) out /\ (length marked < length out)%nat.
Proof.
  intros Hex. cbv zeta.
  assert (forall ms : list (string * bool),
            (length ms <= length (flat_map (fun l => if l.2 && isChanged l.1
                                                     then [l.1; entry version] else [l.1]) ms))%nat)
    as Hle.
  { induction ms as [|[l b] ms IH]; [done|]. cbn [flat_map fst snd].
    destruct (b && isChanged l); cbn; lia. }
  induction marked as [|[l b] marked IH]; [done|]. cbn [existsb flat_map fst snd] in *.
  destruct (b && isChanged l); cbn [orb app] in *.
  - split; [right; by left|]. cbn. specialize (Hle marked). lia.
  - destruct (IH Hex) as [Hin Hlen]. split; [by right|]. cbn. lia.
Qed.

Lemma createChanged_grows version (lines : list string) :
  In "## [Unreleased]" lines ->
  In (entry version) (createChanged version lines) /\
  (length lines < length (createChanged version lines))%nat.
Proof.
  unfold createChanged. intros Hin.
  assert (forall ls : list string,
            (length ls <= length (flat_map (fun line => if isUnreleased line
                                              then [line; ""; "### Changed"; ""; entry version]
                                              else [line]) ls))%nat) as Hle.
  { induction ls as [|l ls IH]; [done|]. cbn [flat_map].
    destruct (isUnreleased l); cbn; lia. }
  induction lines as [|l lines IH]; [done|]. cbn [flat_map].
  destruct Hin as [->|Hin].
  - cbn. split; [auto 6|]. specialize (Hle lines). lia.
  - destruct (IH Hin) as [Hentry Hlen].
    destruct (isUnreleased l); cbn [app]; (split; [cbn; auto 8|cbn; lia]).
Qed.

Lemma updateChangelog_grows cut version (lines : list string) :
  In "## [Unreleased]" lines ->
  In (entry version) (updateChangelog cut version lines) /\
  (length lines < length (updateChangelog cut version lines))%nat.
Proof.
  intros Hin. unfold updateChangelog.
  destruct (hasChangedSection cut lines) eqn:Hsec; [|by apply createChanged_grows].
  unfold appendToChanged. unfold hasChangedSection in Hsec.
  apply andb_true_iff in Hsec as [Hsec _].
  destruct (appendToChanged_grows version _ Hsec) as [Hentry Hlen].
  split; [done|]. rewrite <- (selected_lines false lines) at 1. by rewrite length_map.
Qed.

Lemma sublist_updateChangelog cut version (lines : list string) :
  sublist lines (updateChangelog cut version lines).
Proof.
  unfold updateChangelog. destruct (hasChangedSection cut lines).
  - unfold appendToChanged. rewrite <- (selected_lines false lines) at 1.
    apply sublist_appendToChanged.
  - apply sublist_createChanged.
Qed.

(** X21. The changelog step, whether or not [sed] is cut off in its
    test, keeps every line of the changelog in order and adds nothing
    but blank lines, [### Changed] headings and the entry for the
    version.  A changelog without a [## [Unreleased]] line is left as it
    is, silently; with one, the entry is added, and a second run adds it
    again. *)
Theorem updateChangelog_adds_entry :
  forall (cut : bool) (version : string) (lines : list string),
    let out := updateChangelog cut version lines in
    sublist lines out /\
    (forall line, In line out ->
                  In line lines \/ line = "" \/ line = "### Changed" \/ line = entry version) /\
    (~ In "## [Unreleased]" lines -> out = lines) /\
    (In "## [Unreleased]" lines ->
     In (entry version) out /\
     (length lines < length out)%nat /\
     (forall again, length out < length (updateChangelog again version out))%nat).
Proof.
  intros cut version lines out. subst out.
  split; [apply sublist_updateChangelog|]. split; [|split].
  - intros line. unfold updateChangelog. destruct (hasChangedSection cut lines).
    + unfold appendToChanged. rewrite <- (selected_lines false lines) at 2.
      generalize (selected false lines). intros marked Hin.
      apply in_flat_map in Hin as ([l b] & Hl & Hin). cbn [fst snd] in Hin.
      assert (In l (map fst marked)) as Hl' by (apply in_map_iff; by exists (l, b)).
      destruct (b && isChanged l); cbn in Hin.
      * destruct Hin as [<-|[<-|[]]]; auto.
      * destruct Hin as [<-|[]]; auto.
    + unfold createChanged. intros Hin. apply in_flat_map in Hin as (l & Hl & Hin).
      destruct (isUnreleased l); cbn in Hin;
        repeat (destruct Hin as [<-|Hin]; [auto|]); done.
  - intros Hno. apply not_In_unreleased in Hno. unfold updateChangelog.
    rewrite hasChangedSection_closed by done. by apply createChanged_closed.
  - intros Hin. destruct (updateChangelog_grows cut version lines Hin) as [Hentry Hlen].
    split; [done|]. split; [done|]. intros again. apply updateChangelog_grows.
    eapply sublist_In; [apply sublist_updateChangelog|done].
Qed.

Lemma flat_map_unselected {B} (f : string * bool -> list B) (g : string -> list B)
    (lines : list string) :
  (forall l, f (l, false) = g l) ->
  flat_map f (map (fun l => (l, false)) lines) = flat_map g lines.
Proof. intros Hfg. induction lines as [|l lines IH]; [done|]. cbn. by rewrite Hfg, IH. Qed.

Lemma existsb_unselected (lines : list string) :
  existsb (fun l : string * bool => l.2 && isChanged l.1) (map (fun l => (l, false)) lines)
  = false.
Proof. induction lines as [|l lines IH]; [done|]. cbn. done. Qed.

Lemma existsb_section (section : list string) :
  existsb (fun l : string * bool => l.2 && isChanged l.1) (map (fun l => (l, true)) section)
  = existsb isChanged section.
Proof. induction section as [|l section IH]; [done|]. cbn. by rewrite IH. Qed.

Lemma existsb_none (section : list string) :
  Forall (fun l => isChanged l = false) section -> existsb isChanged section = false.
Proof. induction 1 as [|l section Hl _ IH]; [done|]. cbn. by rewrite Hl, IH. Qed.

Lemma append_unselected version (lines : list string) :
  flat_map (fun l : string * bool => if l.2 && isChanged l.1 then [l.1; entry version] else [l.1])
           (map (fun l => (l, false)) lines) = lines.
Proof. induction lines as [|l lines IH]; [done|]. cbn. by rewrite IH. Qed.

Lemma append_section version (section : list string) :
  Forall (fun l => isChanged l = false) section ->
  flat_map (fun l : string * bool => if l.2 && isChanged l.1 then [l.1; entry version] else [l.1])
           (map (fun l => (l, true)) section) = section.
Proof.
  induction 1 as [|l section Hl _ IH]; [done|]. cbn [flat_map map fst snd andb].
  rewrite Hl. cbn [app]. by rewrite IH.
Qed.

Lemma rest_marks version (rest : list string) :
  Forall (fun l => isUnreleased l = false) rest ->
  rest = [] \/ (exists h tail, rest = h :: tail /\ isRelease h = true) ->
  existsb (fun l : string * bool => l.2 && isChanged l.1) (selected true rest) = false /\
  flat_map (fun l : string * bool => if l.2 && isChanged l.1 then [l.1; entry version] else [l.1])
           (selected true rest) = rest.
Proof.
  intros Hrest Hshape. rewrite (selected_rest rest Hrest Hshape).
  destruct Hshape as [->|(h & tail & -> & Hh)]; [done|].
  assert (isChanged h = false) as Hc.
  { apply seq_false. intros ->. done. }
  cbn [existsb flat_map fst snd andb]. rewrite Hc. cbn [orb app].
  by rewrite existsb_unselected, append_unselected.
Qed.

Lemma createChanged_section version (before tail : list string) :
  Forall (fun l => isUnreleased l = false) before ->
  Forall (fun l => isUnreleased l = false) tail ->
  createChanged version (before ++ "## [Unreleased]" :: tail) =
  before ++ ["## [Unreleased]"; ""; "### Changed"; ""; entry version] ++ tail.
Proof.
  intros Hbefore Htail. unfold createChanged. rewrite flat_map_app. cbn [flat_map].
  fold (createChanged version before). fold (createChanged version tail).
  by rewrite !createChanged_closed.
Qed.

(** X22. Where the entry goes, for a changelog with one [## [Unreleased]]
    heading whose section runs up to the next release heading or the end
    of the file.  Without a [### Changed] heading in the section, a new
    one is put directly under [## [Unreleased]], blank line, heading,
    blank line, entry, ahead of what the section held.  With one, and
    [sed] not cut off in the test, the entry goes on the line right
    after that heading.  With [sed] cut off, the script does what it
    does without the heading, whatever the section holds: a section
    that had the heading then has it twice.  Nothing outside the section
    changes, whatever headings the older releases have. *)
Theorem updateChangelog_placement :
  forall (cut : bool) (version : string) (before section rest : list string),
    Forall (fun l => isUnreleased l = false) before ->
    Forall (fun l => isRelease l = false) section ->
    Forall (fun l => isUnreleased l = false) rest ->
    rest = [] \/ (exists h tail, rest = h :: tail /\ isRelease h = true) ->
    let lines := before ++ "## [Unreleased]" :: section ++ rest in
    (Forall (fun l => isChanged l = false) section ->
     updateChangelog cut version lines =
     before ++ ["## [Unreleased]"; ""; "### Changed"; ""; entry version] ++ section ++ rest) /\
    (forall s1 s2,
       section = s1 ++ "### Changed" :: s2 ->
       Forall (fun l => isChanged l = false) s1 ->
       Forall (fun l => isChanged l = false) s2 ->
       cut = false ->
       updateChangelog cut version lines =
       before ++ "## [Unreleased]" :: s1 ++ ["### Changed"; entry version] ++ s2 ++ rest) /\
    (cut = true ->
     updateChangelog cut version lines =
     before ++ ["## [Unreleased]"; ""; "### Changed"; ""; entry version] ++ section ++ rest).
Proof.
  intros cut version before section rest Hbefore Hsection Hrest Hshape lines. subst lines.
  destruct (rest_marks version rest Hrest Hshape) as [Hrest_ex Hrest_fm].
  assert (Forall (fun l => isUnreleased l = false) section) as Hsection'.
  { eapply Forall_impl; [exact Hsection|]. intros l Hl. cbn in Hl.
    destruct (isUnreleased l) eqn:Hu; [|done]. apply unreleased_release in Hu. congruence. }
  assert (forall sec, Forall (fun l => isRelease l = false) sec ->
            selected false (before ++ "## [Unreleased]" :: sec ++ rest) =
            map (fun l => (l, false)) before
            ++ [("## [Unreleased]", true)] ++ map (fun l => (l, true)) sec ++ selected true rest)
    as Hmarks.
  { intros sec Hsec. by rewrite selected_opens, selected_section. }
  assert (Forall (fun l => isUnreleased l = false) (section ++ rest)) as Htail
    by (by apply Forall_app).
  split; [|split].
  - intros Hnone. unfold updateChangelog, hasChangedSection.
    rewrite Hmarks by done. rewrite !existsb_app.
    rewrite existsb_unselected, existsb_section, existsb_none, Hrest_ex by done.
    cbn [existsb orb fst snd andb]. change (isChanged "## [Unreleased]") with false.
    cbn [orb andb]. by apply createChanged_section.
  - intros s1 s2 -> Hs1 Hs2 ->.
    assert (hasChangedSection false
              (before ++ "## [Unreleased]" :: (s1 ++ "### Changed" :: s2) ++ rest)
            = true) as Hhas.
    { unfold hasChangedSection. rewrite Hmarks by done. rewrite !existsb_app.
      rewrite existsb_section, existsb_app. cbn [existsb]. 
      change (isChanged "### Changed") with true. cbn [orb negb].
      by rewrite !orb_true_r. }
    unfold updateChangelog. rewrite Hhas. unfold appendToChanged.
    rewrite Hmarks by done. rewrite !flat_map_app, map_app, flat_map_app.
    rewrite append_unselected, append_section, Hrest_fm by done.
    cbn [flat_map map fst snd andb app]. change (isChanged "## [Unreleased]") with false.
    change (isChanged "### Changed") with true. cbn [app].
    rewrite append_section by done. by rewrite <- !app_assoc.
  - intros ->. unfold updateChangelog, hasChangedSection. cbn [negb].
    rewrite andb_false_r. by apply createChanged_section.
Qed.

Lemma updateChangelog_placement_witness :
  let header := ["# Changelog"; ""] in
  let older := ["## [0.2.0]"; ""; "### Changed"; ""; "- Older entry"] in
  let added := [""; "### Added"; ""; "- Todo sync"; ""] in
  let changed := [""; "### Changed"; ""; "- Renamed the plugin"; ""] in
  updateChangelog false "v0.30.0" (header ++ "## [Unreleased]" :: added ++ older)
  = header ++ ["## [Unreleased]"; ""; "### Changed"; ""; entry "v0.30.0"] ++ added ++ older /\
  updateChangelog false "v0.30.0" (header ++ "## [Unreleased]" :: changed ++ older)
  = header ++ "## [Unreleased]" :: [""] ++ ["### Changed"; entry "v0.30.0"]
           ++ [""; "- Renamed the plugin"; ""] ++ older /\
  updateChangelog true "v0.30.0" (header ++ "## [Unreleased]" :: changed ++ older)
  = header ++ ["## [Unreleased]"; ""; "### Changed"; ""; entry "v0.30.0"] ++ changed ++ older.
Proof.
  split; [|split].
  - refine (proj1 (updateChangelog_placement false "v0.30.0" ["# Changelog"; ""]
                     [""; "### Added"; ""; "- Todo sync"; ""]
                     ["## [0.2.0]"; ""; "### Changed"; ""; "- Older entry"] _ _ _ _) _).
    + repeat constructor.
    + repeat constructor.
    + repeat constructor.
    + right. eexists _, _. split; reflexivity.
    + repeat constructor.
  - refine (proj1 (proj2 (updateChangelog_placement false "v0.30.0" ["# Changelog"; ""]
                     [""; "### Changed"; ""; "- Renamed the plugin"; ""]
                     ["## [0.2.0]"; ""; "### Changed"; ""; "- Older entry"] _ _ _ _))
                  [""] [""; "- Renamed the plugin"; ""] _ _ _ _).
    + repeat constructor.
    + repeat constructor.
    + repeat constructor.
    + right. eexists _, _. split; reflexivity.
    + reflexivity.
    + repeat constructor.
    + repeat constructor.
    + reflexivity.
  - refine (proj2 (proj2 (updateChangelog_placement true "v0.30.0" ["# Changelog"; ""]
                     [""; "### Changed"; ""; "- Renamed the plugin"; ""]
                     ["## [0.2.0]"; ""; "### Changed"; ""; "- Older entry"] _ _ _ _)) _).
    + repeat constructor.
    + repeat constructor.
    + repeat constructor.
    + right. eexists _, _. split; reflexivity.
    + reflexivity.
Defined.

End ScriptFacts.
